(** * ACS notebooks: pixel area maps and SBC dark analysis

    A shallow embedding of the code cells of the two tutorial notebooks
    [acs_pixel_area_maps] and [acs_sbc_dark_analysis].  Python values are
    modelled by Rocq data, a Python float by a binary64 number, the
    working directory by a finite map from paths to FITS files (with
    POSIX semantics for renaming), and a raised exception by the [Raise]
    result, which keeps the state reached when it was raised.  What the
    external libraries compute on pixels and how they store strings in
    table columns are parameters of the cells that use them.  Printing
    and plot layout are left out.  The operations of every code cell,
    in the order control reaches them, are listed apart, to follow
    exceptions and processes through cells whose libraries are not
    modelled. *)

From Stdlib Require Import ZArith Lia Bool Ascii String SpecFloat.
From stdpp Require Import gmap strings list fin_maps sorting.

Set Warnings "-register-all".

Local Open Scope Z_scope.
Local Open Scope nat_scope.

(** ** Python results and exceptions *)

Module Py.

(** The exception classes the modelled library calls raise. *)
Inductive exn :=
| NameError (name : string)
| KeyError (key : string)
| IndexError
| TypeError
| ValueError
| FileNotFoundError (path : string)
| IsADirectoryError (path : string)
| NotADirectoryError (path : string).

Inductive result (A : Type) :=
| Ok (a : A)
| Raise (e : exn).
Arguments Ok {A} a.
Arguments Raise {A} e.

Definition bind {A B} (r : result A) (k : A -> result B) : result B :=
  match r with
  | Ok a => k a
  | Raise e => Raise e
  end.

Definition is_ok {A} (r : result A) : bool :=
  match r with Ok _ => true | Raise _ => false end.

End Py.
Export Py.

Notation "'let!' x ':=' r 'in' k" := (Py.bind r (fun x => k))
  (at level 10, x name, r at level 100, k at level 200).
Notation "'let!' '_' ':=' r 'in' k" := (Py.bind r (fun _ => k))
  (at level 10, r at level 100, k at level 200).

(** ** Names bound and read by the code cells

    Each code cell is a list of statements; a statement records the names
    it reads and the names it binds, in evaluation order.  Attribute
    names, keyword-argument names and string literals are not names.  A
    function body is checked when the function is called, with its
    parameters bound, as Python resolves names at call time. *)

Module DefUse.

Inductive stmt :=
| Import (binds : list string)
| Stmt (reads : list string) (binds : list string)
| For (binds : list string) (reads : list string) (body : list stmt)
| With (reads : list string) (binds : list string) (body : list stmt)
| Def (name : string) (params : list string) (body : list stmt)
| Call (fname : string) (reads : list string).

Definition cell := list stmt.
Definition notebook := list cell.

(** The names a fresh kernel already knows. *)
Definition builtins : list string := ["print"].

Definition fun_table := list (string * (list string * list stmt)).

Record env := Env {
  globals : list string;
  funs : fun_table
}.

Definition mem (x : string) (l : list string) : bool :=
  existsb (String.eqb x) l.

Fixpoint lookup_fun (f : string) (t : fun_table) : option (list string * list stmt) :=
  match t with
  | [] => None
  | (g, d) :: t' => if String.eqb f g then Some d else lookup_fun f t'
  end.

(** [first_unbound locals e reads]: the first name of [reads] that is
    neither a local, a global nor a builtin. *)
Fixpoint first_unbound (locals : option (list string)) (e : env) (reads : list string)
  : option string :=
  match reads with
  | [] => None
  | x :: rest =>
      if mem x (default [] locals) || mem x (globals e) || mem x builtins
      then first_unbound locals e rest
      else Some x
  end.

Definition check_reads (locals : option (list string)) (e : env) (reads : list string)
  : result unit :=
  match first_unbound locals e reads with
  | None => Ok tt
  | Some x => Raise (NameError x)
  end.

(** Binding at module level extends the globals; inside a function body
    ([locals = Some l]) it extends the locals. *)
Definition bind_names (locals : option (list string)) (e : env) (xs : list string)
  : option (list string) * env :=
  match locals with
  | None => (None, Env (xs ++ globals e) (funs e))
  | Some l => (Some (xs ++ l), e)
  end.

Fixpoint run_stmt (fuel : nat) (locals : option (list string)) (e : env) (s : stmt)
  {struct fuel} : result (option (list string) * env) :=
  match fuel with
  | O => Raise ValueError
  | S fuel' =>
      let run_block :=
        fix go (locals : option (list string)) (e : env) (b : list stmt) :=
          match b with
          | [] => Ok (locals, e)
          | s :: b' =>
              let! st := run_stmt fuel' locals e s in
              go (fst st) (snd st) b'
          end in
      match s with
      | Import binds => Ok (bind_names locals e binds)
      | Stmt reads binds =>
          let! _ := check_reads locals e reads in
          Ok (bind_names locals e binds)
      | For binds reads body =>
          let! _ := check_reads locals e reads in
          let st := bind_names locals e binds in
          run_block (fst st) (snd st) body
      | With reads binds body =>
          let! _ := check_reads locals e reads in
          let st := bind_names locals e binds in
          run_block (fst st) (snd st) body
      | Def name params body =>
          let st := bind_names locals e [name] in
          Ok (fst st, Env (globals (snd st)) ((name, (params, body)) :: funs (snd st)))
      | Call fname reads =>
          let! _ := check_reads locals e (fname :: reads) in
          match lookup_fun fname (funs e) with
          | None => Ok (locals, e)
          | Some (params, body) =>
              let! st := run_block (Some params) e body in
              Ok (locals, snd st)
          end
      end
  end.

Fixpoint run_cell (fuel : nat) (e : env) (c : cell) : result env :=
  match c with
  | [] => Ok e
  | s :: c' =>
      let! st := run_stmt fuel None e s in
      run_cell fuel (snd st) c'
  end.

(** Running the code cells once, top to bottom, in a fresh kernel: the
    result is the index of the first cell that reads an unbound name,
    with that name, or [None] when every cell runs. *)
Fixpoint run_cells (fuel : nat) (i : nat) (e : env) (nb : notebook)
  : option (nat * exn) :=
  match nb with
  | [] => None
  | c :: nb' =>
      match run_cell fuel e c with
      | Ok e' => run_cells fuel (S i) e' nb'
      | Raise x => Some (i, x)
      end
  end.

Definition run_all (nb : notebook) : option (nat * exn) :=
  run_cells 8 0 (Env [] []) nb.

(** *** acs_pixel_area_maps: the ten code cells *)

Definition ds9_imitate_body : list stmt :=
  [ Stmt ["ImageNormalize"; "image"; "ZScaleInterval"; "LinearStretch"] ["norm"];
    Stmt ["ax"; "image"; "norm"] [] ].

Definition triple_plot_pam_body : list stmt :=
  [ Stmt ["fits"; "flt_file"] ["fl_img"];
    Stmt ["fits"; "pam_file"] ["pam_img"];
    Stmt ["plt"] ["fig"];
    Stmt ["fig"; "figtitle"] [];
    Stmt ["fig"] ["ax"];
    Call "ds9_imitate" ["ax"; "fl_img"];
    Stmt ["ax"] [];
    Stmt ["fig"] ["ax2"];
    Call "ds9_imitate" ["ax2"; "pam_img"];
    Stmt ["ax2"] [];
    Stmt ["fl_img"; "pam_img"] ["pamd_img"];
    Stmt ["fig"] ["ax3"];
    Call "ds9_imitate" ["ax3"; "pamd_img"];
    Stmt ["ax3"] [];
    Stmt ["plt"] [] ].

Definition pam_notebook : notebook :=
  [ (* imports *)
    [ Import ["Observations"]; Import ["os"]; Import ["shutil"];
      Import ["pamutils"]; Import ["fits"]; Import ["plt"] ];
    (* archive query and download *)
    [ Stmt ["Observations"] ["obs_table"];
      Stmt ["Observations"; "obs_table"] ["dl_table"] ];
    (* housekeeping *)
    [ For ["row"] ["dl_table"]
        [ Stmt ["row"] ["oldfname"];
          Stmt ["os"; "oldfname"] ["newfname"];
          Stmt ["os"; "oldfname"; "newfname"] [] ];
      Stmt ["shutil"] [] ];
    (* with fits.open(flt_file) as hdulist: hdulist.info() *)
    [ With ["fits"; "flt_file"] ["hdulist"] [ Stmt ["hdulist"] [] ] ];
    (* flt_file = 'j6me13qhq_flt.fits' *)
    [ Stmt [] ["flt_file"] ];
    [ Stmt ["pamutils"; "flt_file"] [] ];
    [ Stmt ["pamutils"; "flt_file"] [] ];
    [ Import ["ZScaleInterval"; "LinearStretch"; "ImageNormalize"];
      Def "ds9_imitate" ["ax"; "image"] ds9_imitate_body;
      Def "triple_plot_pam" ["flt_file"; "pam_file"; "figtitle"] triple_plot_pam_body ];
    [ Call "triple_plot_pam" ["flt_file"] ];
    [ Call "triple_plot_pam" ["flt_file"] ] ].

(** *** acs_sbc_dark_analysis: the twenty code cells *)

Definition box_sum_body : list stmt :=
  [ Stmt ["fits"; "file"] ["image"];
    Stmt ["image"; "cutter"] ["img_slice"];
    Stmt ["os"; "file"] ["neatname"];
    Stmt ["print"; "neatname"; "np"; "img_slice"] [] ].

Definition dark_cell : cell :=
  [ Stmt [] ["flt_file"]; Stmt [] ["drk_file"]; Stmt [] ["new_file"];
    Stmt ["os"; "flt_file"; "new_file"] [];
    Stmt ["fits"; "drk_file"] ["darkdat"];
    Stmt ["fits"; "drk_file"] ["exptime"];
    With ["fits"; "new_file"] ["hdu"]
      [ Stmt ["darkdat"; "hdu"] [];
        Stmt ["exptime"; "hdu"] [] ] ].

Definition dark_notebook : notebook :=
  [ [ Import ["os"]; Import ["shutil"]; Import ["glob"]; Import ["plt"];
      Import ["np"]; Import ["Observations"]; Import ["adriz"]; Import ["fits"];
      Import ["Table"]; Import ["wcs"]; Import ["LogNorm"];
      Import ["EllipticalAperture"]; Import ["aperture_photometry"] ];
    [ Stmt ["Observations"] ["science_list"];
      Stmt ["Observations"; "science_list"] ["sci_dl_table"] ];
    [ Stmt ["Observations"] ["darks_list"];
      Stmt ["Observations"; "darks_list"] ["drk_dl_table"] ];
    [ For ["dl_table"] ["sci_dl_table"; "drk_dl_table"]
        [ For ["row"] ["dl_table"]
            [ Stmt ["row"] ["oldfname"];
              Stmt ["os"; "oldfname"] ["newfname"];
              Stmt ["os"; "oldfname"; "newfname"] [] ] ];
      Stmt ["shutil"] [] ];
    [ Stmt ["glob"] ["asn_list"]; Stmt ["glob"] ["flt_list"];
      Stmt ["glob"] ["drk_list"] ];
    [ With ["fits"; "drk_list"] ["hdulist"] [ Stmt ["hdulist"] [] ] ];
    [ Stmt ["Table"] ["flt_table"] ];
    [ For ["file"] ["flt_list"]
        [ Stmt ["fits"; "file"] ["filt"];
          Stmt ["fits"; "file"] ["date"];
          Stmt ["fits"; "file"] ["time"];
          Stmt ["fits"; "file"] ["t1"];
          Stmt ["fits"; "file"] ["t2"];
          Stmt ["date"; "time"] ["starttime"];
          Stmt ["t1"; "t2"] ["avgtemp"];
          Stmt ["flt_table"; "file"; "starttime"; "filt"; "t1"; "t2"; "avgtemp"] [] ];
      Stmt ["print"; "flt_table"] [] ];
    [ Stmt ["flt_table"] []; Stmt ["print"; "flt_table"] [] ];
    [ Stmt [] ["driz_kwargs"] ];
    [ For ["file"] ["asn_list"]
        [ Stmt ["fits"; "file"] ["output_name"];
          Stmt ["adriz"; "file"; "output_name"; "driz_kwargs"] [] ] ];
    [ Stmt ["np"] ["cutter"] ];
    [ Stmt [] ["sci_list"];
      Stmt ["print"] [];
      For ["file"] ["sci_list"] box_sum_body;
      Stmt ["print"] []; Stmt ["print"] [];
      For ["file"] ["drk_list"] box_sum_body ];
    dark_cell;
    dark_cell;
    [ Stmt ["adriz"; "driz_kwargs"] ["adriz_output"] ];
    [ Stmt ["fits"] ["f165lp"]; Stmt ["fits"] ["masterdark"];
      Stmt ["plt"] ["fig"; "ax"];
      Stmt ["ax"] []; Stmt ["ax"] [];
      Stmt ["LogNorm"] ["plt_kwargs"];
      Stmt ["ax"; "f165lp"; "plt_kwargs"] [];
      Stmt ["ax"; "masterdark"; "plt_kwargs"] [] ];
    [ Stmt ["EllipticalAperture"; "np"] ["aper"] ];
    [ Stmt ["plt"] ["fig"; "ax"];
      Stmt ["ax"] []; Stmt ["ax"] [];
      Stmt ["ax"; "f165lp"; "plt_kwargs"] [];
      Stmt ["ax"; "masterdark"; "plt_kwargs"] [];
      Stmt ["aper"; "ax"] []; Stmt ["aper"; "ax"] [] ];
    [ Stmt ["aperture_photometry"; "f165lp"; "aper"] ["f165lp_phot"];
      Stmt ["aperture_photometry"; "masterdark"; "aper"] ["masterdark_phot"];
      Stmt ["f165lp_phot"; "masterdark_phot"] ["sumdiff"];
      Stmt ["print"] []; Stmt ["print"; "f165lp_phot"] []; Stmt ["print"] [];
      Stmt ["print"] []; Stmt ["print"; "masterdark_phot"] []; Stmt ["print"] [];
      Stmt ["print"] []; Stmt ["print"; "sumdiff"] [] ] ].

End DefUse.

(** ** What the code cells call, and in what order

    A code cell as the list of the operations it performs that can fail:
    calls of library functions and methods, subscripts and operators,
    in evaluation order.  [Try] is the [try: ... except: ...] statement
    of Python; whether the notebooks have one is what is to be seen. *)

Module Flow.

Inductive code :=
| Do (f : string)
| For (body : list code)
| With (enter : string) (body : list code)
| Try (body : list code) (handler : list code)
| Func (name : string) (body : list code).

Definition cell := list code.
Definition notebook := list cell.

(** No [try] statement, at any depth. *)
Fixpoint handler_free (c : code) : bool :=
  match c with
  | Do _ => true
  | For body => forallb handler_free body
  | With _ body => forallb handler_free body
  | Try _ _ => false
  | Func _ body => forallb handler_free body
  end.






(** *** Running a cell

    What the libraries do is not known here: a world says which of the
    operations fail, by their position in the run, and with which
    exception, and over how many items each loop runs. *)

Section Runs.
Context {E : Type}.

Record world := World {
  fails : nat -> option E;
  lengths : nat -> nat
}.

Inductive event :=
| Returned (f : string)
| Raised (f : string) (e : E)
| Closed (f : string).

(** What has happened so far, the number of operations started and the
    number of loops started. *)
Record state := State {
  log : list event;
  calls : nat;
  loops : nat
}.

Inductive outcome :=
| Done
| Exn (e : E).

Definition M := state -> outcome * state.

Definition ret : M := fun s => (Done, s).

Definition bind (m k : M) : M :=
  fun s =>
    match m s with
    | (Done, s') => k s'
    | (Exn e, s') => (Exn e, s')
    end.

(** An operation: it returns or raises, as the world has it. *)
Definition call (w : world) (f : string) : M :=
  fun s =>
    match fails w (calls s) with
    | None => (Done, State (log s ++ [Returned f]) (S (calls s)) (loops s))
    | Some e => (Exn e, State (log s ++ [Raised f e]) (S (calls s)) (loops s))
    end.

(** Leaving a [with] block closes what it opened, and lets an exception
    of the block through; closing is taken not to fail. *)
Definition finally (m : M) (f : string) : M :=
  fun s =>
    match m s with
    | (out, s') => (out, State (log s' ++ [Closed f]) (calls s') (loops s'))
    end.

(** [try: m except: h]: the handler runs when the block raises, and the
    exception is gone. *)
Definition catch (m h : M) : M :=
  fun s =>
    match m s with
    | (Done, s') => (Done, s')
    | (Exn _, s') => h s'
    end.

Fixpoint repeat (n : nat) (m : M) : M :=
  match n with
  | O => ret
  | S n' => bind m (repeat n' m)
  end.

Definition loop (w : world) (m : M) : M :=
  fun s => repeat (lengths w (loops s)) m (State (log s) (calls s) (S (loops s))).

Fixpoint run (w : world) (c : code) : M :=
  let block :=
    fix go (b : list code) : M :=
      match b with
      | [] => ret
      | c :: b' => bind (run w c) (go b')
      end in
  match c with
  | Do f => call w f
  | For body => loop w (block body)
  | With enter body => bind (call w enter) (finally (block body) enter)
  | Try body handler => catch (block body) (block handler)
  | Func _ body => block body
  end.

Fixpoint run_block (w : world) (b : list code) : M :=
  match b with
  | [] => ret
  | c :: b' => bind (run w c) (run_block w b')
  end.

(** The operations from position [a] up to position [b] returned. *)
Definition returned (w : world) (a b : nat) : Prop :=
  forall k, a <= k < b -> fails w k = None.

(** A run from [s] to [s'] hands on what the libraries did: it ends well
    when every operation it started returned; it ends with [e] when the
    last operation it started raised [e] and the ones before returned.
    What had happened before is still in the log. *)
Definition propagates (w : world) (s : state) (out : outcome) (s' : state) : Prop :=
  log s `prefix_of` log s' /\
  calls s <= calls s' /\
  match out with
  | Done => returned w (calls s) (calls s')
  | Exn e =>
      exists k, calls s' = S k /\ calls s <= k /\
                fails w k = Some e /\ returned w (calls s) k
  end.

(** A piece of code hands on what its operations do. *)
Definition faithful (w : world) (m : M) : Prop :=
  forall s out s', m s = (out, s') -> propagates w s out s'.

End Runs.

Arguments world : clear implicits.
Arguments event : clear implicits.
Arguments state : clear implicits.
Arguments outcome : clear implicits.

(** *** acs_pixel_area_maps: the ten code cells *)

Definition ds9_imitate : code :=
  Func "ds9_imitate"
    [ Do "ZScaleInterval"; Do "LinearStretch"; Do "ImageNormalize"; Do "ax.imshow" ].

Definition triple_plot_pam : code :=
  Func "triple_plot_pam"
    [ Do "fits.getdata"; Do "fits.getdata";
      Do "plt.figure"; Do "fig.suptitle";
      Do "fig.add_subplot"; ds9_imitate; Do "ax.set_title";
      Do "fig.add_subplot"; ds9_imitate; Do "ax.set_title";
      Do "fl_img * pam_img";
      Do "fig.add_subplot"; ds9_imitate; Do "ax.set_title";
      Do "plt.subplots_adjust" ].

Definition housekeeping_row : list code :=
  [ Do "row['Local Path']"; Do "os.path.basename"; Do "os.rename" ].

Definition pam_notebook : notebook :=
  [ (* imports *)
    [ Do "import astroquery.mast"; Do "import os"; Do "import shutil";
      Do "import stsci.skypac"; Do "import astropy.io"; Do "import matplotlib.pyplot" ];
    (* archive query and download *)
    [ Do "Observations.query_criteria";
      Do "obs_table['obsid']"; Do "Observations.download_products" ];
    (* housekeeping *)
    [ For housekeeping_row; Do "shutil.rmtree" ];
    [ With "fits.open" [ Do "hdulist.info" ] ];
    (* flt_file = 'j6me13qhq_flt.fits' *)
    [ ];
    [ Do "pamutils.pam_from_file" ];
    [ Do "pamutils.pam_from_file" ];
    (* an import and the two function definitions *)
    [ Do "import astropy.visualization" ];
    [ triple_plot_pam ];
    [ triple_plot_pam ] ].

(** *** acs_sbc_dark_analysis: the twenty code cells *)

Definition box_sum_row : list code :=
  [ Do "fits.getdata"; Do "image[cutter]"; Do "os.path.basename";
    Do "np.sum"; Do "str.format"; Do "print" ].

Definition dark_cell : cell :=
  [ Do "str.format"; Do "os.system";
    Do "fits.getdata"; Do "fits.getval";
    With "fits.open"
      [ Do "hdu[1]"; Do "data[:,:] = darkdat";
        Do "hdu[0]"; Do "header['exptime'] = exptime" ] ].

Definition dark_notebook : notebook :=
  [ (* imports *)
    [ Do "import os"; Do "import shutil"; Do "import glob";
      Do "import matplotlib.pyplot"; Do "import numpy";
      Do "import astroquery.mast"; Do "import drizzlepac.astrodrizzle";
      Do "import astropy.io"; Do "import astropy.table"; Do "import astropy";
      Do "import matplotlib.colors"; Do "import photutils"; Do "import photutils" ];
    (* the two archive queries and downloads *)
    [ Do "Observations.query_criteria";
      Do "science_list['obsid']"; Do "Observations.download_products" ];
    [ Do "Observations.query_criteria";
      Do "darks_list['obsid']"; Do "Observations.download_products" ];
    (* housekeeping *)
    [ For [ For housekeeping_row ]; Do "shutil.rmtree" ];
    [ Do "glob.glob"; Do "glob.glob"; Do "glob.glob" ];
    [ Do "drk_list[0]"; With "fits.open" [ Do "hdulist.info" ] ];
    [ Do "Table" ];
    (* the table of exposures *)
    [ For [ Do "fits.getval"; Do "fits.getval"; Do "fits.getval";
            Do "fits.getval"; Do "fits.getval";
            Do "date + 'T'"; Do "+ time";
            Do "t1 + t2"; Do "/ 2";
            Do "flt_table.add_row" ];
      Do "print" ];
    [ Do "flt_table.sort"; Do "print" ];
    (* driz_kwargs = {...} *)
    [ ];
    [ For [ Do "fits.getheader"; Do "['asn_id']"; Do "adriz" ] ];
    [ Do "np.s_[650:850,580:780]" ];
    (* box sums *)
    [ Do "print"; For box_sum_row; Do "print"; Do "print"; For box_sum_row ];
    dark_cell;
    dark_cell;
    [ Do "adriz" ];
    [ Do "fits.getdata"; Do "fits.getdata"; Do "plt.subplots";
      Do "ax[0]"; Do "set_title"; Do "ax[1]"; Do "set_title";
      Do "LogNorm";
      Do "ax[0]"; Do "imshow"; Do "ax[1]"; Do "imshow" ];
    [ Do "0.5 * np.pi"; Do "EllipticalAperture" ];
    [ Do "plt.subplots";
      Do "ax[0]"; Do "set_title"; Do "ax[1]"; Do "set_title";
      Do "ax[0]"; Do "imshow"; Do "ax[1]"; Do "imshow";
      Do "ax[0]"; Do "aper.plot"; Do "ax[1]"; Do "aper.plot" ];
    [ Do "aperture_photometry"; Do "aperture_photometry";
      Do "f165lp_phot['aperture_sum']"; Do "masterdark_phot['aperture_sum']";
      Do "aperture_sum - aperture_sum";
      Do "print"; Do "print"; Do "print"; Do "print"; Do "print"; Do "print";
      Do "print"; Do "print" ] ].

End Flow.

(** ** Python floats

    A Python [float] is an IEEE 754 binary64 number: [spec_float] with 53
    bits of precision and exponents up to 1024, rounding to nearest even. *)

Module Float64.

Definition prec : Z := 53.
Definition emax : Z := 1024.

Definition t := spec_float.

Definition add : t -> t -> t := SFadd prec emax.
Definition div : t -> t -> t := SFdiv prec emax.
Definition leb : t -> t -> bool := SFleb.
Definition ltb : t -> t -> bool := SFltb.
Definition eqb : t -> t -> bool := SFeqb.

(** The binary64 numbers among the values of [spec_float]. *)
Definition valid (x : t) : bool := valid_binary prec emax x.

Definition is_nan (x : t) : bool :=
  match x with S754_nan => true | _ => false end.

Definition is_finite (x : t) : bool :=
  match x with S754_zero _ | S754_finite _ _ _ => true | _ => false end.

(** The float [2.0], to which Python converts the integer literal [2]. *)
Definition two : t := S754_finite false 4503599627370496 (-51).

(** The largest finite binary64 number, about 1.7977e308. *)
Definition max_float : t := S754_finite false 9007199254740991 971.

Definition infinity : t := S754_infinity false.

(** The value of a finite float in units of [2^-1074], the smallest
    positive binary64 number. *)
Definition scaled (x : t) : Z :=
  match x with
  | S754_finite s m e => cond_Zopp s (Zpos m * 2 ^ (e + 1074))
  | _ => 0
  end%Z.

(** The float nearest to [m * 2^e]. *)
Definition of_dyadic (m e : Z) : t := binary_normalize prec emax m e false.

End Float64.

(** ** Rounding to 53 bits

    What the proofs about binary64 arithmetic speak of. *)

Module Rounding.

Local Open Scope Z_scope.

(** The second half of [binary_round_aux]: a mantissa that has grown to
    [2^53] is halved, and an exponent that is too large gives infinity. *)
Definition pack (s : bool) (m E : Z) : spec_float :=
  let '(mrs, e) := shr_fexp 53 1024 m E loc_Exact in
  match shr_m mrs with
  | Z0 => S754_zero s
  | Zpos p => if e <=? 1024 - 53 then S754_finite s p e else S754_infinity s
  | Zneg _ => S754_nan
  end.

(** A mantissa [q] fits the exponent [E]. *)
Definition canon (q E : Z) : Prop :=
  (q = 0 /\ E = -1074) \/ (0 < q /\ fexp 53 1024 (Zdigits2 q + E) = E).

(** [R] is [S] rounded to 53 bits, one way or the other. *)
Definition rounded (S R : Z) : Prop :=
  let g := 2 ^ Z.max (Zdigits2 (Z.abs S) - 53) 0 in
  exists d, (d = 0 \/ d = 1) /\ (Z.abs S mod g = 0 -> d = 0) /\
            R = Z.sgn S * ((Z.abs S / g + d) * g).

(** The scaled values of floats are the integers with at most 53
    significant bits. *)
Definition repr (V : Z) : Prop :=
  Z.abs V mod 2 ^ Z.max (Zdigits2 (Z.abs V) - 53) 0 = 0.

End Rounding.

(** ** Strings and paths *)

Module Str.

Definition ascii_upper (c : ascii) : ascii :=
  let n := Ascii.nat_of_ascii c in
  if (97 <=? n) && (n <=? 122) then Ascii.ascii_of_nat (n - 32) else c.

(** [str.upper()] on ASCII text; header keywords are matched this way. *)
Fixpoint upper (s : string) : string :=
  match s with
  | EmptyString => EmptyString
  | String c r => String (ascii_upper c) (upper r)
  end.

Fixpoint starts_with (pre s : string) : bool :=
  match pre, s with
  | EmptyString, _ => true
  | String a pre', String b s' => Ascii.eqb a b && starts_with pre' s'
  | String _ _, EmptyString => false
  end.

Fixpoint ends_with (suf s : string) : bool :=
  String.eqb suf s ||
  match s with
  | EmptyString => false
  | String _ r => ends_with suf r
  end.

(** [s.split('/')]: the components between slashes, at least one. *)
Fixpoint split_slash (s : string) : list string :=
  match s with
  | EmptyString => [EmptyString]
  | String c r =>
      if Ascii.eqb c "/"%char then EmptyString :: split_slash r
      else match split_slash r with
           | [] => [String c EmptyString]
           | x :: xs => String c x :: xs
           end
  end.

Fixpoint no_slash (s : string) : bool :=
  match s with
  | EmptyString => true
  | String c r => negb (Ascii.eqb c "/"%char) && no_slash r
  end.

(** [os.path.basename]: what follows the last slash. *)
Definition basename (p : string) : string :=
  List.last (split_slash p) EmptyString.

(** Reading a path component by component; the components read so far
    are kept latest first.  Empty components and [.] change nothing,
    [..] drops the latest component, stays at the root of an absolute
    path, and is kept where there is nothing to drop. *)
Definition push (stack : list string) (c : string) : list string :=
  if String.eqb c "" || String.eqb c "." then stack
  else if String.eqb c ".." then
    match stack with
    | [] => [c]
    | top :: rest =>
        if String.eqb top ".." then c :: stack
        else if String.eqb top "/" then stack
        else rest
    end
  else c :: stack.

(** The place a path names, as [os.path.normpath] has it: the list of
    its components from the working directory, or from the root, named
    [/], when the path is absolute.  Symbolic links are not modelled. *)
Definition resolve (p : string) : list string :=
  List.rev (List.fold_left push (split_slash p) (if starts_with "/" p then ["/"] else [])).

End Str.

(** ** FITS files

    A file is a list of header-data units; a header is a list of cards
    whose keywords are stored in upper case, and is read and written
    through keys of any case, as [astropy.io.fits] does. *)

Module Fits.

(** The values of the header cards these notebooks read: character
    strings (FILTER1, DATE-OBS, TIME-OBS) and floating-point numbers
    (MDECODT1, MDECODT2, EXPTIME).  Integer and logical cards, which none
    of these keywords are, are left out. *)
Inductive hval :=
| HStr (s : string)
| HFloat (f : Float64.t).

Definition header := list (string * hval).

Fixpoint hlookup (k : string) (h : header) : option hval :=
  match h with
  | [] => None
  | (k', v) :: h' => if String.eqb k k' then Some v else hlookup k h'
  end.

(** [header[key]] *)
Definition header_get (h : header) (key : string) : result hval :=
  match hlookup (Str.upper key) h with
  | Some v => Ok v
  | None => Raise (KeyError key)
  end.

Fixpoint hupdate (k : string) (v : hval) (h : header) : header :=
  match h with
  | [] => [(k, v)]
  | (k', v') :: h' =>
      if String.eqb k k' then (k, v) :: h' else (k', v') :: hupdate k v h'
  end.

(** [header[key] = v]: the first card of that keyword gets the value, a
    new card is appended when there is none. *)
Definition header_set (h : header) (key : string) (v : hval) : header :=
  hupdate (Str.upper key) v h.

(** A two-dimensional array, row by row. *)
Abbreviation image pix := (list (list pix)) (only parsing).

Section Images.
Context {pix : Type}.

Definition nrows (a : image pix) : nat := length a.
Definition ncols (a : image pix) : nat := length (List.hd [] a).

Definition pixel (a : image pix) (i j : nat) : option pix :=
  match a !! i with
  | Some row => row !! j
  | None => None
  end.

(** Every row has the length of the first one. *)
Definition rect (a : image pix) : bool :=
  forallb (fun row => length row =? ncols a) a.

Record hdu := Hdu { hdr : header; data : option (image pix) }.

(** [hdulist[i]] *)
Definition ext (f : list hdu) (i : nat) : result hdu :=
  match f !! i with
  | Some h => Ok h
  | None => Raise IndexError
  end.

Definition hdu_data (h : hdu) : result (image pix) :=
  match data h with
  | Some d => Ok d
  | None => Raise IndexError
  end.

(** [fits.getdata] on an open file: the data of the extension asked for;
    without one, the primary data, or those of extension 1 when the
    primary unit has none. *)
Definition getdata_of (f : list hdu) (e : option nat) : result (image pix) :=
  match e with
  | Some i => let! h := ext f i in hdu_data h
  | None =>
      let! h0 := ext f 0 in
      match data h0 with
      | Some d => Ok d
      | None => let! h1 := ext f 1 in hdu_data h1
      end
  end.

(** [fits.getval] on an open file. *)
Definition getval_of (f : list hdu) (key : string) (e : nat) : result hval :=
  let! h := ext f e in header_get (hdr h) key.

(** *** Broadcasting, as numpy does it for two-dimensional arrays *)

Definition stretch {A} (n : nat) (l : list A) : option (list A) :=
  if length l =? n then Some l
  else match l with
       | [x] => Some (replicate n x)
       | _ => None
       end.

Definition broadcast_to (r c : nat) (a : image pix) : result (image pix) :=
  match stretch r a with
  | None => Raise ValueError
  | Some rows =>
      match mapM (stretch c) rows with
      | Some a' => Ok a'
      | None => Raise ValueError
      end
  end.

Definition bdim (n m : nat) : option nat :=
  if n =? m then Some n
  else if n =? 1 then Some m
  else if m =? 1 then Some n
  else None.

(** [a * b] (or any elementwise binary operator): a fresh array. *)
Definition elementwise (op : pix -> pix -> pix) (a b : image pix) : result (image pix) :=
  match bdim (nrows a) (nrows b), bdim (ncols a) (ncols b) with
  | Some r, Some c =>
      let! a' := broadcast_to r c a in
      let! b' := broadcast_to r c b in
      Ok (zip_with (zip_with op) a' b')
  | _, _ => Raise ValueError
  end.

(** [dest[:,:] = src]: the values of [src], broadcast to the shape of
    [dest] and cast to its element type. *)
Definition assign_all (cast : pix -> pix) (dest src : image pix) : result (image pix) :=
  let! src' := broadcast_to (nrows dest) (ncols dest) src in
  Ok (List.map (List.map cast) src').

End Images.

Arguments hdu : clear implicits.

Abbreviation hdulist pix := (list (hdu pix)) (only parsing).

End Fits.
Export Fits.

(** ** Cells with state

    A cell acts on a state (the disk, a table) and either returns or
    raises; what it did before raising stays done. *)

Module St.

Definition M (S A : Type) := S -> result A * S.

Definition ret {S A} (a : A) : M S A := fun s => (Ok a, s).

Definition bind {S A B} (m : M S A) (k : A -> M S B) : M S B :=
  fun s =>
    match m s with
    | (Ok a, s') => k a s'
    | (Raise e, s') => (Raise e, s')
    end.

(** A call that reads but does not write the state. *)
Definition lift {S A} (r : result A) : M S A := fun s => (r, s).

(** A call that replaces the state, or raises and leaves it. *)
Definition update {S} (f : S -> result S) : M S unit :=
  fun s =>
    match f s with
    | Ok s' => (Ok tt, s')
    | Raise e => (Raise e, s)
    end.

(** [for x in xs: body(x)] *)
Fixpoint for_each {S X} (body : X -> M S unit) (xs : list X) : M S unit :=
  match xs with
  | [] => ret tt
  | x :: xs' => bind (body x) (fun _ => for_each body xs')
  end.

End St.

Notation "'do!' x ':=' m 'in' k" := (St.bind m (fun x => k))
  (at level 10, x name, m at level 100, k at level 200).
Notation "'do!' '_' ':=' m 'in' k" := (St.bind m (fun _ => k))
  (at level 10, m at level 100, k at level 200).

(** ** The working directory

    Regular files by path, and the directories that exist.  Paths are
    relative to the working directory, whose path is [[]]. *)

Module Fs.

Section Disk.
Context {pix : Type}.

Record t := Disk {
  files : gmap (list string) (hdulist pix);
  dirs : gset (list string)
}.

Definition is_dir (d : t) (p : list string) : bool :=
  bool_decide (p = []) || bool_decide (p ∈ dirs d).

(** Opening a file for reading. *)
Definition open (d : t) (name : string) : result (hdulist pix) :=
  if is_dir d (Str.resolve name) then Raise (IsADirectoryError name)
  else match files d !! Str.resolve name with
       | Some f => Ok f
       | None => Raise (FileNotFoundError name)
       end.

(** [os.rename(src, dst)] for a regular file [src] (POSIX): an existing
    file [dst] is replaced silently; a directory [dst] is refused.
    Download tables list regular files; renaming a directory is not
    modelled. *)
Definition rename (src dst : string) (d : t) : result t :=
  match files d !! Str.resolve src with
  | None => Raise (FileNotFoundError src)
  | Some f =>
      if is_dir d (Str.resolve dst) then Raise (IsADirectoryError dst)
      else Ok (Disk (<[Str.resolve dst := f]> (delete (Str.resolve src) (files d)))
                    (dirs d))
  end.

Definition under (root p : list string) : bool :=
  bool_decide (root `prefix_of` p).

(** [shutil.rmtree(name)]: the directory and everything below it.  A
    regular file of that name is refused. *)
Definition rmtree (name : string) (d : t) : result t :=
  let root := Str.resolve name in
  if bool_decide (root ∈ dirs d) then
    Ok (Disk (filter (fun kv => under root kv.1 = false) (files d))
             (filter (fun p => under root p = false) (dirs d)))
  else match files d !! root with
       | Some _ => Raise (NotADirectoryError name)
       | None => Raise (FileNotFoundError name)
       end.

(** [os.system('cp src dst')] for two plain file names: the exit status
    is dropped and no exception is raised whatever happens.  A regular
    file [src] is copied onto [dst], or into it under its own name when
    [dst] is a directory; when [src] is missing or the target is a
    directory nothing is copied. *)
Definition cp (src dst : string) (d : t) : t :=
  match files d !! Str.resolve src with
  | Some f =>
      let target :=
        if is_dir d (Str.resolve dst)
        then Str.resolve dst ++ [Str.basename src]
        else Str.resolve dst in
      if is_dir d target then d
      else Disk (<[target := f]> (files d)) (dirs d)
  | None => d
  end.

(** [with fits.open(name, mode='update') as hdu: body]: the units are
    changed in memory and written back when the block is left, also when
    it is left by an exception. *)
Definition with_update (name : string) (body : St.M (hdulist pix) unit)
  : St.M t unit :=
  fun d =>
    match open d name with
    | Raise e => (Raise e, d)
    | Ok f =>
        let '(r, f') := body f in
        (r, Disk (<[Str.resolve name := f']> (files d)) (dirs d))
    end.

(** The entries of the working directory, in the order the system lists
    them. *)
Definition listdir (d : t) : list string :=
  omap (fun p => match p with [n] => Some n | _ => None end)
       (elements (dom (files d) ∪ dirs d)).

(** [glob.glob('*' + suffix)]: the entries whose name ends with the
    suffix, hidden ones left out. *)
Definition glob_suffix (suffix : string) (d : t) : list string :=
  List.filter (fun n => negb (Str.starts_with "." n) && Str.ends_with suffix n)
              (listdir d).

(** [fits.getval(name, key, ext=e)] and [fits.getdata(name[, ext=e])] *)
Definition getval (d : t) (name key : string) (e : nat) : result hval :=
  let! f := open d name in getval_of f key e.

Definition getdata (d : t) (name : string) (e : option nat) : result (image pix) :=
  let! f := open d name in getdata_of f e.

(** The paths of a disk are lists of proper names: no slash inside a
    name, and no name that is empty or [.]. *)
Definition proper_name (c : string) : Prop :=
  Str.no_slash c = true /\ c <> "" /\ c <> ".".

Definition wf (d : t) : Prop :=
  forall p, p ∈ dom (files d) ∪ dirs d -> Forall proper_name p.

End Disk.

Arguments t : clear implicits.

End Fs.

(** ** Python operators on header values *)

Module PyOp.

(** [a + b]: concatenation of two strings, binary64 addition of two
    floats, TypeError otherwise. *)
Definition add (a b : hval) : result hval :=
  match a, b with
  | HStr x, HStr y => Ok (HStr (x +:+ y))
  | HFloat x, HFloat y => Ok (HFloat (Float64.add x y))
  | _, _ => Raise TypeError
  end.

(** [a / 2]: the integer 2 becomes the float 2.0; a string cannot be
    divided. *)
Definition div2 (a : hval) : result hval :=
  match a with
  | HFloat x => Ok (HFloat (Float64.div x Float64.two))
  | HStr _ => Raise TypeError
  end.

End PyOp.

(** ** acs_sbc_dark_analysis: the table of exposures *)

Module Dark.

(** [(t1 + t2) / 2] on two floats. *)
Definition avg (t1 t2 : Float64.t) : Float64.t :=
  Float64.div (Float64.add t1 t2) Float64.two.

(** [starttime = date + 'T' + time] *)
Definition starttime_of (date time : hval) : result hval :=
  let! date_T := PyOp.add date (HStr "T") in
  PyOp.add date_T time.

(** [avgtemp = (t1+t2) / 2] *)
Definition avgtemp_of (t1 t2 : hval) : result hval :=
  let! sum := PyOp.add t1 t2 in
  PyOp.div2 sum.

(** A row of [flt_table]; its columns are declared with the types
    S64, S19, S6, f8, f8, f8. *)
Record row := Row {
  file : string;
  start : string;
  filter1 : string;
  mdecodt1 : Float64.t;
  mdecodt2 : Float64.t;
  avgtemp : Float64.t
}.

Definition table := list row.

(** The order numpy sorts floats in: [a] goes before [b] when [a < b],
    and any number goes before a NaN. *)
Definition key_lt (a b : Float64.t) : bool :=
  Float64.ltb a b || (Float64.is_nan b && negb (Float64.is_nan a)).

(** A row goes behind the rows that sort strictly before it, and in
    front of all others. *)
Fixpoint insert_row (r : row) (t : table) : table :=
  match t with
  | [] => [r]
  | r' :: t' =>
      if key_lt (avgtemp r') (avgtemp r) then r' :: insert_row r t' else r :: t
  end.

(** Two rows are in order when the second does not sort strictly before
    the first. *)
Definition in_order (r1 r2 : row) : Prop :=
  key_lt (avgtemp r2) (avgtemp r1) = false.


(** The average of a row is a binary64 number, not an infinity or a
    NaN. *)
Definition finite_avgtemp (r : row) : Prop :=
  Float64.valid (avgtemp r) = true /\ Float64.is_finite (avgtemp r) = true.

(** [flt_table.sort('avgtemp')]: the rows are reordered as wholes by the
    sorting permutation of that column; rows that do not sort before
    one another stay in the order they had. *)
Definition sort_avgtemp (t : table) : table :=
  List.fold_right insert_row [] t.

(** What [put_dark] may change in a file: the data of unit 1 and the
    EXPTIME card of the primary header. *)
Definition only_dark_changed {pix} (sci upd : hdulist pix) : Prop :=
  length upd = length sci /\
  (forall i, i <> 1 -> data <$> upd !! i = data <$> sci !! i) /\
  (forall i, i <> 0 -> hdr <$> upd !! i = hdr <$> sci !! i) /\
  (forall key, Str.upper key <> "EXPTIME" ->
     (fun h => header_get (hdr h) key) <$> upd !! 0 =
     (fun h => header_get (hdr h) key) <$> sci !! 0).

Section Cells.
Context {pix : Type}.

(** What the table library stores in a column of [n]-byte strings for a
    given Python value. *)
Variable to_S : nat -> hval -> string.

(** A Python float is stored in an f8 column as it is.  A string never
    reaches one here: the average is computed first, and raises. *)
Definition to_f8 (v : hval) : result Float64.t :=
  match v with
  | HFloat f => Ok f
  | HStr _ => Raise ValueError
  end.

(** A column of [n]-byte strings takes a Python string; a float is
    refused. *)
Definition to_str (n : nat) (v : hval) : result string :=
  match v with
  | HStr _ => Ok (to_S n v)
  | HFloat _ => Raise ValueError
  end.

(** [flt_table.add_row((file, starttime, filt, t1, t2, avgtemp))]: the
    values are converted to the types of the columns, and the row is
    added when all of them can be. *)
Definition add_row (file : string) (starttime filt t1 t2 avgtemp : hval)
  : St.M table unit :=
  do! c1 := St.lift (to_str 64 (HStr file)) in
  do! c2 := St.lift (to_str 19 starttime) in
  do! c3 := St.lift (to_str 6 filt) in
  do! c4 := St.lift (to_f8 t1) in
  do! c5 := St.lift (to_f8 t2) in
  do! c6 := St.lift (to_f8 avgtemp) in
  fun tbl =>
    (Ok tt,
     tbl ++ [Row c1 c2 c3 c4 c5 c6]).

(** The body of [for file in flt_list]. *)
Definition table_row (disk : Fs.t pix) (file : string) : St.M table unit :=
  do! filt := St.lift (Fs.getval disk file "FILTER1" 0) in
  do! date := St.lift (Fs.getval disk file "DATE-OBS" 0) in
  do! time := St.lift (Fs.getval disk file "TIME-OBS" 0) in
  do! t1 := St.lift (Fs.getval disk file "MDECODT1" 1) in
  do! t2 := St.lift (Fs.getval disk file "MDECODT2" 1) in
  do! starttime := St.lift (starttime_of date time) in
  do! avgtemp := St.lift (avgtemp_of t1 t2) in
  add_row file starttime filt t1 t2 avgtemp.

Definition table_loop (disk : Fs.t pix) (flt_list : list string) : St.M table unit :=
  St.for_each (table_row disk) flt_list.

(** [flt_list = glob.glob('*_flt.fits')], then the empty table, then the
    loop. *)
Definition flt_list (disk : Fs.t pix) : list string :=
  Fs.glob_suffix "_flt.fits" disk.

(** The two other lists of that cell, [glob.glob('*_asn.fits')] and
    [glob.glob('*_raw.fits')]. *)
Definition asn_list (disk : Fs.t pix) : list string :=
  Fs.glob_suffix "_asn.fits" disk.

Definition drk_list (disk : Fs.t pix) : list string :=
  Fs.glob_suffix "_raw.fits" disk.

(** [with fits.open(drk_list[0]) as hdulist: hdulist.info()]; of what
    [info] prints for a unit, the dimensions of its data, the length of
    a row (NAXIS1) first. *)
Definition info (f : hdulist pix) : list (option (nat * nat)) :=
  (fun h => (fun a => (ncols a, nrows a)) <$> data h) <$> f.

Definition info_cell (disk : Fs.t pix) : result (list (option (nat * nat))) :=
  let! name := match drk_list disk with
               | [] => Raise IndexError
               | name :: _ => Ok name
               end in
  let! hdulist := Fs.open disk name in
  Ok (info hdulist).

Definition build_table (disk : Fs.t pix) : result unit * table :=
  table_loop disk (flt_list disk) [].

(** The keywords the body of the loop reads, with their units, in the
    order it reads them. *)
Definition reads : list (string * nat) :=
  [("FILTER1", 0); ("DATE-OBS", 0); ("TIME-OBS", 0); ("MDECODT1", 1); ("MDECODT2", 1)].

(** The row that belongs to a file: its name, the two observation
    keywords of the primary header joined by T, the filter, the two
    temperatures of extension 1 and their average. *)
Definition row_of (disk : Fs.t pix) (file : string) (r : row) : Prop :=
  exists filt date time t1 t2,
    Fs.getval disk file "FILTER1" 0 = Ok (HStr filt) /\
    Fs.getval disk file "DATE-OBS" 0 = Ok (HStr date) /\
    Fs.getval disk file "TIME-OBS" 0 = Ok (HStr time) /\
    Fs.getval disk file "MDECODT1" 1 = Ok (HFloat t1) /\
    Fs.getval disk file "MDECODT2" 1 = Ok (HFloat t2) /\
    r = Row (to_S 64 (HStr file)) (to_S 19 (HStr (date +:+ "T" +:+ time)))
            (to_S 6 (HStr filt)) t1 t2 (avg t1 t2).

(** What makes the body of the loop raise [e] for a file: the first of
    its reads that fails raises [e]; or the five values are read, and
    [e] is the TypeError of [date + 'T' + time] or of [(t1+t2) / 2], or
    the ValueError of [add_row] for a filter that is not a string. *)
Definition row_raises (disk : Fs.t pix) (file : string) (e : exn) : Prop :=
  (exists pre k post,
     reads = pre ++ k :: post /\
     Forall (fun k' => is_ok (Fs.getval disk file k'.1 k'.2) = true) pre /\
     Fs.getval disk file k.1 k.2 = Raise e) \/
  (exists filt date time t1 t2,
     Fs.getval disk file "FILTER1" 0 = Ok filt /\
     Fs.getval disk file "DATE-OBS" 0 = Ok date /\
     Fs.getval disk file "TIME-OBS" 0 = Ok time /\
     Fs.getval disk file "MDECODT1" 1 = Ok t1 /\
     Fs.getval disk file "MDECODT2" 1 = Ok t2 /\
     (starttime_of date time = Raise e \/
      (is_ok (starttime_of date time) = true /\ avgtemp_of t1 t2 = Raise e) \/
      (is_ok (starttime_of date time) = true /\ is_ok (avgtemp_of t1 t2) = true /\
       to_str 6 filt = Raise e))).

(** *** Dark data in a copy of a science file *)

(** How numpy converts an element to the element type of the science
    array it is assigned into. *)
Variable cast : pix -> pix.

(** The body of the [with] block:
    [hdu[1].data[:,:] = darkdat] and [hdu[0].header['exptime'] = exptime]. *)
Definition put_dark (darkdat : image pix) (exptime : hval)
  : St.M (hdulist pix) unit :=
  do! h1 := (fun f => (ext f 1, f)) in
  do! d := St.lift (match data h1 with
                    | Some d => Ok d
                    | None => Raise TypeError
                    end) in
  do! d' := St.lift (assign_all cast d darkdat) in
  do! _ := (fun f => (Ok tt, <[1 := Hdu (hdr h1) (Some d')]> f)) in
  do! h0 := (fun f => (ext f 0, f)) in
  fun f => (Ok tt, <[0 := Hdu (header_set (hdr h0) "exptime" exptime) (data h0)]> f).

Definition dark_cell (flt_file drk_file new_file : string) : St.M (Fs.t pix) unit :=
  do! _ := (fun d => (Ok tt, Fs.cp flt_file new_file d)) in
  do! darkdat := (fun d => (Fs.getdata d drk_file None, d)) in
  do! exptime := (fun d => (Fs.getval d drk_file "exptime" 0, d)) in
  Fs.with_update new_file (put_dark darkdat exptime).

Definition dark1_cell : St.M (Fs.t pix) unit :=
  dark_cell "jcmc11ctq_flt.fits" "jcrx01iiq_raw.fits" "dark1.fits".

Definition dark2_cell : St.M (Fs.t pix) unit :=
  dark_cell "jcmc11e6q_flt.fits" "jcrx01iyq_raw.fits" "dark2.fits".

(** What the cell leaves behind when it succeeds on a disk where the
    science file is [sci]. *)
Definition dark_cell_post (disk disk' : Fs.t pix) (flt_file drk_file new_file : string)
    (sci : hdulist pix) : Prop :=
  exists upd darkdat exptime d1 d1',
    Fs.getdata disk drk_file None = Ok darkdat /\
    Fs.getval disk drk_file "exptime" 0 = Ok exptime /\
    Fs.files disk' !! Str.resolve new_file = Some upd /\
    only_dark_changed sci upd /\
    getdata_of sci (Some 1) = Ok d1 /\
    assign_all cast d1 darkdat = Ok d1' /\
    Fs.getdata disk' new_file (Some 1) = Ok d1' /\
    Fs.getval disk' new_file "exptime" 0 = Ok exptime /\
    Fs.files disk' !! Str.resolve flt_file = Some sci /\
    Fs.files disk' !! Str.resolve drk_file = Fs.files disk !! Str.resolve drk_file /\
    (forall q, q <> Str.resolve new_file -> Fs.files disk' !! q = Fs.files disk !! q) /\
    Fs.dirs disk' = Fs.dirs disk.

(** *** Box sums *)

(** [l[lo:hi]]: out-of-range bounds are clipped. *)
Definition slice {A} (lo hi : nat) (l : list A) : list A :=
  take (hi - lo) (drop lo l).

(** [image[cutter]] with [cutter = np.s_[650:850,580:780]] *)
Definition cut (a : image pix) : image pix :=
  List.map (slice 580 780) (slice 650 850 a).

(** What [np.sum] returns for an array. *)
Variable np_sum : image pix -> pix.

(** One of the two loops that print [name --> sum]; the state is what
    has been printed. *)
Definition box_sums (disk : Fs.t pix) (files : list string)
  : St.M (list (string * pix)) unit :=
  St.for_each
    (fun file =>
       do! image := St.lift (Fs.getdata disk file None) in
       let img_slice := cut image in
       let neatname := Str.basename file in
       fun out => (Ok tt, out ++ [(neatname, np_sum img_slice)]))
    files.

(** The line printed for a file whose image is [img], and what it takes
    to print it. *)
Definition line (file : string) (img : image pix) : string * pix :=
  (Str.basename file, np_sum (cut img)).

Definition readable (disk : Fs.t pix) (file : string) (img : image pix) : Prop :=
  Fs.getdata disk file None = Ok img.

Definition sci_list : list string := ["jcmc11ctq_flt.fits"; "jcmc11e6q_flt.fits"].

(** The cell with the two loops, first over [sci_list], then over
    [drk_list]; the headings it prints between them are left out. *)
Definition box_sums_cell (disk : Fs.t pix) : St.M (list (string * pix)) unit :=
  do! _ := box_sums disk sci_list in
  box_sums disk (drk_list disk).

End Cells.

End Dark.

(** ** acs_pixel_area_maps: applying the pixel area map *)

Module Pam.

Section Cells.
Context {pix : Type}.

(** The product of two array elements, as numpy computes it. *)
Variable pmul : pix -> pix -> pix.

(** Arrays are objects: variables and figure panels refer to them by
    their location in the interpreter's heap.  A figure is referred to
    by its index, a panel by the index of its figure and its own. *)
Record panel := Panel { title : string; shown : option nat }.

Record figure := Figure { suptitle : string; panels : list panel }.

Record state := State {
  arrays : list (image pix);
  figures : list figure
}.

(** A call that returns a fresh array. *)
Definition alloc (r : result (image pix)) : St.M state nat :=
  fun s =>
    match r with
    | Ok a => (Ok (length (arrays s)), State (arrays s ++ [a]) (figures s))
    | Raise e => (Raise e, s)
    end.

Definition deref (l : nat) : St.M state (image pix) :=
  fun s =>
    match arrays s !! l with
    | Some a => (Ok a, s)
    | None => (Raise (NameError "array"), s)
    end.

(** [x * y] on two arrays: both are read, the product is a new array. *)
Definition multiply (x y : nat) : St.M state nat :=
  do! a := deref x in
  do! b := deref y in
  alloc (elementwise pmul a b).

(** [plt.figure(...)] *)
Definition plt_figure : St.M state nat :=
  fun s => (Ok (length (figures s)), State (arrays s) (figures s ++ [Figure "" []])).

(** [fig.suptitle(t, ...)] *)
Definition fig_suptitle (fig : nat) (t : string) : St.M state unit :=
  fun s =>
    match figures s !! fig with
    | Some g => (Ok tt, State (arrays s) (<[fig := Figure t (panels g)]> (figures s)))
    | None => (Raise ValueError, s)
    end.

(** [fig.add_subplot(1, 3, k, ...)]: a new panel, empty so far. *)
Definition add_subplot (fig : nat) : St.M state (nat * nat) :=
  fun s =>
    match figures s !! fig with
    | Some g =>
        (Ok (fig, length (panels g)),
         State (arrays s)
               (<[fig := Figure (suptitle g) (panels g ++ [Panel "" None])]> (figures s)))
    | None => (Raise ValueError, s)
    end.

Definition on_panel (ax : nat * nat) (f : panel -> panel) : St.M state unit :=
  fun s =>
    match figures s !! ax.1 with
    | Some g =>
        match panels g !! ax.2 with
        | Some p =>
            (Ok tt,
             State (arrays s)
                   (<[ax.1 := Figure (suptitle g) (<[ax.2 := f p]> (panels g))]>
                      (figures s)))
        | None => (Raise ValueError, s)
        end
    | None => (Raise ValueError, s)
    end.

(** [ds9_imitate(ax, image)]: the normalisation is computed from the
    array, which is only read, and [ax.imshow] shows the array. *)
Definition ds9_imitate (ax : nat * nat) (image : nat) : St.M state unit :=
  on_panel ax (fun p => Panel (title p) (Some image)).

(** [ax.set_title(t)] *)
Definition set_title (ax : nat * nat) (t : string) : St.M state unit :=
  on_panel ax (fun p => Panel t (shown p)).

(** [plt.subplots_adjust] changes the layout only and is left out. *)
Definition triple_plot_pam (disk : Fs.t pix) (flt_file pam_file figtitle : string)
  : St.M state unit :=
  do! fl_img := alloc (Fs.getdata disk flt_file (Some 1)) in
  do! pam_img := alloc (Fs.getdata disk pam_file None) in
  do! fig := plt_figure in
  do! _ := fig_suptitle fig figtitle in
  do! ax := add_subplot fig in
  do! _ := ds9_imitate ax fl_img in
  do! _ := set_title ax "Raw" in
  do! ax2 := add_subplot fig in
  do! _ := ds9_imitate ax2 pam_img in
  do! _ := set_title ax2 "Pixel Area Map" in
  do! pamd_img := multiply fl_img pam_img in
  do! ax3 := add_subplot fig in
  do! _ := ds9_imitate ax3 pamd_img in
  set_title ax3 "Raw x Pixel Area Map".

End Cells.

End Pam.

(** ** Housekeeping: downloaded files go to the working directory

    A download table is modelled by its column [Local Path]. *)

Module Housekeeping.

Section Cells.
Context {pix : Type}.

(** The body of [for row in dl_table]. *)
Definition move_row (oldfname : string) : St.M (Fs.t pix) unit :=
  let newfname := Str.basename oldfname in
  St.update (Fs.rename oldfname newfname).

Definition move_all (dl_table : list string) : St.M (Fs.t pix) unit :=
  St.for_each move_row dl_table.

(** acs_pixel_area_maps *)
Definition pam_notebook_cell (dl_table : list string) : St.M (Fs.t pix) unit :=
  do! _ := move_all dl_table in
  St.update (Fs.rmtree "mastDownload").

(** acs_sbc_dark_analysis *)
Definition dark_notebook_cell (sci_dl_table drk_dl_table : list string) : St.M (Fs.t pix) unit :=
  do! _ := St.for_each move_all [sci_dl_table; drk_dl_table] in
  St.update (Fs.rmtree "mastDownload/").

End Cells.

(** The directory the archive client downloads into. *)
Definition download_root : list string := ["mastDownload"].

Definition downloaded (p : string) : Prop :=
  Fs.under download_root (Str.resolve p) = true.


(** What housekeeping has done when it succeeds: the file of a row is at
    its basename unless a later row has the same basename; nothing is
    left under the download root; the other files are what they were. *)
Definition moved {pix} (tbl : list string) (disk disk' : Fs.t pix) : Prop :=
  (forall pre p post, tbl = pre ++ p :: post ->
     (forall q, q ∈ post -> Str.basename q <> Str.basename p) ->
     is_Some (Fs.files disk !! Str.resolve p) /\
     Fs.files disk' !! [Str.basename p] = Fs.files disk !! Str.resolve p) /\
  (forall q, Fs.under download_root q = true ->
     Fs.files disk' !! q = None /\ q ∉ Fs.dirs disk') /\
  (forall q, Fs.under download_root q = false ->
     (forall p, p ∈ tbl -> q <> [Str.basename p]) ->
     Fs.files disk' !! q = Fs.files disk !! q).

End Housekeeping.

(** ** What a piece of notebook code depends on

    The world outside the interpreter: the disk, which the archive
    client fills, and how the libraries compute. *)

Module Pieces.

Section World.
Context {pix : Type}.

Record world := World {
  disk : Fs.t pix;
  lib_to_S : nat -> hval -> string;
  lib_cast : pix -> pix;
  lib_mul : pix -> pix -> pix;
  lib_sum : image pix -> pix
}.

Inductive piece :=
| Starttime
| Avgtemp
| TableLoop
| HousekeepingCell
| BoxSums
| DarkCell
| TriplePlot.

(** The values a piece is given in memory. *)
Definition input (pc : piece) : Type :=
  match pc with
  | Starttime | Avgtemp => (hval * hval)%type
  | TableLoop | HousekeepingCell | BoxSums => list string
  | DarkCell | TriplePlot => (string * string * string)%type
  end.

Definition output (pc : piece) : Type :=
  match pc with
  | Starttime | Avgtemp => result hval
  | TableLoop => (result unit * Dark.table)%type
  | HousekeepingCell | DarkCell => (result unit * Fs.t pix)%type
  | BoxSums => (result unit * list (string * pix))%type
  | TriplePlot => (result unit * @Pam.state pix)%type
  end.

Definition run (pc : piece) (w : world) : input pc -> output pc :=
  match pc with
  | Starttime => fun '(date, time) => Dark.starttime_of date time
  | Avgtemp => fun '(t1, t2) => Dark.avgtemp_of t1 t2
  | TableLoop => fun flt_list => Dark.table_loop (lib_to_S w) (disk w) flt_list []
  | HousekeepingCell => fun dl_table => Housekeeping.pam_notebook_cell dl_table (disk w)
  | BoxSums => fun files => Dark.box_sums (lib_sum w) (disk w) files []
  | DarkCell => fun '(flt_file, drk_file, new_file) =>
      Dark.dark_cell (lib_cast w) flt_file drk_file new_file (disk w)
  | TriplePlot => fun '(flt_file, pam_file, figtitle) =>
      Pam.triple_plot_pam (lib_mul w) (disk w) flt_file pam_file figtitle
        (Pam.State [] [])
  end.

(** The result is a function of the values given in memory alone. *)
Definition self_contained (pc : piece) : Prop :=
  forall (w1 w2 : world) (i : input pc), run pc w1 i = run pc w2 i.

End World.

Arguments world : clear implicits.

Section Worlds.
Context {pix : Type}.

(** Some pixel value, to have worlds to compare. *)
Variable p0 : pix.

Definition world0 (d : Fs.t pix) : world pix :=
  World d (fun _ _ => "") (fun x => x) (fun x _ => x) (fun _ => p0).

Definition disk_empty : Fs.t pix := Fs.Disk ∅ ∅.

Definition disk_one : Fs.t pix :=
  Fs.Disk
    (<[["a_flt.fits"] :=
         [ Hdu [("FILTER1", HStr "F165LP"); ("DATE-OBS", HStr "2015-05-07");
                ("TIME-OBS", HStr "11:43:07"); ("EXPTIME", HFloat Float64.two)]
               None;
           Hdu [("MDECODT1", HFloat Float64.two); ("MDECODT2", HFloat Float64.two)]
               (Some [[p0]]) ]]>
       (<[["mastDownload"; "a_flt.fits"] := []]> ∅))
    {[ ["mastDownload"] ]}.

End Worlds.

End Pieces.

(** ** A small disk to run the cells on *)

Module Sample.

Definition temp1 : Float64.t := Float64.of_dyadic 43 (-1).
Definition temp2 : Float64.t := Float64.of_dyadic 45 (-1).

Definition flt_file : hdulist Z :=
  [ Hdu [("FILTER1", HStr "F165LP"); ("DATE-OBS", HStr "2015-05-07");
         ("TIME-OBS", HStr "11:43:07"); ("EXPTIME", HFloat (Float64.of_dyadic 700 0))]
        None;
    Hdu [("MDECODT1", HFloat temp1); ("MDECODT2", HFloat temp2)]
        (Some [[1; 2]; [3; 4]]%Z);
    Hdu [("EXTNAME", HStr "ERR")] (Some [[0; 0]; [0; 0]]%Z) ].

Definition raw_file : hdulist Z :=
  [ Hdu [("EXPTIME", HFloat (Float64.of_dyadic 1000 0))] None;
    Hdu [] (Some [[5; 6]; [7; 8]]%Z) ].

Definition pam_file : hdulist Z :=
  [ Hdu [] (Some [[10; 20]; [30; 40]]%Z) ].

(** The disk after the downloads. *)
Definition downloaded : Fs.t Z :=
  Fs.Disk
    (<[["mastDownload"; "HST"; "jcmc11ctq"; "jcmc11ctq_flt.fits"] := flt_file]>
       (<[["mastDownload"; "HST"; "jcrx01iiq"; "jcrx01iiq_raw.fits"] := raw_file]> ∅))
    {[ ["mastDownload"]; ["mastDownload"; "HST"];
       ["mastDownload"; "HST"; "jcmc11ctq"]; ["mastDownload"; "HST"; "jcrx01iiq"] ]}.

Definition dl_table : list string :=
  [ "./mastDownload/HST/jcmc11ctq/jcmc11ctq_flt.fits";
    "./mastDownload/HST/jcrx01iiq/jcrx01iiq_raw.fits" ].

(** The disk after housekeeping, with a pixel area map. *)
Definition working : Fs.t Z :=
  Fs.Disk
    (<[["jcmc11ctq_flt.fits"] := flt_file]>
       (<[["jcrx01iiq_raw.fits"] := raw_file]>
          (<[["wfc2_pam.fits"] := pam_file]> ∅)))
    ∅.

Definition empty : Fs.t Z := Fs.Disk ∅ ∅.

(** The row of the science file. *)
Definition flt_row : Dark.row :=
  Dark.Row "jcmc11ctq_flt.fits" "2015-05-07T11:43:07" "F165LP" temp1 temp2
           (Dark.avg temp1 temp2).

(** Three rows to sort: the second is the coolest, the first the
    warmest. *)
Definition row_at (name : string) (t1 t2 : Float64.t) : Dark.row :=
  Dark.Row name "2015-05-07T11:43:07" "F165LP" t1 t2 (Dark.avg t1 t2).

Definition three_rows : Dark.table :=
  [ row_at "c" (Float64.of_dyadic 51 (-1)) (Float64.of_dyadic 53 (-1));
    row_at "a" temp1 temp1;
    row_at "b" temp1 temp2 ].

(** A download table where two products share a basename, and one that
    lists a file that was not downloaded. *)
Definition clash_disk : Fs.t Z :=
  Fs.Disk
    (<[["mastDownload"; "one"; "x_flt.fits"] := flt_file]>
       (<[["mastDownload"; "two"; "x_flt.fits"] := raw_file]> ∅))
    {[ ["mastDownload"]; ["mastDownload"; "one"]; ["mastDownload"; "two"] ]}.

Definition clash_table : list string :=
  [ "./mastDownload/one/x_flt.fits"; "./mastDownload/two/x_flt.fits" ].

Definition missing_table : list string :=
  [ "./mastDownload/HST/jcmc11ctq/jcmc11ctq_flt.fits";
    "./mastDownload/HST/jcmc11e6q/jcmc11e6q_flt.fits";
    "./mastDownload/HST/jcrx01iiq/jcrx01iiq_raw.fits" ].

(** Rows whose averages are 2, 1, 2 and 1, and a row whose readings are
    the two infinities. *)
Definition tied_rows : Dark.table :=
  [ row_at "a" (Float64.of_dyadic 2 0) (Float64.of_dyadic 2 0);
    row_at "b" (Float64.of_dyadic 1 0) (Float64.of_dyadic 1 0);
    row_at "c" (Float64.of_dyadic 2 0) (Float64.of_dyadic 2 0);
    row_at "d" (Float64.of_dyadic 1 0) (Float64.of_dyadic 1 0) ].


(** A working directory with three exposures, at 26, 21.5 and 22
    degrees. *)
Definition exposure (t1 t2 : Float64.t) : hdulist Z :=
  [ Hdu [("FILTER1", HStr "F165LP"); ("DATE-OBS", HStr "2015-05-07");
         ("TIME-OBS", HStr "11:43:07")]
        None;
    Hdu [("MDECODT1", HFloat t1); ("MDECODT2", HFloat t2)] (Some [[1; 2]; [3; 4]]%Z) ].

Definition exposures : Fs.t Z :=
  Fs.Disk
    (<[["jcmc11ctq_flt.fits"] := exposure (Float64.of_dyadic 51 (-1)) (Float64.of_dyadic 53 (-1))]>
       (<[["jcmc11e6q_flt.fits"] := exposure temp1 temp1]>
          (<[["jcmc11ejq_flt.fits"] := exposure temp1 temp2]> ∅)))
    ∅.

(** A working directory where the second science exposure is missing
    and an older [dark2.fits] is still there. *)
Definition stale : Fs.t Z :=
  Fs.Disk
    (<[["dark2.fits"] := flt_file]> (<[["jcrx01iyq_raw.fits"] := raw_file]> ∅))
    ∅.

(** A working directory whose only exposure has lost its extensions. *)
Definition truncated : Fs.t Z :=
  Fs.Disk
    (<[["jcmc11e6q_flt.fits"] :=
         [ Hdu [("FILTER1", HStr "F165LP"); ("DATE-OBS", HStr "2015-05-07");
                ("TIME-OBS", HStr "11:58:31")]
               None ]]> ∅)
    ∅.

(** A working directory where the pixel area map has three rows and the
    science array two. *)
Definition tall_pam_file : hdulist Z :=
  [ Hdu [] (Some [[10; 20]; [30; 40]; [50; 60]]%Z) ].

Definition mismatched : Fs.t Z :=
  Fs.Disk
    (<[["jcmc11ctq_flt.fits"] := flt_file]> (<[["wfc2_pam.fits"] := tall_pam_file]> ∅))
    ∅.

(** A column of [n]-byte strings that keeps the first [n] characters. *)
Definition to_S (n : nat) (v : hval) : string :=
  match v with
  | HStr s => String.substring 0 n s
  | HFloat _ => ""
  end.

Definition np_sum (a : image Z) : Z :=
  List.fold_right Z.add 0%Z (List.concat a).

Definition world_of (d : Fs.t Z) : Pieces.world Z :=
  Pieces.World d to_S (fun x => x) Z.mul np_sum.

End Sample.

(** * Properties *)

(** ** Names are bound before they are read *)

(** C5 (as the code has it).  Run top to bottom in a fresh kernel, every
    cell of the dark-analysis notebook reads only names bound before; in
    the pixel-area-map notebook the fourth code cell (index 3) reads
    [flt_file], which only the fifth code cell binds, so it raises
    NameError; with that one cell moved after the assignment the notebook
    runs. *)
Theorem pam_notebook_reads_flt_file_before_binding :
  DefUse.run_all DefUse.dark_notebook = None /\
  DefUse.run_all DefUse.pam_notebook = Some (3, NameError "flt_file") /\
  (exists c4 c5 pre post,
      DefUse.pam_notebook = pre ++ c4 :: c5 :: post /\
      length pre = 3 /\
      DefUse.run_all (pre ++ c5 :: c4 :: post) = None).
Proof.
  split; [reflexivity|]. split; [reflexivity|].
  unfold DefUse.pam_notebook.
  eexists _, _, [_; _; _], _. split; [reflexivity|]. split; reflexivity.
Qed.

(** ** Loops that may raise *)

Lemma for_each_cons {S X} (body : X -> St.M S unit) (x : X) (xs : list X) (s : S) :
  St.for_each body (x :: xs) s =
  match body x s with
  | (Ok _, s') => St.for_each body xs s'
  | (Raise e, s') => (Raise e, s')
  end.
Proof. reflexivity. Qed.

Lemma bind_ok {S A B} (m : St.M S A) (a : A) (k : A -> St.M S B) (s s' : S) :
  m s = (Ok a, s') -> St.bind m k s = k a s'.
Proof. intros H. unfold St.bind. now rewrite H. Qed.

Lemma bind_raise {S A B} (m : St.M S A) (e : exn) (k : A -> St.M S B) (s s' : S) :
  m s = (Raise e, s') -> St.bind m k s = (Raise e, s').
Proof. intros H. unfold St.bind. now rewrite H. Qed.

(** ** Listing the working directory *)

Section ListingFacts.
Context {pix : Type}.

Lemma listdir_file (b : string) (d : Fs.t pix) :
  is_Some (Fs.files d !! [b]) -> b ∈ Fs.listdir d.
Proof.
  intros H. unfold Fs.listdir. apply list_elem_of_omap.
  exists [b]. split; [|reflexivity].
  apply elem_of_elements, elem_of_union. left. now apply elem_of_dom.
Qed.

Lemma listdir_spec (n : string) (d : Fs.t pix) :
  n ∈ Fs.listdir d <-> [n] ∈ dom (Fs.files d) \/ [n] ∈ Fs.dirs d.
Proof.
  unfold Fs.listdir. rewrite list_elem_of_omap. split.
  - intros (y & Hy & Hf). apply elem_of_elements, elem_of_union in Hy.
    destruct y as [|a [|? ?]]; try discriminate. now injection Hf as ->.
  - intros H. exists [n]. split; [|reflexivity].
    now apply elem_of_elements, elem_of_union.
Qed.

Lemma listdir_inv (n : string) (d : Fs.t pix) :
  n ∈ Fs.listdir d -> [n] ∈ dom (Fs.files d) ∪ Fs.dirs d.
Proof. rewrite listdir_spec, elem_of_union. tauto. Qed.

Lemma glob_suffix_spec (suffix n : string) (d : Fs.t pix) :
  n ∈ Fs.glob_suffix suffix d <->
  n ∈ Fs.listdir d /\ Str.starts_with "." n = false /\ Str.ends_with suffix n = true.
Proof.
  unfold Fs.glob_suffix.
  rewrite list_elem_of_In, filter_In, <- list_elem_of_In.
  rewrite andb_true_iff, negb_true_iff. tauto.
Qed.

Lemma NoDup_omap_inj {A B} (f : A -> option B) (l : list A) :
  (forall x y z, f x = Some z -> f y = Some z -> x = y) ->
  NoDup l -> NoDup (omap f l).
Proof.
  intros Hinj. induction 1 as [|x l Hx Hl IH]; simpl; [constructor|].
  destruct (f x) as [z|] eqn:E; [|exact IH].
  apply NoDup_cons. split; [|exact IH].
  intros Hin. apply list_elem_of_omap in Hin as (y & Hy & Ey).
  assert (x = y) by (eapply Hinj; eauto). subst. contradiction.
Qed.

Lemma listdir_NoDup (d : Fs.t pix) : NoDup (Fs.listdir d).
Proof.
  unfold Fs.listdir. apply NoDup_omap_inj; [|apply NoDup_elements].
  intros [|a [|? ?]] [|b [|? ?]] z; try discriminate. congruence.
Qed.

Lemma glob_suffix_NoDup (suffix : string) (d : Fs.t pix) : NoDup (Fs.glob_suffix suffix d).
Proof.
  unfold Fs.glob_suffix. apply NoDup_ListNoDup, List.NoDup_filter, NoDup_ListNoDup, listdir_NoDup.
Qed.

End ListingFacts.

(** ** The table of exposures *)

Section TableFacts.
Context {pix : Type}.
Variable to_S : nat -> hval -> string.

Lemma string_app_assoc (a b c : string) : (a +:+ b) +:+ c = a +:+ (b +:+ c).
Proof.
  induction a as [|x a IH]; [reflexivity|].
  change (String x ((a +:+ b) +:+ c) = String x (a +:+ (b +:+ c))).
  now rewrite IH.
Qed.

Lemma table_row_ok (disk : Fs.t pix) (file : string) (tbl tbl' : Dark.table) :
  Dark.table_row to_S disk file tbl = (Ok tt, tbl') <->
  exists r, Dark.row_of to_S disk file r /\ tbl' = tbl ++ [r].
Proof.
  unfold Dark.table_row, Dark.row_of, Dark.add_row, Dark.to_str, St.bind, St.lift,
    Dark.starttime_of, Dark.avgtemp_of.
  destruct (Fs.getval disk file "FILTER1" 0) as [filt|] eqn:E1;
    [|split; [discriminate | intros (r & (? & ? & ? & ? & ? & H & _) & _); discriminate]].
  destruct (Fs.getval disk file "DATE-OBS" 0) as [date|] eqn:E2;
    [|split; [discriminate | intros (r & (? & ? & ? & ? & ? & _ & H & _) & _); discriminate]].
  destruct (Fs.getval disk file "TIME-OBS" 0) as [time|] eqn:E3;
    [|split; [discriminate | intros (r & (? & ? & ? & ? & ? & _ & _ & H & _) & _); discriminate]].
  destruct (Fs.getval disk file "MDECODT1" 1) as [t1|] eqn:E4;
    [|split; [discriminate | intros (r & (? & ? & ? & ? & ? & _ & _ & _ & H & _) & _); discriminate]].
  destruct (Fs.getval disk file "MDECODT2" 1) as [t2|] eqn:E5;
    [|split; [discriminate | intros (r & (? & ? & ? & ? & ? & _ & _ & _ & _ & H & _) & _); discriminate]].
  destruct date as [date|fd]; simpl;
    [|split; [discriminate | intros (r & (? & ? & ? & ? & ? & _ & H & _) & _); discriminate]].
  destruct time as [time|ft]; simpl;
    [|split; [discriminate | intros (r & (? & ? & ? & ? & ? & _ & _ & H & _) & _); discriminate]].
  destruct t1 as [s1|t1], t2 as [s2|t2]; simpl;
    try (split; [discriminate
                | intros (r & (? & ? & ? & ? & ? & _ & _ & _ & H4 & H5 & _) & _); discriminate]).
  destruct filt as [filt|ff]; simpl;
    [|split; [discriminate | intros (r & (? & ? & ? & ? & ? & H & _) & _); discriminate]].
  rewrite string_app_assoc.
  split.
  - intros H. injection H as <-. eexists. split; [|reflexivity].
    eexists _, _, _, _, _. repeat split; reflexivity.
  - intros (r & (filt' & date' & time' & t1' & t2' & H1 & H2 & H3 & H4 & H5 & ->) & ->).
    injection H1 as <-. injection H2 as <-. injection H3 as <-.
    injection H4 as <-. injection H5 as <-. reflexivity.
Qed.

Lemma table_loop_ok (disk : Fs.t pix) (files : list string) (tbl tbl' : Dark.table) :
  Dark.table_loop to_S disk files tbl = (Ok tt, tbl') <->
  exists rows, Forall2 (Dark.row_of to_S disk) files rows /\ tbl' = tbl ++ rows.
Proof.
  unfold Dark.table_loop.
  revert tbl. induction files as [|f files IH]; intros tbl.
  - simpl. unfold St.ret. split.
    + intros H. injection H as <-. exists []. split; [constructor | now rewrite app_nil_r].
    + intros (rows & HF & ->). inversion HF. now rewrite app_nil_r.
  - rewrite for_each_cons.
    destruct (Dark.table_row to_S disk f tbl) as [[[]|e] tbl1] eqn:E.
    + apply table_row_ok in E as (r & Hr & ->).
      rewrite IH. split.
      * intros (rows & HF & ->). exists (r :: rows).
        split; [now constructor | now rewrite <- app_assoc].
      * intros (rows & HF & ->). inversion HF as [|? r' ? rows' Hr' HF']; subst.
        assert (r' = r) as ->.
        { destruct Hr as (? & ? & ? & ? & ? & A1 & A2 & A3 & A4 & A5 & ->).
          destruct Hr' as (? & ? & ? & ? & ? & B1 & B2 & B3 & B4 & B5 & ->).
          congruence. }
        exists rows'. split; [assumption | now rewrite <- app_assoc].
    + split; [discriminate|].
      intros (rows & HF & ->). inversion HF as [|? r ? rows' Hr HF']; subst.
      assert (Dark.table_row to_S disk f tbl = (Ok tt, tbl ++ [r])) as E'.
      { apply table_row_ok. eauto. }
      congruence.
Qed.

(** C1.  The table built from the files that match [*_flt.fits] has
    exactly one row per matched file, in the order of the list, and the
    row of a file holds its name, DATE-OBS and TIME-OBS of the primary
    header joined by T, FILTER1 of the primary header, and MDECODT1 and
    MDECODT2 of extension 1 (with their average).  The loop completes
    exactly when every matched file has these keywords, the three of
    the primary header as strings and the two temperatures as floats.
    The matched files are the entries of the working directory, files
    or directories, whose name ends in [_flt.fits] and does not begin
    with a dot, each listed once. *)
Theorem table_has_one_row_per_flt_file (disk : Fs.t pix) (tbl : Dark.table) :
  (Dark.build_table to_S disk = (Ok tt, tbl) <->
   Forall2 (Dark.row_of to_S disk) (Dark.flt_list disk) tbl) /\
  (Forall2 (Dark.row_of to_S disk) (Dark.flt_list disk) tbl ->
   length tbl = length (Dark.flt_list disk)) /\
  NoDup (Dark.flt_list disk) /\
  (forall n, n ∈ Dark.flt_list disk <->
     ([n] ∈ dom (Fs.files disk) \/ [n] ∈ Fs.dirs disk) /\
     Str.ends_with "_flt.fits" n = true /\
     Str.starts_with "." n = false).
Proof.
  split; [|split; [|split]].
  - unfold Dark.build_table. rewrite table_loop_ok. simpl. split.
    + intros (rows & HF & ->). exact HF.
    + intros HF. eauto.
  - intros HF. symmetry. exact (Forall2_length _ _ _ HF).
  - apply glob_suffix_NoDup.
  - intros n. unfold Dark.flt_list.
    rewrite glob_suffix_spec, listdir_spec. tauto.
Qed.

End TableFacts.

(** ** Sorting by average temperature *)

Lemma SFcompare_antisym (a b : Float64.t) :
  SFcompare b a = option_map CompOpp (SFcompare a b).
Proof.
  destruct a as [sa|sa| |sa ma ea], b as [sb|sb| |sb mb eb]; simpl;
    try reflexivity;
    try (destruct sa; reflexivity); try (destruct sb; reflexivity);
    try (destruct sa, sb; reflexivity).
  destruct sa, sb; try reflexivity;
    rewrite (Z.compare_antisym ea eb);
    destruct (ea ?= eb)%Z; simpl; try reflexivity;
    rewrite (Pos.compare_cont_antisym ma mb Eq); simpl;
    destruct (Pos.compare_cont Eq ma mb); reflexivity.
Qed.

Lemma not_key_lt_leb (a b : Float64.t) :
  Float64.is_nan a = false -> Float64.is_nan b = false ->
  Dark.key_lt b a = false -> Float64.leb a b = true.
Proof.
  unfold Dark.key_lt, Float64.leb, Float64.ltb, SFleb, SFltb.
  intros Ha Hb. rewrite Ha, andb_false_l, orb_false_r.
  rewrite (SFcompare_antisym a b).
  destruct (SFcompare a b) as [[]|] eqn:E; simpl; try congruence.
  destruct a, b; try discriminate; simpl in E; repeat case_match; discriminate.
Qed.

Lemma insert_row_perm (r : Dark.row) (t : Dark.table) :
  Permutation (Dark.insert_row r t) (r :: t).
Proof.
  induction t as [|r' t IH]; simpl; [reflexivity|].
  destruct (Dark.key_lt _ _); [|reflexivity].
  rewrite IH. apply perm_swap.
Qed.

Lemma key_lt_asym (a b : Float64.t) :
  Dark.key_lt a b = true -> Dark.key_lt b a = false.
Proof.
  unfold Dark.key_lt, Float64.ltb, SFltb.
  rewrite (SFcompare_antisym a b).
  destruct (SFcompare a b) as [[]|] eqn:E; simpl; try congruence;
    destruct a, b; simpl; try discriminate; try reflexivity;
    simpl in E; repeat case_match; discriminate.
Qed.

Lemma key_lt_irrefl (a : Float64.t) : Dark.key_lt a a = false.
Proof.
  destruct (Dark.key_lt a a) eqn:E; [|reflexivity].
  pose proof (key_lt_asym _ _ E). congruence.
Qed.

Lemma insert_row_hd (r0 r : Dark.row) (t : Dark.table) :
  Dark.in_order r0 r -> HdRel Dark.in_order r0 t -> HdRel Dark.in_order r0 (Dark.insert_row r t).
Proof.
  intros H0 Ht. destruct t as [|r' t]; simpl; [now constructor|].
  destruct (Dark.key_lt _ _); constructor; [|assumption].
  now inversion Ht.
Qed.

Lemma insert_row_sorted (r : Dark.row) (t : Dark.table) :
  Sorted Dark.in_order t -> Sorted Dark.in_order (Dark.insert_row r t).
Proof.
  induction t as [|r' t IH]; simpl; intros Hs.
  - repeat constructor.
  - destruct (Dark.key_lt (Dark.avgtemp r') (Dark.avgtemp r)) eqn:E.
    + inversion Hs as [|? ? Hs' Hhd]; subst.
      constructor; [now apply IH|].
      apply insert_row_hd; [|assumption]. now apply key_lt_asym.
    + constructor; [assumption|]. constructor. exact E.
Qed.

Lemma sort_avgtemp_sorted (t : Dark.table) : Sorted Dark.in_order (Dark.sort_avgtemp t).
Proof.
  induction t as [|r t IH]; simpl; [constructor | now apply insert_row_sorted].
Qed.

Lemma sort_avgtemp_perm (t : Dark.table) : Permutation (Dark.sort_avgtemp t) t.
Proof.
  induction t as [|r t IH]; simpl; [reflexivity|].
  rewrite insert_row_perm. now constructor.
Qed.




Lemma Sorted_weaken {A} (R1 R2 : A -> A -> Prop) (P : A -> Prop) (l : list A) :
  (forall x y, P x -> P y -> R1 x y -> R2 x y) ->
  Forall P l -> Sorted R1 l -> Sorted R2 l.
Proof.
  intros HR HP Hs. induction Hs as [|x l Hs IH Hhd]; [constructor|].
  inversion HP as [|? ? Px Pl]; subst.
  constructor; [now apply IH|].
  destruct Hhd as [|y l Hxy]; constructor.
  inversion Pl; subst. now apply HR.
Qed.




(** ** The corrected image *)

Section PamFacts.
Context {pix : Type}.
Variable pmul : pix -> pix -> pix.

Lemma stretch_same {A} (n : nat) (l : list A) : length l = n -> stretch n l = Some l.
Proof. intros <-. unfold stretch. now rewrite Nat.eqb_refl. Qed.

Lemma mapM_stretch_same (c : nat) (a : image pix) :
  forallb (fun row => length row =? c) a = true -> mapM (stretch c) a = Some a.
Proof.
  induction a as [|row a IH]; simpl; [reflexivity|].
  intros H. apply andb_true_iff in H as [H1 H2]. apply Nat.eqb_eq in H1.
  rewrite (stretch_same c row H1). simpl. rewrite (IH H2). reflexivity.
Qed.

Lemma broadcast_to_same (a : image pix) :
  rect a = true -> broadcast_to (nrows a) (ncols a) a = Ok a.
Proof.
  intros H. unfold broadcast_to, nrows.
  rewrite stretch_same by reflexivity.
  now rewrite mapM_stretch_same.
Qed.

Lemma bdim_same (n : nat) : bdim n n = Some n.
Proof. unfold bdim. now rewrite Nat.eqb_refl. Qed.

Lemma elementwise_same_shape (a b : image pix) :
  rect a = true -> rect b = true ->
  nrows a = nrows b -> ncols a = ncols b ->
  elementwise pmul a b = Ok (zip_with (zip_with pmul) a b).
Proof.
  intros Ra Rb Hr Hc. unfold elementwise.
  rewrite <- Hr, <- Hc, !bdim_same.
  rewrite (broadcast_to_same a Ra). simpl.
  rewrite Hr, Hc, (broadcast_to_same b Rb). reflexivity.
Qed.

Lemma pixel_zip_with (a b : image pix) (i j : nat) :
  pixel (zip_with (zip_with pmul) a b) i j =
  match pixel a i j, pixel b i j with
  | Some x, Some y => Some (pmul x y)
  | _, _ => None
  end.
Proof.
  unfold pixel. rewrite lookup_zip_with.
  destruct (a !! i) as [ra|]; simpl; [|reflexivity].
  destruct (b !! i) as [rb|]; simpl.
  - rewrite lookup_zip_with.
    destruct (ra !! j); simpl; [|reflexivity].
    destruct (rb !! j); reflexivity.
  - destruct (ra !! j); reflexivity.
Qed.

Lemma alloc_ok (a : image pix) (s : Pam.state) :
  Pam.alloc (Ok a) s =
  (Ok (length (Pam.arrays s)), Pam.State (Pam.arrays s ++ [a]) (Pam.figures s)).
Proof. reflexivity. Qed.

Lemma snoc_lookup {A} (l : list A) (x : A) : (l ++ [x]) !! length l = Some x.
Proof. induction l as [|y l IH]; [reflexivity | exact IH]. Qed.

Lemma snoc_insert {A} (l : list A) (x y : A) : <[length l := y]> (l ++ [x]) = l ++ [y].
Proof. induction l as [|z l IH]; [reflexivity | simpl; now rewrite IH]. Qed.

Lemma fig_suptitle_ok (t t0 : string) (arrs : list (image pix))
    (figs : list Pam.figure) (ps : list Pam.panel) :
  Pam.fig_suptitle (length figs) t (Pam.State arrs (figs ++ [Pam.Figure t0 ps])) =
  (Ok tt, Pam.State arrs (figs ++ [Pam.Figure t ps])).
Proof.
  unfold Pam.fig_suptitle. cbn [Pam.figures Pam.arrays].
  now rewrite snoc_lookup, snoc_insert.
Qed.

Lemma add_subplot_ok (t : string) (arrs : list (image pix))
    (figs : list Pam.figure) (ps : list Pam.panel) :
  Pam.add_subplot (length figs) (Pam.State arrs (figs ++ [Pam.Figure t ps])) =
  (Ok (length figs, length ps),
   Pam.State arrs (figs ++ [Pam.Figure t (ps ++ [Pam.Panel "" None])])).
Proof.
  unfold Pam.add_subplot. cbn [Pam.figures Pam.arrays].
  now rewrite snoc_lookup, snoc_insert.
Qed.

Lemma on_panel_ok (f : Pam.panel -> Pam.panel) (t : string) (arrs : list (image pix))
    (figs : list Pam.figure) (ps : list Pam.panel) (p : Pam.panel) :
  Pam.on_panel (length figs, length ps) f
    (Pam.State arrs (figs ++ [Pam.Figure t (ps ++ [p])])) =
  (Ok tt, Pam.State arrs (figs ++ [Pam.Figure t (ps ++ [f p])])).
Proof.
  unfold Pam.on_panel. cbn [Pam.figures Pam.arrays fst snd].
  rewrite snoc_lookup. cbn [Pam.panels Pam.suptitle].
  now rewrite snoc_lookup, !snoc_insert.
Qed.

Lemma deref_ok (l : nat) (a : image pix) (s : Pam.state) :
  Pam.arrays s !! l = Some a -> Pam.deref l s = (Ok a, s).
Proof. intros H. unfold Pam.deref. now rewrite H. Qed.

Lemma snoc_lookup2 {A} (l : list A) (x y : A) :
  ((l ++ [x]) ++ [y]) !! length l = Some x.
Proof. induction l as [|z l IH]; [reflexivity | exact IH]. Qed.

Lemma multiply_ok (x y : nat) (a b c : image pix) (s : Pam.state) :
  Pam.arrays s !! x = Some a -> Pam.arrays s !! y = Some b ->
  elementwise pmul a b = Ok c ->
  Pam.multiply pmul x y s =
  (Ok (length (Pam.arrays s)), Pam.State (Pam.arrays s ++ [c]) (Pam.figures s)).
Proof.
  intros Hx Hy Hc. unfold Pam.multiply.
  rewrite (bind_ok _ _ _ _ _ (deref_ok _ _ _ Hx)).
  rewrite (bind_ok _ _ _ _ _ (deref_ok _ _ _ Hy)).
  rewrite Hc. reflexivity.
Qed.

(** C3.  For a science array [a] (extension 1 of the FLT file) and a
    pixel area map [b] (the array of the PAM file, whatever produced it)
    of the same shape, [triple_plot_pam] returns, and the array of its
    third panel is a new array whose every pixel is the product of the
    pixels of [a] and [b] at that place; the arrays that were there
    before, and [a] and [b] themselves, are what they were. *)
Theorem triple_plot_pam_multiplies_elementwise
    (disk : Fs.t pix) (flt_file pam_file figtitle : string)
    (a b : image pix) (s : Pam.state) :
  Fs.getdata disk flt_file (Some 1) = Ok a ->
  Fs.getdata disk pam_file None = Ok b ->
  rect a = true -> rect b = true ->
  nrows a = nrows b -> ncols a = ncols b ->
  exists c,
    Pam.triple_plot_pam pmul disk flt_file pam_file figtitle s =
      (Ok tt,
       Pam.State (Pam.arrays s ++ [a; b; c])
         (Pam.figures s ++
          [Pam.Figure figtitle
             [Pam.Panel "Raw" (Some (length (Pam.arrays s)));
              Pam.Panel "Pixel Area Map" (Some (S (length (Pam.arrays s))));
              Pam.Panel "Raw x Pixel Area Map"
                (Some (S (S (length (Pam.arrays s)))))]])) /\
    nrows c = nrows a /\
    (forall i j x y,
       pixel a i j = Some x -> pixel b i j = Some y ->
       pixel c i j = Some (pmul x y)) /\
    (forall i j, pixel c i j = None <-> pixel a i j = None).
Proof.
  intros Ha Hb Ra Rb Hr Hc.
  exists (zip_with (zip_with pmul) a b).
  split; [|split; [|split]].
  - destruct s as [arrs figs]. cbn [Pam.arrays Pam.figures].
    unfold Pam.triple_plot_pam, Pam.ds9_imitate, Pam.set_title, Pam.multiply.
    rewrite Ha. rewrite (bind_ok _ _ _ _ _ (alloc_ok _ _)).
    rewrite Hb. rewrite (bind_ok _ _ _ _ _ (alloc_ok _ _)).
    cbn [Pam.arrays Pam.figures].
    erewrite bind_ok by reflexivity. cbn [Pam.arrays Pam.figures].
    rewrite (bind_ok _ _ _ _ _ (fig_suptitle_ok _ _ _ _ _)).
    rewrite (bind_ok _ _ _ _ _ (add_subplot_ok _ _ _ _)).
    rewrite (bind_ok _ _ _ _ _ (on_panel_ok _ _ _ _ [] _)).
    rewrite (bind_ok _ _ _ _ _ (on_panel_ok _ _ _ _ [] _)).
    cbn [Pam.title Pam.shown app].
    rewrite (bind_ok _ _ _ _ _ (add_subplot_ok _ _ _ [_])).
    rewrite (bind_ok _ _ _ _ _ (on_panel_ok _ _ _ _ [_] _)).
    rewrite (bind_ok _ _ _ _ _ (on_panel_ok _ _ _ _ [_] _)).
    cbn [Pam.title Pam.shown app].
    erewrite bind_ok;
      [|apply (multiply_ok _ _ a b);
        [apply snoc_lookup2 | apply snoc_lookup
        | apply elementwise_same_shape; assumption]].
    cbn [Pam.arrays Pam.figures].
    rewrite (bind_ok _ _ _ _ _ (add_subplot_ok _ _ _ [_; _])).
    rewrite (bind_ok _ _ _ _ _ (on_panel_ok _ _ _ _ [_; _] _)).
    rewrite (on_panel_ok _ _ _ _ [_; _] _).
    cbn [Pam.title Pam.shown app].
    rewrite <- !app_assoc, !length_app. cbn [app length].
    replace (length arrs + 1) with (S (length arrs)) by lia.
    replace (length arrs + (1 + 1)) with (S (S (length arrs))) by lia.
    reflexivity.
  - unfold nrows in *. rewrite length_zip_with. lia.
  - intros i j x y Hx Hy. now rewrite pixel_zip_with, Hx, Hy.
  - intros i j. rewrite pixel_zip_with.
    destruct (pixel a i j) as [x|] eqn:Ex; [|tauto].
    destruct (pixel b i j) as [y|] eqn:Ey; [split; discriminate|].
    exfalso. unfold pixel in Ex, Ey.
    destruct (a !! i) as [ra|] eqn:Ea; [|discriminate].
    assert (i < length b) as Hi.
    { apply lookup_lt_Some in Ea. unfold nrows in Hr. lia. }
    apply lookup_lt_is_Some_2 in Hi as [rb Eb]. rewrite Eb in Ey.
    apply lookup_lt_Some in Ex. apply lookup_ge_None in Ey.
    unfold rect in Ra, Rb. rewrite forallb_forall in Ra, Rb.
    assert (length ra = ncols a) as La.
    { apply Nat.eqb_eq, Ra. apply list_elem_of_In. eapply list_elem_of_lookup_2, Ea. }
    assert (length rb = ncols b) as Lb.
    { apply Nat.eqb_eq, Rb. apply list_elem_of_In. eapply list_elem_of_lookup_2, Eb. }
    lia.
Qed.

End PamFacts.

(** ** Dark data in a copy of a science file *)

Section DarkCellFacts.
Context {pix : Type}.
Variable cast : pix -> pix.

Lemma hlookup_hupdate_ne (k k' : string) (v : hval) (h : header) :
  k <> k' -> hlookup k' (hupdate k v h) = hlookup k' h.
Proof.
  intros Hne. induction h as [|[k0 v0] h IH]; simpl.
  - destruct (String.eqb_spec k' k); congruence.
  - destruct (String.eqb_spec k k0) as [->|]; simpl.
    + destruct (String.eqb_spec k' k0); congruence.
    + destruct (String.eqb_spec k' k0); [reflexivity | exact IH].
Qed.

Lemma hlookup_hupdate_eq (k : string) (v : hval) (h : header) :
  hlookup k (hupdate k v h) = Some v.
Proof.
  induction h as [|[k0 v0] h IH]; simpl.
  - now rewrite String.eqb_refl.
  - destruct (String.eqb_spec k k0) as [->|Hne]; simpl.
    + now rewrite String.eqb_refl.
    + destruct (String.eqb_spec k k0); [contradiction | exact IH].
Qed.

Lemma header_get_set_ne (h : header) (key key' : string) (v : hval) :
  Str.upper key <> Str.upper key' ->
  header_get (header_set h key v) key' = header_get h key'.
Proof.
  intros Hne. unfold header_get, header_set.
  now rewrite hlookup_hupdate_ne.
Qed.

Lemma header_get_set_eq (h : header) (key : string) (v : hval) :
  header_get (header_set h key v) key = Ok v.
Proof. unfold header_get, header_set. now rewrite hlookup_hupdate_eq. Qed.

Lemma put_dark_ok (darkdat : image pix) (exptime : hval) (f f' : hdulist pix) :
  Dark.put_dark cast darkdat exptime f = (Ok tt, f') ->
  exists h0 h1 d1 d1',
    f !! 0 = Some h0 /\ f !! 1 = Some h1 /\ data h1 = Some d1 /\
    assign_all cast d1 darkdat = Ok d1' /\
    f' = <[0 := Hdu (header_set (hdr h0) "exptime" exptime) (data h0)]>
           (<[1 := Hdu (hdr h1) (Some d1')]> f).
Proof.
  unfold Dark.put_dark, St.bind, St.lift, ext.
  destruct (f !! 1) as [h1|] eqn:E1; [|discriminate].
  destruct (data h1) as [d1|] eqn:Ed; [|discriminate].
  destruct (assign_all cast d1 darkdat) as [d1'|] eqn:Ea; [|discriminate].
  rewrite list_lookup_insert_ne by discriminate.
  destruct (f !! 0) as [h0|] eqn:E0; [|discriminate].
  intros H. injection H as <-.
  exists h0, h1, d1, d1'. repeat split; assumption.
Qed.

Lemma put_dark_frame (f : hdulist pix) (h0 h1 : hdu pix) (d1' : image pix)
    (exptime : hval) :
  f !! 0 = Some h0 -> f !! 1 = Some h1 ->
  Dark.only_dark_changed f
    (<[0 := Hdu (header_set (hdr h0) "exptime" exptime) (data h0)]>
       (<[1 := Hdu (hdr h1) (Some d1')]> f)).
Proof.
  intros E0 E1.
  assert (0 < length f) as L0 by (eapply lookup_lt_Some; eauto).
  assert (1 < length f) as L1 by (eapply lookup_lt_Some; eauto).
  split; [now rewrite !length_insert|].
  split; [|split].
  - intros i Hi. destruct (decide (i = 0)) as [->|Hi0].
    + rewrite list_lookup_insert_eq by (rewrite length_insert; lia).
      now rewrite E0.
    + rewrite !list_lookup_insert_ne by congruence. reflexivity.
  - intros i Hi. rewrite list_lookup_insert_ne by congruence.
    destruct (decide (i = 1)) as [->|Hi1].
    + rewrite list_lookup_insert_eq by lia. now rewrite E1.
    + rewrite list_lookup_insert_ne by congruence. reflexivity.
  - intros key Hk.
    rewrite list_lookup_insert_eq by (rewrite length_insert; lia).
    rewrite E0. simpl. f_equal. apply header_get_set_ne.
    intros Heq. apply Hk. rewrite <- Heq. reflexivity.
Qed.

(** C8.  When the cell that copies a science file and puts dark data in
    the copy succeeds, the copy differs from the science file only in
    the data of unit 1, which are the dark data cast to its element
    type, and in the EXPTIME card of the primary header, which is the
    dark's; every other unit, data array and header value is the science
    file's, and every other file of the disk, the science file and the
    dark file among them, is what it was. *)
Theorem dark_cell_changes_only_sci_data_and_exptime
    (disk disk' : Fs.t pix) (flt_file drk_file new_file : string)
    (sci : hdulist pix) :
  Str.resolve new_file <> Str.resolve flt_file ->
  Str.resolve new_file <> Str.resolve drk_file ->
  Fs.files disk !! Str.resolve flt_file = Some sci ->
  Dark.dark_cell cast flt_file drk_file new_file disk = (Ok tt, disk') ->
  Dark.dark_cell_post cast disk disk' flt_file drk_file new_file sci.
Proof.
  intros Hnf Hnd Hsci. unfold Dark.dark_cell_post, Dark.dark_cell.
  rewrite (bind_ok _ tt _ disk (Fs.cp flt_file new_file disk)) by reflexivity.
  unfold St.bind at 1.
  set (disk1 := Fs.cp flt_file new_file disk).
  destruct (Fs.getdata disk1 drk_file None) as [darkdat|] eqn:Edat; [|discriminate].
  unfold St.bind at 1.
  destruct (Fs.getval disk1 drk_file "exptime" 0) as [exptime|] eqn:Eexp; [|discriminate].
  unfold Fs.with_update, Fs.open.
  assert (Fs.dirs disk1 = Fs.dirs disk) as Hdirs.
  { unfold disk1, Fs.cp. rewrite Hsci. repeat case_match; reflexivity. }
  assert (forall q, Fs.is_dir disk1 q = Fs.is_dir disk q) as Hisdir.
  { intros q. unfold Fs.is_dir. now rewrite Hdirs. }
  rewrite Hisdir.
  destruct (Fs.is_dir disk (Str.resolve new_file)) eqn:Edir; [discriminate|].
  assert (Fs.files disk1 = <[Str.resolve new_file := sci]> (Fs.files disk)) as Hfiles.
  { unfold disk1, Fs.cp. rewrite Hsci. cbv zeta. rewrite Edir, Edir. reflexivity. }
  rewrite Hfiles, Hdirs, lookup_insert_eq.
  destruct (Dark.put_dark cast darkdat exptime sci) as [r upd] eqn:Eput.
  intros H. injection H as -> <-.
  destruct (put_dark_ok _ _ _ _ Eput) as (h0 & h1 & d1 & d1' & E0 & E1 & Ed & Ea & ->).
  cbn [Fs.files Fs.dirs].
  assert (forall (A : Type) (g : hdulist pix -> result A) name,
             Str.resolve name <> Str.resolve new_file ->
             (let! f := Fs.open disk1 name in g f) = (let! f := Fs.open disk name in g f))
    as Hopen.
  { intros A g name Hne. unfold Fs.open. rewrite Hisdir, Hfiles.
    now rewrite lookup_insert_ne by congruence. }
  assert (0 < length sci) as L0 by (eapply lookup_lt_Some; eauto).
  assert (1 < length sci) as L1 by (eapply lookup_lt_Some; eauto).
  eexists _, darkdat, exptime, d1, d1'.
  split. { unfold Fs.getdata in *. rewrite <- Hopen by congruence. exact Edat. }
  split. { unfold Fs.getval in *. rewrite <- Hopen by congruence. exact Eexp. }
  split. { rewrite insert_insert_eq. apply lookup_insert_eq. }
  split. { now apply put_dark_frame. }
  split. { unfold getdata_of, ext, hdu_data. rewrite E1. simpl. now rewrite Ed. }
  split. { exact Ea. }
  split.
  { unfold Fs.getdata, Fs.open. cbn [Fs.files Fs.dirs].
    change (Fs.is_dir _ (Str.resolve new_file)) with (Fs.is_dir disk (Str.resolve new_file)).
    rewrite Edir, lookup_insert_eq. simpl.
    unfold ext. rewrite list_lookup_insert_ne by discriminate.
    rewrite list_lookup_insert_eq by lia. reflexivity. }
  split.
  { unfold Fs.getval, Fs.open. cbn [Fs.files Fs.dirs].
    change (Fs.is_dir _ (Str.resolve new_file)) with (Fs.is_dir disk (Str.resolve new_file)).
    rewrite Edir, lookup_insert_eq. simpl.
    unfold getval_of, ext.
    rewrite list_lookup_insert_eq by (rewrite length_insert; lia). simpl.
    apply header_get_set_eq. }
  split. { rewrite !lookup_insert_ne by congruence. exact Hsci. }
  split. { now rewrite !lookup_insert_ne by congruence. }
  split. { intros q Hq. now rewrite !lookup_insert_ne by congruence. }
  reflexivity.
Qed.

End DarkCellFacts.

(** ** Housekeeping *)

Lemma split_slash_nonempty (s : string) : Str.split_slash s <> [].
Proof.
  destruct s as [|c r]; simpl; [discriminate|].
  destruct (Ascii.eqb c "/"); [discriminate|].
  destruct (Str.split_slash r); discriminate.
Qed.

Lemma split_slash_no_slash (s : string) :
  Forall (fun c => Str.no_slash c = true) (Str.split_slash s).
Proof.
  induction s as [|c r IH]; simpl; [repeat constructor|].
  destruct (Ascii.eqb c "/") eqn:E.
  - constructor; [reflexivity | exact IH].
  - destruct (Str.split_slash r) as [|x xs]; [repeat constructor; simpl; now rewrite E|].
    inversion IH; subst. constructor; [|assumption].
    simpl. rewrite E. assumption.
Qed.

Lemma split_slash_of_no_slash (s : string) :
  Str.no_slash s = true -> Str.split_slash s = [s].
Proof.
  induction s as [|c r IH]; simpl; [reflexivity|].
  intros H. apply andb_true_iff in H as [Hc Hr].
  apply negb_true_iff in Hc. rewrite Hc, (IH Hr). reflexivity.
Qed.

Lemma basename_no_slash (p : string) : Str.no_slash (Str.basename p) = true.
Proof.
  unfold Str.basename.
  pose proof (split_slash_no_slash p) as H.
  induction H as [|x l Hx Hl IH]; [reflexivity|].
  destruct l; [exact Hx | exact IH].
Qed.

Lemma no_slash_not_absolute (s : string) :
  Str.no_slash s = true -> Str.starts_with "/" s = false.
Proof.
  destruct s as [|c r]; [reflexivity|]. cbn [Str.no_slash Str.starts_with]. intros H.
  apply andb_true_iff in H as [Hc _]. apply negb_true_iff in Hc.
  destruct (Ascii.eqb_spec "/" c) as [<-|Hne]; [|reflexivity].
  rewrite Ascii.eqb_refl in Hc. discriminate.
Qed.

Lemma resolve_no_slash (c : string) :
  Str.no_slash c = true ->
  Str.resolve c = if String.eqb c "" || String.eqb c "." then [] else [c].
Proof.
  intros Hc. unfold Str.resolve.
  rewrite (split_slash_of_no_slash _ Hc), (no_slash_not_absolute _ Hc).
  simpl. unfold Str.push.
  destruct (String.eqb c "" || String.eqb c "."); [reflexivity|].
  destruct (String.eqb c ".."); reflexivity.
Qed.

Lemma resolve_basename (p : string) :
  Str.resolve (Str.basename p) = [] \/ Str.resolve (Str.basename p) = [Str.basename p].
Proof.
  rewrite (resolve_no_slash _ (basename_no_slash p)).
  destruct (_ || _); [left | right]; reflexivity.
Qed.

Lemma for_each_app {S X} (body : X -> St.M S unit) (xs ys : list X) (s : S) :
  St.for_each body (xs ++ ys) s =
  St.bind (St.for_each body xs) (fun _ => St.for_each body ys) s.
Proof.
  revert s. induction xs as [|x xs IH]; intros s; [reflexivity|].
  change ((x :: xs) ++ ys) with (x :: (xs ++ ys)).
  rewrite for_each_cons. unfold St.bind. rewrite for_each_cons.
  destruct (body x s) as [[[]|e] s1]; [|reflexivity].
  rewrite IH. reflexivity.
Qed.

(** A loop raises exactly when some iteration does: the iterations
    before it have run, it raises, and nothing runs after it. *)
Lemma for_each_raise {S X} (body : X -> St.M S unit) (xs : list X) (s s' : S) (e : exn) :
  St.for_each body xs s = (Raise e, s') <->
  exists pre x post s0,
    xs = pre ++ x :: post /\
    St.for_each body pre s = (Ok tt, s0) /\
    body x s0 = (Raise e, s').
Proof.
  revert s. induction xs as [|x xs IH]; intros s.
  - simpl. unfold St.ret. split; [discriminate|].
    intros (pre & x & post & s0 & H & _). now destruct pre.
  - rewrite for_each_cons. destruct (body x s) as [[[]|e0] s1] eqn:E.
    + rewrite IH. split.
      * intros (pre & y & post & s0 & -> & Hpre & Hy).
        exists (x :: pre), y, post, s0. split; [reflexivity|].
        split; [|exact Hy]. rewrite for_each_cons, E. exact Hpre.
      * intros (pre & y & post & s0 & Hxs & Hpre & Hy).
        destruct pre as [|x' pre].
        { simpl in *. injection Hxs as -> ->. injection Hpre as <-. congruence. }
        simpl in Hxs. injection Hxs as -> ->.
        rewrite for_each_cons, E in Hpre. eauto 10.
    + split.
      * intros H. injection H as -> ->. exists [], x, xs, s. auto.
      * intros (pre & y & post & s0 & Hxs & Hpre & Hy).
        destruct pre as [|x' pre].
        { simpl in *. injection Hxs as -> ->. injection Hpre as <-. congruence. }
        simpl in Hxs. injection Hxs as -> ->.
        rewrite for_each_cons, E in Hpre. discriminate.
Qed.

Section HousekeepingFacts.
Context {pix : Type}.

Lemma dark_cell_flat (sci drk : list string) (disk : Fs.t pix) :
  Housekeeping.dark_notebook_cell sci drk disk =
  St.bind (Housekeeping.move_all (sci ++ drk))
          (fun _ => St.update (Fs.rmtree "mastDownload/")) disk.
Proof.
  unfold Housekeeping.dark_notebook_cell, St.bind.
  rewrite (for_each_cons Housekeeping.move_all sci [drk] disk).
  unfold Housekeeping.move_all at 1 3.
  rewrite (for_each_app Housekeeping.move_row sci drk disk). unfold St.bind.
  destruct (St.for_each Housekeeping.move_row sci disk) as [[[]|e] d1]; [|reflexivity].
  rewrite (for_each_cons Housekeeping.move_all drk [] d1).
  unfold Housekeeping.move_all.
  destruct (St.for_each Housekeeping.move_row drk d1) as [[[]|e] d2]; reflexivity.
Qed.

Lemma move_row_ok (p : string) (disk disk' : Fs.t pix) :
  Housekeeping.move_row p disk = (Ok tt, disk') ->
  exists f,
    Fs.files disk !! Str.resolve p = Some f /\
    Str.resolve (Str.basename p) = [Str.basename p] /\
    ([Str.basename p] ∉ Fs.dirs disk) /\
    disk' = Fs.Disk (<[[Str.basename p] := f]> (delete (Str.resolve p) (Fs.files disk)))
                    (Fs.dirs disk).
Proof.
  unfold Housekeeping.move_row, St.update, Fs.rename.
  destruct (Fs.files disk !! Str.resolve p) as [f|]; [|discriminate].
  destruct (Fs.is_dir disk _) eqn:Ed; [discriminate|].
  intros H. injection H as <-. exists f.
  unfold Fs.is_dir in Ed. apply orb_false_iff in Ed as [E1 E2].
  apply bool_decide_eq_false in E1, E2.
  destruct (resolve_basename p) as [Hr|Hr]; [contradiction|].
  rewrite Hr in *. auto.
Qed.

Lemma under_root_basename (b : string) (disk : Fs.t pix) :
  Housekeeping.download_root ∈ Fs.dirs disk -> [b] ∉ Fs.dirs disk ->
  Fs.under Housekeeping.download_root [b] = false.
Proof.
  intros Hin Hnot. unfold Fs.under. apply bool_decide_eq_false.
  intros [k Hk]. unfold Housekeeping.download_root in *.
  simpl in Hk. injection Hk as -> Hk. contradiction.
Qed.

Lemma move_all_spec (tbl : list string) (disk disk' : Fs.t pix) :
  Housekeeping.download_root ∈ Fs.dirs disk ->
  Forall Housekeeping.downloaded tbl ->
  Housekeeping.move_all tbl disk = (Ok tt, disk') ->
  Fs.dirs disk' = Fs.dirs disk /\
  (forall q, Fs.under Housekeeping.download_root q = false ->
     (forall p, p ∈ tbl -> q <> [Str.basename p]) ->
     Fs.files disk' !! q = Fs.files disk !! q) /\
  (forall pre p post, tbl = pre ++ p :: post ->
     (forall q, q ∈ post -> Str.basename q <> Str.basename p) ->
     is_Some (Fs.files disk !! Str.resolve p) /\
     Fs.files disk' !! [Str.basename p] = Fs.files disk !! Str.resolve p /\
     Fs.under Housekeeping.download_root [Str.basename p] = false) /\
  (forall q, Fs.under Housekeeping.download_root q = true ->
     Fs.files disk' !! q = None \/ Fs.files disk' !! q = Fs.files disk !! q).
Proof.
  unfold Housekeeping.move_all.
  revert disk. induction tbl as [|p0 tbl IH]; intros disk Hroot Hdl.
  - simpl. unfold St.ret. intros H. injection H as <-.
    split; [reflexivity|]. split; [reflexivity|].
    split; [|auto]. intros pre p post Heq. now destruct pre.
  - rewrite for_each_cons.
    destruct (Housekeeping.move_row p0 disk) as [[[]|e] disk1] eqn:E0; [|discriminate].
    intros Hrest.
    destruct (move_row_ok _ _ _ E0) as (f0 & Hf0 & Hb0 & Hnd0 & ->).
    inversion Hdl as [|? ? Hp0 Hdl']; subst.
    apply IH in Hrest as (Hdirs & Hframe & Hmoved & Hgone);
      [|exact Hroot|exact Hdl'].
    cbn [Fs.files Fs.dirs] in *.
    pose proof (under_root_basename _ _ Hroot Hnd0) as Hub0.
    assert (Str.resolve p0 <> [Str.basename p0]) as Hne0.
    { intros Heq. unfold Housekeeping.downloaded in Hp0. congruence. }
    split; [exact Hdirs|]. split; [|split].
    + intros q Hq Hnb. rewrite Hframe.
      * rewrite lookup_insert_ne, lookup_delete_ne; [reflexivity| |].
        -- intros <-. unfold Housekeeping.downloaded in Hp0. congruence.
        -- intros <-. apply (Hnb p0); [left | reflexivity].
      * exact Hq.
      * intros p Hp. apply Hnb. now right.
    + intros pre p post Heq Hlast. destruct pre as [|p0' pre].
      * simpl in Heq. injection Heq as <- <-.
        split; [eauto|]. split; [|exact Hub0].
        rewrite Hframe; [|exact Hub0|].
        -- now rewrite lookup_insert_eq.
        -- intros q Hq Heq. injection Heq as Heq. symmetry in Heq.
           now apply (Hlast q).
      * simpl in Heq. injection Heq as <- ->.
        destruct (Hmoved pre p post eq_refl Hlast) as (Hsome & Hfin & Hub).
        assert (Housekeeping.downloaded p) as Hp.
        { rewrite Forall_forall in Hdl'. apply Hdl'.
          apply elem_of_app. right. left. }
        assert (Str.resolve p <> [Str.basename p0]) as Hn1.
        { intros Heq. unfold Housekeeping.downloaded in Hp. congruence. }
        rewrite lookup_insert_ne in Hsome, Hfin by congruence.
        destruct (decide (Str.resolve p0 = Str.resolve p)) as [Heq|Hn2].
        { rewrite Heq, lookup_delete_eq in Hsome. now destruct Hsome. }
        rewrite lookup_delete_ne in Hsome, Hfin by assumption.
        auto.
    + intros q Hq. destruct (Hgone q Hq) as [H|H]; [now left|].
      rewrite H. rewrite lookup_insert_ne by congruence.
      destruct (decide (Str.resolve p0 = q)) as [<-|Hn].
      * left. apply lookup_delete_eq.
      * right. now rewrite lookup_delete_ne.
Qed.

Lemma move_all_dirs (tbl : list string) (disk disk' : Fs.t pix) (r : result unit) :
  Housekeeping.move_all tbl disk = (r, disk') -> Fs.dirs disk' = Fs.dirs disk.
Proof.
  unfold Housekeeping.move_all.
  revert disk. induction tbl as [|p tbl IH]; intros disk.
  - simpl. unfold St.ret. intros H. now injection H as <- <-.
  - rewrite for_each_cons.
    destruct (Housekeeping.move_row p disk) as [[[]|e] d1] eqn:E.
    + intros H. rewrite (IH _ H).
      apply move_row_ok in E as (f & _ & _ & _ & ->). reflexivity.
    + intros H. injection H as <- <-.
      unfold Housekeeping.move_row, St.update in E.
      destruct (Fs.rename _ _ _); [discriminate|]. now injection E as _ <-.
Qed.

Lemma rmtree_ok (name : string) (d d' : Fs.t pix) :
  Fs.rmtree name d = Ok d' ->
  Str.resolve name ∈ Fs.dirs d /\
  (forall q, Fs.under (Str.resolve name) q = true ->
     Fs.files d' !! q = None /\ q ∉ Fs.dirs d') /\
  (forall q, Fs.under (Str.resolve name) q = false ->
     Fs.files d' !! q = Fs.files d !! q).
Proof.
  unfold Fs.rmtree. case_bool_decide as Hin; [|destruct (_ !! _); discriminate].
  intros H. injection H as <-. cbn [Fs.files Fs.dirs].
  split; [exact Hin|]. split.
  - intros q Hq. split.
    + apply map_lookup_filter_None. right. intros x _. simpl. congruence.
    + rewrite elem_of_filter. intros [H _]. congruence.
  - intros q Hq. destruct (Fs.files d !! q) as [x|] eqn:E.
    + apply map_lookup_filter_Some. auto.
    + apply map_lookup_filter_None. now left.
Qed.

Lemma cell_ok (root_name : string) (tbl : list string) (disk disk' : Fs.t pix) :
  Str.resolve root_name = Housekeeping.download_root ->
  Forall Housekeeping.downloaded tbl ->
  St.bind (Housekeeping.move_all tbl) (fun _ => St.update (Fs.rmtree root_name)) disk
    = (Ok tt, disk') ->
  Housekeeping.moved tbl disk disk'.
Proof.
  intros Hroot Hdl. unfold Housekeeping.moved, St.bind.
  destruct (Housekeeping.move_all tbl disk) as [[[]|e] d1] eqn:Emove; [|discriminate].
  unfold St.update. destruct (Fs.rmtree root_name d1) as [d2|] eqn:Erm; [|discriminate].
  intros H. injection H as <-.
  apply rmtree_ok in Erm as (Hin & Hgone & Hkeep). rewrite Hroot in *.
  rewrite (move_all_dirs _ _ _ _ Emove) in Hin.
  destruct (move_all_spec _ _ _ Hin Hdl Emove) as (_ & Hframe & Hmoved & _).
  split; [|split].
  - intros pre p post Heq Hlast.
    destruct (Hmoved pre p post Heq Hlast) as (Hsome & Hfin & Hub).
    split; [exact Hsome|]. now rewrite Hkeep.
  - exact Hgone.
  - intros q Hq Hnb. rewrite Hkeep by exact Hq. now apply Hframe.
Qed.


Lemma cell_raise (root_name : string) (tbl : list string) (disk disk' : Fs.t pix)
    (e : exn) :
  St.bind (Housekeeping.move_all tbl) (fun _ => St.update (Fs.rmtree root_name)) disk
    = (Raise e, disk') <->
  (exists pre p post,
      tbl = pre ++ p :: post /\
      Housekeeping.move_all pre disk = (Ok tt, disk') /\
      Fs.rename p (Str.basename p) disk' = Raise e) \/
  (Housekeeping.move_all tbl disk = (Ok tt, disk') /\
   Fs.rmtree root_name disk' = Raise e).
Proof.
  unfold St.bind.
  destruct (Housekeeping.move_all tbl disk) as [[[]|e0] d1] eqn:Emove.
  - unfold St.update. split.
    + destruct (Fs.rmtree root_name d1) eqn:Erm; [discriminate|].
      intros H. injection H as -> ->. right. auto.
    + intros [(pre & p & post & -> & Hpre & Hp)|[H Hrm]].
      * exfalso. unfold Housekeeping.move_all in *.
        rewrite for_each_app in Emove. unfold St.bind in Emove.
        rewrite Hpre, for_each_cons in Emove.
        unfold Housekeeping.move_row at 1, St.update in Emove.
        rewrite Hp in Emove. discriminate.
      * injection H as ->. now rewrite Hrm.
  - unfold Housekeeping.move_all in *. split.
    + intros H. injection H as -> ->.
      apply for_each_raise in Emove as (pre & p & post & d0 & -> & Hpre & Hp).
      left. exists pre, p, post.
      unfold Housekeeping.move_row, St.update in Hp.
      destruct (Fs.rename p (Str.basename p) d0) eqn:Er; [discriminate|].
      injection Hp as -> ->. auto.
    + intros [(pre & p & post & -> & Hpre & Hp)|[H _]]; [|discriminate].
      rewrite for_each_app in Emove. unfold St.bind in Emove.
      rewrite Hpre, for_each_cons in Emove.
      unfold Housekeeping.move_row at 1, St.update in Emove.
      rewrite Hp in Emove. symmetry. exact Emove.
Qed.

End HousekeepingFacts.

(** ** Exceptions reach the user *)

Section FlowFacts.
Context {E : Type}.
Implicit Types (w : Flow.world E) (s : Flow.state E) (m : Flow.M (E := E)).

Lemma propagates_ret w s : Flow.propagates w s Flow.Done s.
Proof.
  split; [reflexivity|]. split; [lia|]. intros k Hk. lia.
Qed.

Lemma propagates_seq w s s1 s2 (out : Flow.outcome E) :
  Flow.propagates w s Flow.Done s1 -> Flow.propagates w s1 out s2 ->
  Flow.propagates w s out s2.
Proof.
  intros (L1 & C1 & R1) (L2 & C2 & R2).
  split; [now transitivity (Flow.log s1)|]. split; [lia|].
  destruct out as [|e].
  - intros k Hk. destruct (Nat.lt_ge_cases k (Flow.calls s1)); [apply R1 | apply R2]; lia.
  - destruct R2 as (k & Hk & Hle & Hf & Hr). exists k.
    split; [exact Hk|]. split; [lia|]. split; [exact Hf|].
    intros j Hj. destruct (Nat.lt_ge_cases j (Flow.calls s1)); [apply R1 | apply Hr]; lia.
Qed.

Lemma faithful_ret w : Flow.faithful w Flow.ret.
Proof. intros s out s' H. injection H as <- <-. apply propagates_ret. Qed.

Lemma faithful_call w (f : string) : Flow.faithful w (Flow.call w f).
Proof.
  intros s out s'. unfold Flow.call.
  destruct (Flow.fails w (Flow.calls s)) as [e|] eqn:Ef; intros H; injection H as <- <-;
    (split; [now apply prefix_app_r|]); (split; [simpl; lia|]); simpl.
  - exists (Flow.calls s). split; [reflexivity|]. split; [lia|]. split; [exact Ef|].
    intros k Hk. lia.
  - intros k Hk. assert (k = Flow.calls s) as -> by lia. exact Ef.
Qed.

Lemma faithful_bind w m1 m2 : Flow.faithful w m1 -> Flow.faithful w m2 -> Flow.faithful w (Flow.bind m1 m2).
Proof.
  intros H1 H2 s out s'. unfold Flow.bind.
  destruct (m1 s) as [[|e] s1] eqn:E1.
  - intros E2. exact (propagates_seq _ _ _ _ _ (H1 _ _ _ E1) (H2 _ _ _ E2)).
  - intros H. injection H as <- <-. exact (H1 _ _ _ E1).
Qed.

Lemma faithful_finally w m (f : string) : Flow.faithful w m -> Flow.faithful w (Flow.finally m f).
Proof.
  intros Hm s out s'. unfold Flow.finally.
  destruct (m s) as [out1 s1] eqn:E1. intros H. injection H as <- <-.
  destruct (Hm _ _ _ E1) as (L & C & R).
  split; [simpl; now apply prefix_app_r|]. split; [exact C|]. exact R.
Qed.

Lemma faithful_repeat w m (n : nat) : Flow.faithful w m -> Flow.faithful w (Flow.repeat n m).
Proof.
  intros Hm. induction n as [|n IH]; simpl; [apply faithful_ret | now apply faithful_bind].
Qed.

Lemma faithful_loop w m : Flow.faithful w m -> Flow.faithful w (Flow.loop w m).
Proof.
  intros Hm s out s'. unfold Flow.loop. intros H.
  exact (faithful_repeat w m _ Hm _ _ _ H).
Qed.

Lemma run_block_faithful w (b : list Flow.code) :
  Forall (fun c => Flow.faithful w (Flow.run w c)) b -> Flow.faithful w (Flow.run_block w b).
Proof.
  induction 1 as [|c b Hc _ IH]; simpl; [apply faithful_ret | now apply faithful_bind].
Qed.

Lemma run_unfold w (c : Flow.code) :
  Flow.run w c =
  match c with
  | Flow.Do f => Flow.call w f
  | Flow.For body => Flow.loop w (Flow.run_block w body)
  | Flow.With enter body =>
      Flow.bind (Flow.call w enter) (Flow.finally (Flow.run_block w body) enter)
  | Flow.Try body handler =>
      Flow.catch (Flow.run_block w body) (Flow.run_block w handler)
  | Flow.Func _ body => Flow.run_block w body
  end.
Proof.
  assert (forall b,
            (fix go (b : list Flow.code) : Flow.M :=
               match b with
               | [] => Flow.ret
               | c :: b' => Flow.bind (Flow.run w c) (go b')
               end) b = Flow.run_block w b) as Hb.
  { induction b as [|c' b IH]; simpl; [reflexivity | now rewrite IH]. }
  destruct c; simpl; rewrite ?Hb; reflexivity.
Qed.

Lemma run_faithful w (c : Flow.code) :
  Flow.handler_free c = true -> Flow.faithful w (Flow.run w c).
Proof.
  revert c. fix IH 1. intros c Hc. rewrite run_unfold.
  assert (forall body, forallb Flow.handler_free body = true ->
            (forall c', List.In c' body -> Flow.handler_free c' = true ->
                        Flow.faithful w (Flow.run w c')) ->
            Flow.faithful w (Flow.run_block w body)) as Hblock.
  { intros body Hfree Hall. apply run_block_faithful, List.Forall_forall.
    intros c' Hin. apply Hall; [exact Hin|].
    rewrite forallb_forall in Hfree. now apply Hfree. }
  destruct c as [f|body|enter body|body handler|name body]; simpl in Hc.
  - apply faithful_call.
  - apply faithful_loop, Hblock; [exact Hc|].
    clear Hc Hblock. induction body as [|x body IHb]; intros c' Hin Hc'; [destruct Hin|].
    destruct Hin as [<-|Hin]; [now apply IH | now apply IHb].
  - apply faithful_bind; [apply faithful_call|]. apply faithful_finally, Hblock; [exact Hc|].
    clear Hc Hblock. induction body as [|x body IHb]; intros c' Hin Hc'; [destruct Hin|].
    destruct Hin as [<-|Hin]; [now apply IH | now apply IHb].
  - discriminate.
  - apply Hblock; [exact Hc|].
    clear Hc Hblock. induction body as [|x body IHb]; intros c' Hin Hc'; [destruct Hin|].
    destruct Hin as [<-|Hin]; [now apply IH | now apply IHb].
Qed.

Lemma cell_faithful w (c : Flow.cell) :
  forallb Flow.handler_free c = true -> Flow.faithful w (Flow.run_block w c).
Proof.
  intros Hfree. apply run_block_faithful, List.Forall_forall. intros c' Hin.
  apply run_faithful. rewrite forallb_forall in Hfree. now apply Hfree.
Qed.

End FlowFacts.

Section ErrorFacts.
Context {pix : Type}.
Variable to_S : nat -> hval -> string.

Lemma reads_split (pre post : list (string * nat)) (k : string * nat) :
  Dark.reads = pre ++ k :: post ->
  (pre = [] /\ k = ("FILTER1", 0)) \/
  (pre = [("FILTER1", 0)] /\ k = ("DATE-OBS", 0)) \/
  (pre = [("FILTER1", 0); ("DATE-OBS", 0)] /\ k = ("TIME-OBS", 0)) \/
  (pre = [("FILTER1", 0); ("DATE-OBS", 0); ("TIME-OBS", 0)] /\ k = ("MDECODT1", 1)) \/
  (pre = [("FILTER1", 0); ("DATE-OBS", 0); ("TIME-OBS", 0); ("MDECODT1", 1)] /\
   k = ("MDECODT2", 1)).
Proof.
  unfold Dark.reads. intros H.
  do 5 (destruct pre as [|? pre]; [injection H as <- <-; auto 10 | injection H as <- H]).
  destruct pre; discriminate.
Qed.

Lemma is_ok_Ok {A} (r : result A) : is_ok r = true -> exists a, r = Ok a.
Proof. destruct r; [eauto | discriminate]. Qed.

Lemma table_row_raise (disk : Fs.t pix) (file : string) (tbl tbl' : Dark.table)
    (e : exn) :
  Dark.table_row to_S disk file tbl = (Raise e, tbl') <->
  tbl' = tbl /\ Dark.row_raises to_S disk file e.
Proof.
  split.
  - unfold Dark.table_row, Dark.row_raises, Dark.add_row, St.bind, St.lift.
    destruct (Fs.getval disk file "FILTER1" 0) as [filt|] eqn:E1.
    2:{ intros H; injection H as <- <-. split; [reflexivity|]. left.
        exists [], ("FILTER1", 0), (List.tl Dark.reads).
        split; [reflexivity|]. split; [constructor | exact E1]. }
    destruct (Fs.getval disk file "DATE-OBS" 0) as [date|] eqn:E2.
    2:{ intros H; injection H as <- <-. split; [reflexivity|]. left.
        exists [("FILTER1", 0)], ("DATE-OBS", 0), (skipn 2 Dark.reads).
        split; [reflexivity|]. split; [|exact E2].
        repeat constructor; simpl; now rewrite ?E1. }
    destruct (Fs.getval disk file "TIME-OBS" 0) as [time|] eqn:E3.
    2:{ intros H; injection H as <- <-. split; [reflexivity|]. left.
        exists [("FILTER1", 0); ("DATE-OBS", 0)], ("TIME-OBS", 0), (skipn 3 Dark.reads).
        split; [reflexivity|]. split; [|exact E3].
        repeat constructor; simpl; now rewrite ?E1, ?E2. }
    destruct (Fs.getval disk file "MDECODT1" 1) as [t1|] eqn:E4.
    2:{ intros H; injection H as <- <-. split; [reflexivity|]. left.
        exists [("FILTER1", 0); ("DATE-OBS", 0); ("TIME-OBS", 0)], ("MDECODT1", 1),
               (skipn 4 Dark.reads).
        split; [reflexivity|]. split; [|exact E4].
        repeat constructor; simpl; now rewrite ?E1, ?E2, ?E3. }
    destruct (Fs.getval disk file "MDECODT2" 1) as [t2|] eqn:E5.
    2:{ intros H; injection H as <- <-. split; [reflexivity|]. left.
        exists [("FILTER1", 0); ("DATE-OBS", 0); ("TIME-OBS", 0); ("MDECODT1", 1)],
               ("MDECODT2", 1), [].
        split; [reflexivity|]. split; [|exact E5].
        repeat constructor; simpl; now rewrite ?E1, ?E2, ?E3, ?E4. }
    intros H.
    assert (tbl' = tbl /\
            (Dark.starttime_of date time = Raise e \/
             (is_ok (Dark.starttime_of date time) = true /\ Dark.avgtemp_of t1 t2 = Raise e) \/
             (is_ok (Dark.starttime_of date time) = true /\
              is_ok (Dark.avgtemp_of t1 t2) = true /\
              Dark.to_str to_S 6 filt = Raise e))) as [-> Hcase].
    { destruct date, time, t1, t2, filt; simpl in H;
        try discriminate; injection H as <- <-; auto 10. }
    split; [reflexivity|]. right. exists filt, date, time, t1, t2. auto 10.
  - intros [-> [(pre & k & post & Hsplit & Hpre & Hk)
               |(filt & date & time & t1 & t2 & E1 & E2 & E3 & E4 & E5 & Hcase)]].
    + unfold Dark.table_row, St.bind, St.lift.
      apply reads_split in Hsplit
        as [[-> ->]|[[-> ->]|[[-> ->]|[[-> ->]|[-> ->]]]]]; simpl in Hk;
        repeat match goal with
               | H : Forall _ (_ :: _) |- _ =>
                   let H1 := fresh in let H2 := fresh in
                   inversion H as [|? ? H1 H2]; subst; clear H;
                   simpl in H1; apply is_ok_Ok in H1 as [? H1]; rewrite H1
               end;
        now rewrite Hk.
    + unfold Dark.table_row, Dark.add_row, St.bind, St.lift.
      rewrite E1, E2, E3, E4, E5.
      destruct Hcase as [H|[[Hs H]|(Hs & Ha & H)]].
      * now rewrite H.
      * apply is_ok_Ok in Hs as [st ->]. now rewrite H.
      * apply is_ok_Ok in Hs as [st Hst]. apply is_ok_Ok in Ha as [av Hav].
        rewrite Hst, Hav.
        destruct date, time; try discriminate. simpl in Hst. injection Hst as <-.
        simpl. now rewrite H.
Qed.

(** C4.  Neither notebook has a [try] statement, so every code cell of
    both hands on what its operations do, whatever they are, archive
    queries and downloads among them: a cell ends well only when every
    operation it started returned, and it ends with an exception only
    when the last operation it started raised that exception, the ones
    before having returned; nothing is run after the failure, nothing is
    tried again, and what had happened before is still there.  On the
    disk: whatever [os.rename] or [shutil.rmtree] raises inside the
    housekeeping cell of either notebook is what the cell raises, the
    files renamed before stay renamed and the removal of the download
    tree is not attempted after a failure; and the loop that builds the
    table raises exactly what the first failing [fits.getval], the
    [+] or [/] applied to a value of the wrong type, or [add_row]
    raises, for the first file where one of them fails, with the rows
    of the files before it in the table. *)
Theorem exceptions_propagate_unchanged
    (tbl sci drk : list string) (disk disk' : Fs.t pix) (e : exn)
    (flt_list : list string) (t t' : Dark.table) :
  forallb (forallb Flow.handler_free) Flow.pam_notebook = true /\
  forallb (forallb Flow.handler_free) Flow.dark_notebook = true /\
  (forall (E : Type) (w : Flow.world E) (nb : Flow.notebook) (c : Flow.cell)
          (s s' : Flow.state E) (out : Flow.outcome E),
     nb = Flow.pam_notebook \/ nb = Flow.dark_notebook -> c ∈ nb ->
     Flow.run_block w c s = (out, s') -> Flow.propagates w s out s') /\
  (Housekeeping.pam_notebook_cell tbl disk = (Raise e, disk') <->
   (exists pre p post,
       tbl = pre ++ p :: post /\
       Housekeeping.move_all pre disk = (Ok tt, disk') /\
       Fs.rename p (Str.basename p) disk' = Raise e) \/
   (Housekeeping.move_all tbl disk = (Ok tt, disk') /\
    Fs.rmtree "mastDownload" disk' = Raise e)) /\
  (Housekeeping.dark_notebook_cell sci drk disk = (Raise e, disk') <->
   (exists pre p post,
       sci ++ drk = pre ++ p :: post /\
       Housekeeping.move_all pre disk = (Ok tt, disk') /\
       Fs.rename p (Str.basename p) disk' = Raise e) \/
   (Housekeeping.move_all (sci ++ drk) disk = (Ok tt, disk') /\
    Fs.rmtree "mastDownload/" disk' = Raise e)) /\
  (Dark.table_loop to_S disk flt_list t = (Raise e, t') <->
   exists pre file post rows,
     flt_list = pre ++ file :: post /\
     Forall2 (Dark.row_of to_S disk) pre rows /\
     t' = t ++ rows /\
     Dark.row_raises to_S disk file e).
Proof.
  split; [reflexivity|]. split; [reflexivity|].
  split.
  { intros E w nb c s s' out Hnb Hc. apply cell_faithful.
    assert (forallb (forallb Flow.handler_free) nb = true) as Hfree
      by (destruct Hnb as [-> | ->]; reflexivity).
    rewrite forallb_forall in Hfree. now apply Hfree, list_elem_of_In. }
  split; [apply cell_raise|].
  split; [rewrite dark_cell_flat; apply cell_raise|].
  unfold Dark.table_loop. rewrite for_each_raise. split.
  - intros (pre & f & post & t0 & -> & Hpre & Hf).
    apply (table_loop_ok to_S) in Hpre as (rows & Hrows & ->).
    apply table_row_raise in Hf as [-> Hr].
    exists pre, f, post, rows. auto.
  - intros (pre & f & post & rows & -> & Hrows & -> & Hf).
    exists pre, f, post, (t ++ rows).
    split; [reflexivity|]. split; [apply (table_loop_ok to_S); eauto|].
    apply table_row_raise. auto.
Qed.

End ErrorFacts.

(** A [try] statement would make the difference: the failure of the
    operation it guards does not reach the user. *)
Example a_handler_swallows :
  let w := Flow.World (fun _ => Some TypeError) (fun _ => 0) in
  Flow.handler_free (Flow.Try [Flow.Do "fits.getval"] []) = false /\
  Flow.run w (Flow.Try [Flow.Do "fits.getval"] []) (Flow.State [] 0 0) =
    (Flow.Done, Flow.State [Flow.Raised "fits.getval" TypeError] 1 0) /\
  ~ Flow.propagates w (Flow.State [] 0 0) Flow.Done
      (Flow.State [Flow.Raised "fits.getval" TypeError] 1 0).
Proof.
  split; [reflexivity|]. split; [reflexivity|].
  intros (_ & _ & H). specialize (H 0 ltac:(simpl; lia)). discriminate.
Qed.

(** ** One step after another *)



(** ** What the pieces depend on *)

Section PieceFacts.
Context {pix : Type}.
Variable p0 : pix.

(** C6 (as the code has it).  Two pieces of the dark-analysis notebook
    are functions of the values they are given in memory: the timestamp
    [date + 'T' + time] and the average [(t1+t2) / 2].  The loop that
    builds the table, the housekeeping cell, the box sums, the cell that
    puts dark data in a copy, and [triple_plot_pam] are not: each gives
    different results on different disks. *)
Theorem only_timestamp_and_average_are_self_contained :
  @Pieces.self_contained pix Pieces.Starttime /\
  @Pieces.self_contained pix Pieces.Avgtemp /\
  ~ @Pieces.self_contained pix Pieces.TableLoop /\
  ~ @Pieces.self_contained pix Pieces.HousekeepingCell /\
  ~ @Pieces.self_contained pix Pieces.BoxSums /\
  ~ @Pieces.self_contained pix Pieces.DarkCell /\
  ~ @Pieces.self_contained pix Pieces.TriplePlot.
Proof.
  split; [intros w1 w2 [date time]; reflexivity|].
  split; [intros w1 w2 [t1 t2]; reflexivity|].
  split.
  { intros H. specialize (H (Pieces.world0 p0 Pieces.disk_empty) (Pieces.world0 p0 (Pieces.disk_one p0)) ["a_flt.fits"]).
    vm_compute in H. discriminate. }
  split.
  { intros H.
    specialize (H (Pieces.world0 p0 Pieces.disk_empty) (Pieces.world0 p0 (Pieces.disk_one p0)) ["mastDownload/a_flt.fits"]).
    vm_compute in H. discriminate. }
  split.
  { intros H. specialize (H (Pieces.world0 p0 Pieces.disk_empty) (Pieces.world0 p0 (Pieces.disk_one p0)) ["a_flt.fits"]).
    vm_compute in H. discriminate. }
  split.
  { intros H.
    specialize (H (Pieces.world0 p0 Pieces.disk_empty) (Pieces.world0 p0 (Pieces.disk_one p0))
                  ("a_flt.fits", "a_flt.fits", "dark1.fits")).
    vm_compute in H. discriminate. }
  intros H.
  specialize (H (Pieces.world0 p0 Pieces.disk_empty) (Pieces.world0 p0 (Pieces.disk_one p0))
                ("a_flt.fits", "a_flt.fits", "title")).
  vm_compute in H. discriminate.
Qed.

End PieceFacts.

(** C6 (as the spec has it) fails: not every piece of notebook code
    depends on the world; the average temperature does not. *)
Lemma some_piece_is_self_contained :
  ~ (forall pc : Pieces.piece, ~ @Pieces.self_contained Z pc).
Proof.
  intros H. apply (H Pieces.Avgtemp).
  intros w1 w2 [t1 t2]. reflexivity.
Qed.

(** ** Binary64 arithmetic *)

Section FloatFacts.
Local Open Scope Z_scope.

Section Digits.

Lemma fexp_eq (e : Z) : fexp 53 1024 e = Z.max (e - 53) (-1074).
Proof. reflexivity. Qed.

Lemma digits2_pos_bounds (m : positive) :
  2 ^ (Zpos (digits2_pos m) - 1) <= Zpos m < 2 ^ Zpos (digits2_pos m).
Proof.
  induction m as [m IH|m IH|]; simpl digits2_pos.
  - rewrite Pos2Z.inj_succ, (Pos2Z.inj_xI m).
    replace (Z.succ (Zpos (digits2_pos m)) - 1) with (Z.succ (Zpos (digits2_pos m) - 1)) by lia.
    rewrite !Z.pow_succ_r by lia. lia.
  - rewrite Pos2Z.inj_succ, (Pos2Z.inj_xO m).
    replace (Z.succ (Zpos (digits2_pos m)) - 1) with (Z.succ (Zpos (digits2_pos m) - 1)) by lia.
    rewrite !Z.pow_succ_r by lia. lia.
  - simpl. lia.
Qed.

Lemma Zdigits2_bounds (M : Z) :
  0 < M -> 2 ^ (Zdigits2 M - 1) <= M < 2 ^ Zdigits2 M.
Proof.
  destruct M as [|m|m]; try lia. intros _. apply digits2_pos_bounds.
Qed.

Lemma Zdigits2_pos (M : Z) : 0 < M -> 0 < Zdigits2 M.
Proof. destruct M; simpl; lia. Qed.

Lemma Zdigits2_nonneg (M : Z) : 0 <= M -> 0 <= Zdigits2 M.
Proof. destruct M; simpl; lia. Qed.

Lemma Zdigits2_unique (M k : Z) :
  2 ^ (k - 1) <= M < 2 ^ k -> 0 < k -> Zdigits2 M = k.
Proof.
  intros [Hlo Hhi] Hk.
  assert (0 < M) as HM by (pose proof (Z.pow_pos_nonneg 2 (k - 1)); lia).
  pose proof (Zdigits2_bounds M HM) as [Dlo Dhi].
  pose proof (Zdigits2_pos M HM) as Dpos.
  destruct (Z.lt_trichotomy (Zdigits2 M) k) as [H|[H|H]]; [|exact H|].
  - assert (2 ^ Zdigits2 M <= 2 ^ (k - 1)) by (apply Z.pow_le_mono_r; lia). lia.
  - assert (2 ^ k <= 2 ^ (Zdigits2 M - 1)) by (apply Z.pow_le_mono_r; lia). lia.
Qed.

Lemma Zdigits2_mul_pow2 (M k : Z) :
  0 < M -> 0 <= k -> Zdigits2 (M * 2 ^ k) = Zdigits2 M + k.
Proof.
  intros HM Hk. pose proof (Zdigits2_bounds M HM) as [Dlo Dhi].
  pose proof (Zdigits2_pos M HM) as Dpos.
  apply Zdigits2_unique; [|lia].
  replace (Zdigits2 M + k - 1) with ((Zdigits2 M - 1) + k) by lia.
  rewrite !Z.pow_add_r by lia.
  pose proof (Z.pow_pos_nonneg 2 k). nia.
Qed.

Lemma Zdigits2_le (M N : Z) : 0 < M -> M <= N -> Zdigits2 M <= Zdigits2 N.
Proof.
  intros HM HN.
  pose proof (Zdigits2_bounds M HM) as [Dlo Dhi].
  pose proof (Zdigits2_bounds N ltac:(lia)) as [Elo Ehi].
  destruct (Z_le_gt_dec (Zdigits2 M) (Zdigits2 N)) as [H|H]; [exact H|].
  assert (2 ^ Zdigits2 N <= 2 ^ (Zdigits2 M - 1)).
  { apply Z.pow_le_mono_r; [lia|]. lia. }
  lia.
Qed.

Lemma Zdigits2_lt_pow2 (M k : Z) : 0 <= M -> 0 <= k -> M < 2 ^ k -> Zdigits2 M <= k.
Proof.
  intros HM Hk Hlt. destruct (Z.eq_dec M 0) as [->|Hne]; [simpl; lia|].
  pose proof (Zdigits2_bounds M ltac:(lia)) as [Dlo Dhi].
  destruct (Z_le_gt_dec (Zdigits2 M) k) as [H|H]; [exact H|].
  assert (2 ^ k <= 2 ^ (Zdigits2 M - 1)) by (apply Z.pow_le_mono_r; lia). lia.
Qed.

Lemma Zdigits2_div_pow2 (M k : Z) :
  0 < M -> 0 <= k < Zdigits2 M -> Zdigits2 (M / 2 ^ k) = Zdigits2 M - k.
Proof.
  intros HM Hk. pose proof (Zdigits2_bounds M HM) as [Dlo Dhi].
  pose proof (Z.pow_pos_nonneg 2 k ltac:(lia) ltac:(lia)) as Hp.
  apply Zdigits2_unique; [|lia]. split.
  - apply Z.div_le_lower_bound; [lia|].
    rewrite <- Z.pow_add_r by lia.
    replace (k + (Zdigits2 M - k - 1)) with (Zdigits2 M - 1) by lia. exact Dlo.
  - apply Z.div_lt_upper_bound; [lia|].
    rewrite <- Z.pow_add_r by lia.
    replace (k + (Zdigits2 M - k)) with (Zdigits2 M) by lia. exact Dhi.
Qed.

End Digits.

Section Shifts.

Lemma iter_pos_nat {A} (f : A -> A) (p : positive) (x : A) :
  SpecFloat.iter_pos f p x = Nat.iter (Pos.to_nat p) f x.
Proof.
  revert x. induction p as [p IH|p IH|]; intros x; simpl SpecFloat.iter_pos.
  - rewrite !IH, Pos2Nat.inj_xI.
    replace (S (2 * Pos.to_nat p)) with (Pos.to_nat p + (Pos.to_nat p + 1))%nat by lia.
    rewrite !Nat.iter_add. reflexivity.
  - rewrite !IH, Pos2Nat.inj_xO.
    replace (2 * Pos.to_nat p)%nat with (Pos.to_nat p + Pos.to_nat p)%nat by lia.
    now rewrite Nat.iter_add.
  - reflexivity.
Qed.

Lemma shr_1_spec (m : Z) (r s : bool) :
  0 <= m ->
  shr_1 (Build_shr_record m r s) = Build_shr_record (m / 2) (Z.odd m) (r || s).
Proof.
  intros Hm. destruct m as [|p|p]; [reflexivity| |lia].
  destruct p as [p|p|]; simpl shr_1.
  - f_equal. rewrite (Pos2Z.inj_xI p). rewrite Z.add_comm, Z.mul_comm, Z.div_add by lia.
    reflexivity.
  - f_equal. rewrite (Pos2Z.inj_xO p). rewrite Z.mul_comm, Z.div_mul by lia. reflexivity.
  - reflexivity.
Qed.

Lemma iter_shr_1 (n : nat) (m : Z) :
  0 <= m ->
  exists r s,
    Nat.iter n shr_1 (Build_shr_record m false false)
      = Build_shr_record (m / 2 ^ Z.of_nat n) r s /\
    (m mod 2 ^ Z.of_nat n = 0 -> r = false /\ s = false).
Proof.
  intros Hm. induction n as [|n IH].
  - exists false, false. simpl. rewrite Z.div_1_r. auto.
  - destruct IH as (r & s & Hit & Hex).
    simpl Nat.iter. rewrite Hit.
    assert (0 < 2 ^ Z.of_nat n) as Hp by (apply Z.pow_pos_nonneg; lia).
    rewrite shr_1_spec by (apply Z.div_pos; lia).
    exists (Z.odd (m / 2 ^ Z.of_nat n)), (r || s). split.
    + f_equal. rewrite Nat2Z.inj_succ, Z.pow_succ_r by lia.
      rewrite Z.div_div by lia. f_equal. lia.
    + rewrite Nat2Z.inj_succ, Z.pow_succ_r by lia. intros Hmod.
      assert (m = 2 * 2 ^ Z.of_nat n * (m / (2 * 2 ^ Z.of_nat n))) as Heq.
      { pose proof (Z.div_mod m (2 * 2 ^ Z.of_nat n) ltac:(lia)). lia. }
      set (c := m / (2 * 2 ^ Z.of_nat n)) in *.
      assert (m mod 2 ^ Z.of_nat n = 0) as H0.
      { rewrite Heq. replace (2 * 2 ^ Z.of_nat n * c) with ((2 * c) * 2 ^ Z.of_nat n) by lia.
        apply Z.mod_mul. lia. }
      destruct (Hex H0) as [-> ->]. split; [|reflexivity].
      replace (m / 2 ^ Z.of_nat n) with (2 * c).
      * rewrite Z.odd_mul. reflexivity.
      * rewrite Heq at 1. replace (2 * 2 ^ Z.of_nat n * c) with ((2 * c) * 2 ^ Z.of_nat n) by lia.
        rewrite Z.div_mul by lia. reflexivity.
Qed.

Lemma loc_of_record_of_loc (m : Z) (l : location) :
  loc_of_shr_record (shr_record_of_loc m l) = l /\ shr_m (shr_record_of_loc m l) = m.
Proof. destruct l as [|[]]; auto. Qed.

Lemma round_nearest_even_cases (m : Z) (l : location) :
  (round_nearest_even m l = m \/ round_nearest_even m l = m + 1) /\
  (l = loc_Exact -> round_nearest_even m l = m).
Proof.
  destruct l as [|[]]; simpl; try (split; [auto | discriminate || auto]).
  destruct (Z.even m); auto.
Qed.

(** The first shift of [binary_round_aux]. *)
Lemma shr_fexp_spec (M ez : Z) (lz : location) :
  0 <= M -> ez <= fexp 53 1024 (Zdigits2 M + ez) ->
  lz = loc_Exact \/ fexp 53 1024 (Zdigits2 M + ez) = ez ->
  exists mrs,
    shr_fexp 53 1024 M ez lz = (mrs, fexp 53 1024 (Zdigits2 M + ez)) /\
    shr_m mrs = M / 2 ^ (fexp 53 1024 (Zdigits2 M + ez) - ez) /\
    (lz = loc_Exact -> M mod 2 ^ (fexp 53 1024 (Zdigits2 M + ez) - ez) = 0 ->
     loc_of_shr_record mrs = loc_Exact).
Proof.
  intros HM Hle Hlz. unfold shr_fexp.
  set (E := fexp 53 1024 (Zdigits2 M + ez)) in *.
  destruct (E - ez) as [|n|n] eqn:En; [| |lia].
  - exists (shr_record_of_loc M lz). simpl shr.
    destruct (loc_of_record_of_loc M lz) as [H1 H2].
    rewrite H2, Z.div_1_r. repeat split.
    + f_equal. lia.
    + intros -> _. exact H1.
  - destruct Hlz as [->|Hlz]; [|lia].
    simpl shr. rewrite iter_pos_nat.
    destruct (iter_shr_1 (Pos.to_nat n) M HM) as (r & s & Hit & Hex).
    rewrite positive_nat_Z in *.
    change (shr_record_of_loc M loc_Exact) with (Build_shr_record M false false).
    rewrite Hit. eexists. split; [f_equal; lia|]. split; [reflexivity|].
    intros _ Hmod. destruct (Hex Hmod) as [-> ->]. reflexivity.
Qed.

End Shifts.

Section Rounding.


Lemma binary_round_aux_pack (s : bool) (M ez : Z) (lz : location) :
  binary_round_aux 53 1024 s M ez lz =
  let '(mrs, e) := shr_fexp 53 1024 M ez lz in
  Rounding.pack s (round_nearest_even (shr_m mrs) (loc_of_shr_record mrs)) e.
Proof.
  unfold binary_round_aux, Rounding.pack. destruct (shr_fexp 53 1024 M ez lz). reflexivity.
Qed.


Lemma canon_lt (q E : Z) : Rounding.canon q E -> 0 <= q < 9007199254740992.
Proof.
  intros [[-> _]|[Hq Hc]]; [lia|].
  rewrite fexp_eq in Hc.
  pose proof (Zdigits2_bounds q Hq) as [_ Hhi].
  assert (2 ^ Zdigits2 q <= 2 ^ 53) as H by (apply Z.pow_le_mono_r; lia).
  change (2 ^ 53) with 9007199254740992 in H. lia.
Qed.

Lemma canon_emin (q E : Z) : Rounding.canon q E -> -1074 <= E.
Proof. intros [[_ H]|[_ H]]; [lia|]. rewrite fexp_eq in H. lia. Qed.

Lemma canon_succ (q E : Z) : Rounding.canon q E -> q + 1 < 9007199254740992 -> Rounding.canon (q + 1) E.
Proof.
  intros Hc Hlt. right. split; [pose proof (canon_lt _ _ Hc); lia|].
  pose proof (canon_emin _ _ Hc) as HE.
  assert (Zdigits2 (q + 1) <= 53) as Hd1.
  { apply Zdigits2_lt_pow2; [pose proof (canon_lt _ _ Hc); lia|lia|].
    change (2 ^ 53) with 9007199254740992. lia. }
  rewrite fexp_eq. destruct Hc as [[-> ->]|[Hq Hc]].
  - reflexivity.
  - rewrite fexp_eq in Hc.
    pose proof (Zdigits2_le q (q + 1) Hq ltac:(lia)). lia.
Qed.

Lemma pack_zero (s : bool) (E : Z) : -1074 <= E -> Rounding.pack s 0 E = S754_zero s.
Proof.
  intros HE. unfold Rounding.pack, shr_fexp. simpl Zdigits2. rewrite fexp_eq.
  destruct (Z.max (0 + E - 53) (-1074) - E) eqn:En; try lia; reflexivity.
Qed.

Lemma pack_carry (s : bool) (E : Z) :
  -1074 <= E ->
  Rounding.pack s 9007199254740992 E =
  if E + 1 <=? 1024 - 53 then S754_finite s 4503599627370496 (E + 1)
  else S754_infinity s.
Proof.
  intros HE. unfold Rounding.pack, shr_fexp.
  change (Zdigits2 9007199254740992) with 54. rewrite fexp_eq.
  replace (Z.max (54 + E - 53) (-1074) - E) with 1 by lia. reflexivity.
Qed.

Lemma pack_canon (s : bool) (p : positive) (E : Z) :
  Rounding.canon (Zpos p) E ->
  Rounding.pack s (Zpos p) E =
  if E <=? 1024 - 53 then S754_finite s p E else S754_infinity s.
Proof.
  intros [[H _]|[_ Hc]]; [discriminate|]. unfold Rounding.pack, shr_fexp.
  rewrite Hc, Z.sub_diag. reflexivity.
Qed.

Lemma valid_canon (s : bool) (p : positive) (E : Z) :
  Rounding.canon (Zpos p) E -> E <= 971 -> Float64.valid (S754_finite s p E) = true.
Proof.
  intros [[H _]|[_ Hc]] HE; [discriminate|].
  unfold Float64.valid, Float64.prec, Float64.emax, valid_binary, bounded,
    canonical_mantissa.
  change (Z.pos (digits2_pos p)) with (Zdigits2 (Z.pos p)). rewrite Hc.
  apply andb_true_iff. split; [apply Z.eqb_eq|apply Z.leb_le]; lia.
Qed.

Lemma pack_spec (s : bool) (m E : Z) :
  0 <= m <= 9007199254740992 -> -1074 <= E ->
  (0 < m < 9007199254740992 -> Rounding.canon m E) ->
  (Rounding.pack s m E = S754_infinity s \/
   (Float64.valid (Rounding.pack s m E) = true /\ Float64.is_finite (Rounding.pack s m E) = true /\
    Float64.scaled (Rounding.pack s m E) = cond_Zopp s (m * 2 ^ (E + 1074)))) /\
  (E <= 970 -> Rounding.pack s m E <> S754_infinity s).
Proof.
  intros Hm HE Hc.
  destruct (Z.eq_dec m 0) as [->|Hm0].
  { rewrite pack_zero by exact HE. split; [right|discriminate].
    destruct s; auto. }
  destruct (Z.eq_dec m 9007199254740992) as [->|Hm1].
  { rewrite pack_carry by exact HE.
    destruct (E + 1 <=? 1024 - 53) eqn:Ele.
    - split; [right|discriminate]. apply Z.leb_le in Ele. split; [|split].
      + apply valid_canon; [|lia]. right. split; [lia|].
        change (Zdigits2 4503599627370496) with 53. rewrite fexp_eq. lia.
      + reflexivity.
      + unfold Float64.scaled. f_equal.
        replace (E + 1 + 1074) with (Z.succ (E + 1074)) by lia.
        rewrite Z.pow_succ_r by lia. lia.
    - split; [now left|]. apply Z.leb_gt in Ele. lia. }
  assert (0 < m < 9007199254740992) as Hm' by lia.
  specialize (Hc Hm'). destruct m as [|p|p]; try lia.
  rewrite (pack_canon s p E Hc).
  destruct (E <=? 1024 - 53) eqn:Ele.
  - apply Z.leb_le in Ele. split; [right|discriminate]. split; [|split].
    + apply valid_canon; [exact Hc|lia].
    + reflexivity.
    + reflexivity.
  - split; [now left|]. apply Z.leb_gt in Ele. lia.
Qed.

Lemma round_spec (s : bool) (M ez : Z) (lz : location) :
  0 <= M -> -1074 <= ez -> ez <= fexp 53 1024 (Zdigits2 M + ez) ->
  lz = loc_Exact \/ fexp 53 1024 (Zdigits2 M + ez) = ez ->
  let E := fexp 53 1024 (Zdigits2 M + ez) in
  let q := M / 2 ^ (E - ez) in
  exists d,
    (d = 0 \/ d = 1) /\
    (lz = loc_Exact -> M mod 2 ^ (E - ez) = 0 -> d = 0) /\
    binary_round_aux 53 1024 s M ez lz = Rounding.pack s (q + d) E /\
    0 <= q + d <= 9007199254740992 /\
    (0 < q + d < 9007199254740992 -> Rounding.canon (q + d) E).
Proof.
  intros HM Hez Hle Hlz E q.
  destruct (shr_fexp_spec M ez lz HM Hle Hlz) as (mrs & Hshr & Hq & Hex).
  fold E in Hshr, Hq, Hex. fold q in Hq.
  rewrite binary_round_aux_pack, Hshr, Hq.
  destruct (round_nearest_even_cases q (loc_of_shr_record mrs)) as [Hcases Hexact].
  assert (Rounding.canon q E) as Hcq.
  { unfold Rounding.canon. subst q E. rewrite fexp_eq in *.
    destruct (Z.eq_dec M 0) as [->|HM0].
    - left. simpl in *. rewrite Z.div_0_l by (apply Z.pow_nonzero; lia). lia.
    - right. assert (0 < M) as HMp by lia.
      pose proof (Zdigits2_pos M HMp) as Hdp.
      destruct (Z.eq_dec (Z.max (Zdigits2 M + ez - 53) (-1074) - ez) 0) as [H0|H0].
      + rewrite H0. rewrite Z.div_1_r. split; [lia|]. rewrite fexp_eq. lia.
      + assert (Z.max (Zdigits2 M + ez - 53) (-1074) = Zdigits2 M + ez - 53) as Hmax by lia.
        rewrite Hmax in *.
        replace (Zdigits2 M + ez - 53 - ez) with (Zdigits2 M - 53) in * by lia.
        assert (Zdigits2 (M / 2 ^ (Zdigits2 M - 53)) = 53) as Hd.
        { rewrite Zdigits2_div_pow2 by lia. lia. }
        split.
        * destruct (Z.eq_dec (M / 2 ^ (Zdigits2 M - 53)) 0) as [Hz|Hz].
          { rewrite Hz in Hd. discriminate. }
          assert (0 <= M / 2 ^ (Zdigits2 M - 53)).
          { apply Z.div_pos; [lia|]. apply Z.pow_pos_nonneg; lia. }
          lia.
        * rewrite Hd, fexp_eq. lia. }
  pose proof (canon_lt _ _ Hcq) as Hqlt.
  destruct Hcases as [Hr|Hr].
  - exists 0. rewrite Hr, Z.add_0_r. split; [now left|]. split; [reflexivity|].
    split; [reflexivity|]. split; [lia|]. intros _. exact Hcq.
  - exists 1. rewrite Hr. split; [now right|]. split.
    + intros Hl Hmod. rewrite (Hexact (Hex Hl Hmod)) in Hr. lia.
    + split; [reflexivity|]. split; [lia|]. intros Hlt. apply canon_succ; [exact Hcq|lia].
Qed.

End Rounding.

Section Addition.

Lemma pos_iter_xO (m d : positive) : Zpos (Pos.iter xO m d) = Zpos m * 2 ^ Zpos d.
Proof.
  induction d as [|d IH] using Pos.peano_ind.
  - simpl. lia.
  - rewrite Pos.iter_succ, Pos2Z.inj_succ, Z.pow_succ_r by lia.
    rewrite (Pos2Z.inj_xO (Pos.iter xO m d)), IH. lia.
Qed.

Lemma shl_align_spec (mx : positive) (ex e' : Z) :
  e' <= ex ->
  snd (shl_align mx ex e') = e' /\
  Zpos (fst (shl_align mx ex e')) = Zpos mx * 2 ^ (ex - e').
Proof.
  intros Hle. unfold shl_align. destruct (e' - ex) as [|d|d] eqn:Ed; [|lia|].
  - assert (e' = ex) as -> by lia. rewrite Z.sub_diag. simpl. split; lia.
  - simpl. split; [reflexivity|]. rewrite pos_iter_xO. f_equal. f_equal. lia.
Qed.

Lemma shl_align_id (mx : positive) (ex e' : Z) :
  ex <= e' -> shl_align mx ex e' = (mx, ex).
Proof.
  intros Hle. unfold shl_align. destruct (e' - ex) eqn:Ed; try reflexivity. lia.
Qed.


Lemma binary_round_scaled (s : bool) (m : positive) (ez : Z) :
  -1074 <= ez ->
  let N := Zpos m * 2 ^ (ez + 1074) in
  let g := 2 ^ Z.max (Zdigits2 N - 53) 0 in
  binary_round 53 1024 s m ez = S754_infinity s \/
  (Float64.valid (binary_round 53 1024 s m ez) = true /\
   Float64.is_finite (binary_round 53 1024 s m ez) = true /\
   exists d, (d = 0 \/ d = 1) /\ (N mod g = 0 -> d = 0) /\
     Float64.scaled (binary_round 53 1024 s m ez) = cond_Zopp s ((N / g + d) * g)).
Proof.
  intros Hez N g. unfold binary_round.
  set (E := fexp 53 1024 (Z.pos (digits2_pos m) + ez)).
  assert (HE : E = Z.max (Zdigits2 (Zpos m) + ez - 53) (-1074)) by (subst E; apply fexp_eq).
  assert (0 < 2 ^ (ez + 1074)) as Hp by (apply Z.pow_pos_nonneg; lia).
  assert (Zdigits2 N = Zdigits2 (Zpos m) + (ez + 1074)) as HdN.
  { subst N. apply Zdigits2_mul_pow2; lia. }
  assert (Z.max (Zdigits2 N - 53) 0 = E + 1074) as Hk by lia.
  assert (g = 2 ^ (E + 1074)) as Hg by (subst g; now rewrite Hk).
  pose proof (Zdigits2_pos (Zpos m) ltac:(lia)) as Hdp.
  destruct (Z_lt_le_dec E ez) as [Hlt|Hge].
  - (* the mantissa is shifted left: the result is exact *)
    destruct (shl_align_spec m ez E ltac:(lia)) as [He' Hm'].
    destruct (shl_align m ez E) as [mz ez'] eqn:Esh. simpl in He', Hm'. subst ez'.
    assert (Zdigits2 (Zpos mz) + E = Zdigits2 (Zpos m) + ez) as Hd.
    { rewrite Hm', Zdigits2_mul_pow2 by lia. lia. }
    assert (fexp 53 1024 (Zdigits2 (Zpos mz) + E) = E) as Hf.
    { rewrite Hd. reflexivity. }
    destruct (round_spec s (Zpos mz) E loc_Exact ltac:(lia) ltac:(lia)
                ltac:(rewrite Hf; lia) ltac:(now left))
      as (d & Hd01 & Hd0 & Hr & Hb & Hc).
    rewrite Hf, Z.sub_diag, Z.div_1_r in *. change (2 ^ 0) with 1 in *.
    rewrite (Hd0 eq_refl (Z.mod_1_r _)) in *. rewrite Z.add_0_r in *.
    rewrite Hr.
    destruct (pack_spec s (Zpos mz) E Hb ltac:(lia) Hc) as [[Hinf|(Hv & Hfin & Hs)] _];
      [now left|right].
    split; [exact Hv|]. split; [exact Hfin|].
    exists 0. split; [now left|]. split; [reflexivity|].
    rewrite Hs, Hg. f_equal. rewrite Z.add_0_r.
    assert (N = Zpos mz * 2 ^ (E + 1074)) as HN.
    { subst N. rewrite Hm'. rewrite <- Z.mul_assoc, <- Z.pow_add_r by lia.
      f_equal. f_equal. lia. }
    rewrite HN. rewrite Z.div_mul by lia. reflexivity.
  - rewrite shl_align_id by lia.
    destruct (round_spec s (Zpos m) ez loc_Exact ltac:(lia) Hez
                ltac:(change (ez <= E); lia) ltac:(now left))
      as (d & Hd01 & Hd0 & Hr & Hb & Hc).
    change (fexp 53 1024 (Zdigits2 (Z.pos m) + ez)) with E in *.
    rewrite Hr.
    assert (0 < 2 ^ (E - ez)) as Hp2 by (apply Z.pow_pos_nonneg; lia).
    assert (2 ^ (E + 1074) = 2 ^ (E - ez) * 2 ^ (ez + 1074)) as Hsplit.
    { rewrite <- Z.pow_add_r by lia. f_equal. lia. }
    assert (N / g = Zpos m / 2 ^ (E - ez)) as Hdiv.
    { subst N. rewrite Hg, Hsplit. apply Z.div_mul_cancel_r; lia. }
    assert (N mod g = 0 -> Zpos m mod 2 ^ (E - ez) = 0) as Hmod.
    { subst N. rewrite Hg, Hsplit. rewrite Z.mul_mod_distr_r by lia. nia. }
    destruct (pack_spec s _ E Hb ltac:(lia) Hc) as [[Hinf|(Hv & Hfin & Hs)] _];
      [now left|right].
    split; [exact Hv|]. split; [exact Hfin|].
    exists d. split; [exact Hd01|]. split; [auto|].
    rewrite Hs, Hdiv, Hg. reflexivity.
Qed.

End Addition.

Section Sum.

Lemma valid_finite_inv (s : bool) (m : positive) (e : Z) :
  Float64.valid (S754_finite s m e) = true -> Rounding.canon (Zpos m) e /\ e <= 971.
Proof.
  unfold Float64.valid, Float64.prec, Float64.emax, valid_binary, bounded,
    canonical_mantissa.
  intros H. apply andb_true_iff in H as [H1 H2].
  apply Z.eqb_eq in H1. apply Z.leb_le in H2.
  split; [right; split; [lia|exact H1]|lia].
Qed.


Lemma scaled_abs (s : bool) (m : positive) (e : Z) :
  Z.abs (Float64.scaled (S754_finite s m e)) = Zpos m * 2 ^ (e + 1074).
Proof.
  unfold Float64.scaled.
  assert (0 <= 2 ^ (e + 1074)) by (apply Z.pow_nonneg; lia).
  destruct s; simpl cond_Zopp; lia.
Qed.

Lemma repr_scaled (x : Float64.t) :
  Float64.valid x = true -> Rounding.repr (Float64.scaled x).
Proof.
  destruct x as [s|s| |s m e]; try (intros _; reflexivity).
  intros Hv. apply valid_finite_inv in Hv as [Hc He].
  pose proof (canon_emin _ _ Hc) as Hmin.
  destruct Hc as [[H _]|[_ Hc]]; [discriminate|]. rewrite fexp_eq in Hc.
  unfold Rounding.repr. rewrite scaled_abs.
  rewrite Zdigits2_mul_pow2 by lia.
  replace (Z.max (Zdigits2 (Z.pos m) + (e + 1074) - 53) 0) with (e + 1074) by lia.
  apply Z.mod_mul. apply Z.pow_nonzero; lia.
Qed.

Lemma rounded_exact (S : Z) : Rounding.repr S -> Rounding.rounded S S.
Proof.
  intros Hr. unfold Rounding.rounded. exists 0. split; [now left|]. split; [reflexivity|].
  unfold Rounding.repr in Hr. set (g := 2 ^ Z.max (Zdigits2 (Z.abs S) - 53) 0) in *.
  assert (0 < g) as Hg by (apply Z.pow_pos_nonneg; lia).
  pose proof (Z.div_mod (Z.abs S) g ltac:(lia)) as Hdm. rewrite Hr in Hdm.
  rewrite Z.add_0_r. replace (Z.abs S / g * g) with (Z.abs S) by lia.
  rewrite Z.mul_comm. symmetry. apply Z.abs_sgn.
Qed.

Lemma add_scaled (x y : Float64.t) :
  Float64.valid x = true -> Float64.valid y = true ->
  Float64.is_finite x = true -> Float64.is_finite y = true ->
  (Float64.add x y = S754_infinity false \/ Float64.add x y = S754_infinity true) \/
  (Float64.valid (Float64.add x y) = true /\
   Float64.is_finite (Float64.add x y) = true /\
   Rounding.rounded (Float64.scaled x + Float64.scaled y) (Float64.scaled (Float64.add x y))).
Proof.
  intros Vx Vy Fx Fy.
  destruct x as [sx|sx| |sx mx ex]; try discriminate;
    destruct y as [sy|sy| |sy my ey]; try discriminate.
  - right. destruct sx, sy; (split; [reflexivity|split; [reflexivity|]]);
      apply (rounded_exact 0); reflexivity.
  - right. split; [exact Vy|]. split; [reflexivity|].
    apply rounded_exact. now apply repr_scaled.
  - right. split; [exact Vx|]. split; [reflexivity|].
    rewrite Z.add_0_r. apply rounded_exact. now apply repr_scaled.
  - apply valid_finite_inv in Vx as [Cx Ex], Vy as [Cy Ey].
    pose proof (canon_emin _ _ Cx) as Mx. pose proof (canon_emin _ _ Cy) as My.
    unfold Float64.add, Float64.prec, Float64.emax, SFadd.
    set (ez := Z.min ex ey).
    destruct (shl_align_spec mx ex ez ltac:(lia)) as [_ Hax].
    destruct (shl_align_spec my ey ez ltac:(lia)) as [_ Hay].
    rewrite Hax, Hay.
    set (M := cond_Zopp sx (Z.pos mx * 2 ^ (ex - ez)) +
              cond_Zopp sy (Z.pos my * 2 ^ (ey - ez))).
    assert (M * 2 ^ (ez + 1074) =
            Float64.scaled (S754_finite sx mx ex) + Float64.scaled (S754_finite sy my ey))
      as HM.
    { unfold M, Float64.scaled.
      replace (ex + 1074) with ((ex - ez) + (ez + 1074)) by lia.
      replace (ey + 1074) with ((ey - ez) + (ez + 1074)) by lia.
      rewrite (Z.pow_add_r 2 (ex - ez) (ez + 1074)) by lia.
      rewrite (Z.pow_add_r 2 (ey - ez) (ez + 1074)) by lia.
      destruct sx, sy; simpl cond_Zopp; ring. }
    rewrite <- HM.
    assert (0 < 2 ^ (ez + 1074)) as Hp by (apply Z.pow_pos_nonneg; lia).
    destruct M as [|m|m]; simpl binary_normalize.
    + right. split; [reflexivity|]. split; [reflexivity|].
      apply (rounded_exact 0). reflexivity.
    + destruct (binary_round_scaled false m ez ltac:(lia))
        as [Hinf|(Hv & Hf & d & Hd01 & Hd0 & Hs)]; [left; now left|right].
      split; [exact Hv|]. split; [exact Hf|].
      exists d. rewrite Z.abs_eq by lia. split; [exact Hd01|]. split; [exact Hd0|].
      rewrite Hs, Z.sgn_pos by lia. simpl cond_Zopp. lia.
    + destruct (binary_round_scaled true m ez ltac:(lia))
        as [Hinf|(Hv & Hf & d & Hd01 & Hd0 & Hs)]; [left; now right|right].
      split; [exact Hv|]. split; [exact Hf|].
      exists d.
      replace (Z.abs (Z.neg m * 2 ^ (ez + 1074))) with (Z.pos m * 2 ^ (ez + 1074)) by lia.
      split; [exact Hd01|]. split; [exact Hd0|].
      rewrite Hs, Z.sgn_neg by lia. simpl cond_Zopp. lia.
Qed.

End Sum.

Section Monotone.

Lemma repr_multiple (V : Z) (k : Z) :
  0 < V -> Rounding.repr V -> 0 <= k <= Z.max (Zdigits2 V - 53) 0 -> V mod 2 ^ k = 0.
Proof.
  intros HV Hr Hk. unfold Rounding.repr in Hr. rewrite Z.abs_eq in Hr by lia.
  set (K := Z.max (Zdigits2 V - 53) 0) in *.
  assert (0 < 2 ^ K) as HpK by (apply Z.pow_pos_nonneg; lia).
  pose proof (Z.div_mod V (2 ^ K) ltac:(lia)) as Hdm. rewrite Hr, Z.add_0_r in Hdm.
  rewrite Hdm. replace K with ((K - k) + k) at 1 by lia.
  rewrite Z.pow_add_r by lia.
  replace (2 ^ (K - k) * 2 ^ k * (V / 2 ^ K)) with ((2 ^ (K - k) * (V / 2 ^ K)) * 2 ^ k) by ring.
  apply Z.mod_mul. apply Z.pow_nonzero; lia.
Qed.

Lemma pow2_multiple (a k : Z) : 0 <= k <= a -> 2 ^ a = 2 ^ (a - k) * 2 ^ k.
Proof. intros H. rewrite <- Z.pow_add_r by lia. f_equal. lia. Qed.

(** A representable [V] below [S] is below [S] Rounding.rounded down. *)
Lemma floor_pos (V S : Z) :
  0 < V -> V <= S -> Rounding.repr V ->
  V <= S / 2 ^ Z.max (Zdigits2 S - 53) 0 * 2 ^ Z.max (Zdigits2 S - 53) 0.
Proof.
  intros HV HS Hr.
  set (k := Z.max (Zdigits2 S - 53) 0).
  assert (0 < 2 ^ k) as Hg by (apply Z.pow_pos_nonneg; lia).
  pose proof (Zdigits2_le V S HV HS) as Hd.
  pose proof (Zdigits2_pos V HV) as HdV.
  pose proof (Zdigits2_bounds V HV) as [VLo VHi].
  pose proof (Zdigits2_bounds S ltac:(lia)) as [SLo SHi].
  destruct (Z.eq_dec (Zdigits2 V) (Zdigits2 S)) as [Heq|Hne].
  - assert (V mod 2 ^ k = 0) as Hm.
    { apply repr_multiple; [exact HV|exact Hr|]. rewrite Heq. fold k. lia. }
    pose proof (Z.div_mod V (2 ^ k) ltac:(lia)) as Hdm. rewrite Hm, Z.add_0_r in Hdm.
    assert (V / 2 ^ k <= S / 2 ^ k) by (apply Z.div_le_mono; lia).
    nia.
  - assert (V < 2 ^ (Zdigits2 S - 1)) as Hlt.
    { assert (2 ^ Zdigits2 V <= 2 ^ (Zdigits2 S - 1)) by (apply Z.pow_le_mono_r; lia). lia. }
    assert (0 <= k <= Zdigits2 S - 1) as Hk by lia.
    rewrite (pow2_multiple (Zdigits2 S - 1) k Hk) in SLo, Hlt.
    assert (2 ^ (Zdigits2 S - 1 - k) <= S / 2 ^ k).
    { apply Z.div_le_lower_bound; lia. }
    nia.
Qed.

(** A representable [V] above [S] is above [S] Rounding.rounded up. *)
Lemma ceil_pos (V S d : Z) :
  0 < S -> S <= V -> Rounding.repr V ->
  d = 0 \/ d = 1 ->
  (S mod 2 ^ Z.max (Zdigits2 S - 53) 0 = 0 -> d = 0) ->
  (S / 2 ^ Z.max (Zdigits2 S - 53) 0 + d) * 2 ^ Z.max (Zdigits2 S - 53) 0 <= V.
Proof.
  intros HS HV Hr Hd01 Hd0.
  set (k := Z.max (Zdigits2 S - 53) 0) in *.
  assert (0 < 2 ^ k) as Hg by (apply Z.pow_pos_nonneg; lia).
  pose proof (Z.div_mod S (2 ^ k) ltac:(lia)) as Hdm.
  pose proof (Z.mod_pos_bound S (2 ^ k) Hg) as Hmb.
  destruct Hd01 as [-> | ->]; [nia|].
  assert (S mod 2 ^ k <> 0) as Hnz by (intros H; specialize (Hd0 H); lia).
  pose proof (Zdigits2_le S V HS HV) as Hd.
  pose proof (Zdigits2_pos S HS) as HdS.
  pose proof (Zdigits2_bounds V ltac:(lia)) as [VLo VHi].
  pose proof (Zdigits2_bounds S HS) as [SLo SHi].
  destruct (Z.eq_dec (Zdigits2 V) (Zdigits2 S)) as [Heq|Hne].
  - assert (V mod 2 ^ k = 0) as Hm.
    { apply repr_multiple; [lia|exact Hr|]. rewrite Heq. fold k. lia. }
    pose proof (Z.div_mod V (2 ^ k) ltac:(lia)) as Hdv. rewrite Hm, Z.add_0_r in Hdv.
    assert (S / 2 ^ k < V / 2 ^ k) by nia.
    nia.
  - assert (2 ^ Zdigits2 S <= V) as Hge.
    { assert (2 ^ Zdigits2 S <= 2 ^ (Zdigits2 V - 1)) by (apply Z.pow_le_mono_r; lia). lia. }
    assert (0 <= k <= Zdigits2 S) as Hk by lia.
    rewrite (pow2_multiple (Zdigits2 S) k Hk) in SHi, Hge.
    assert (S / 2 ^ k < 2 ^ (Zdigits2 S - k)).
    { apply Z.div_lt_upper_bound; lia. }
    nia.
Qed.

Lemma repr_opp (V : Z) : Rounding.repr V -> Rounding.repr (- V).
Proof. unfold Rounding.repr. now rewrite Z.abs_opp. Qed.

Lemma repr_double (V : Z) : Rounding.repr V -> Rounding.repr (2 * V).
Proof.
  unfold Rounding.repr. intros Hr. destruct (Z.eq_dec V 0) as [->|Hne]; [reflexivity|].
  rewrite Z.abs_mul. change (Z.abs 2) with 2.
  set (A := Z.abs V) in *. assert (0 < A) as HA by (subst A; lia).
  replace (2 * A) with (A * 2 ^ 1) by (change (2 ^ 1) with 2; lia).
  rewrite Zdigits2_mul_pow2 by lia.
  set (K := Z.max (Zdigits2 A - 53) 0) in *.
  assert (0 < 2 ^ K) as HpK by (apply Z.pow_pos_nonneg; lia).
  pose proof (Z.div_mod A (2 ^ K) ltac:(lia)) as Hdm. rewrite Hr, Z.add_0_r in Hdm.
  set (K' := Z.max (Zdigits2 A + 1 - 53) 0).
  assert (0 <= K' <= K + 1) as HK' by lia.
  rewrite Hdm. change (2 ^ 1) with 2.
  replace (2 ^ K * (A / 2 ^ K) * 2) with ((A / 2 ^ K) * 2 ^ (K + 1))
    by (rewrite Z.pow_add_r by lia; change (2 ^ 1) with 2; ring).
  rewrite (pow2_multiple (K + 1) K' HK').
  replace (A / 2 ^ K * (2 ^ (K + 1 - K') * 2 ^ K')) with
    ((A / 2 ^ K * 2 ^ (K + 1 - K')) * 2 ^ K') by ring.
  apply Z.mod_mul. apply Z.pow_nonzero; lia.
Qed.

Lemma rounded_lower (S R V : Z) : Rounding.rounded S R -> Rounding.repr V -> V <= S -> V <= R.
Proof.
  intros (d & Hd01 & Hd0 & ->) Hr HV.
  set (g := 2 ^ Z.max (Zdigits2 (Z.abs S) - 53) 0) in *.
  assert (0 < g) as Hg by (apply Z.pow_pos_nonneg; lia).
  assert (0 <= Z.abs S / g) as Hq by (apply Z.div_pos; lia).
  destruct (Z.lt_trichotomy S 0) as [HS|[->|HS]].
  - rewrite Z.sgn_neg by lia.
    assert (0 < - V) as HVn by lia.
    pose proof (ceil_pos (- V) (Z.abs S) d ltac:(lia) ltac:(lia) (repr_opp _ Hr) Hd01 Hd0).
    fold g in H. lia.
  - simpl Z.sgn. lia.
  - rewrite Z.sgn_pos by lia. destruct (Z_le_gt_dec V 0) as [HV0|HV0].
    + assert (0 <= (Z.abs S / g + d) * g) by nia. lia.
    + pose proof (floor_pos V (Z.abs S) ltac:(lia) ltac:(lia) Hr). fold g in H. nia.
Qed.

Lemma rounded_opp (S R : Z) : Rounding.rounded S R -> Rounding.rounded (- S) (- R).
Proof.
  intros (d & Hd01 & Hd0 & ->). exists d. rewrite Z.abs_opp, Z.sgn_opp.
  split; [exact Hd01|]. split; [exact Hd0|]. ring.
Qed.

Lemma rounded_upper (S R V : Z) : Rounding.rounded S R -> Rounding.repr V -> S <= V -> R <= V.
Proof.
  intros HR Hr HV.
  pose proof (rounded_lower (- S) (- R) (- V) (rounded_opp _ _ HR) (repr_opp _ Hr)). lia.
Qed.

End Monotone.

Section Halving.

Lemma div_core_unfold (m1 e1 m2 e2 e' : Z) (sh : positive) :
  Z.min (fexp 53 1024 (Zdigits2 m1 + e1 - (Zdigits2 m2 + e2))) (e1 - e2) = e' ->
  e1 - e2 - e' = Zpos sh ->
  SFdiv_core_binary 53 1024 m1 e1 m2 e2 =
  (Z.shiftl m1 (Zpos sh) / m2, e', new_location m2 (Z.shiftl m1 (Zpos sh) mod m2)).
Proof.
  intros He Hs. unfold SFdiv_core_binary. rewrite He, Hs.
  unfold Z.div, Z.modulo. destruct (Z.div_eucl _ _). reflexivity.
Qed.

Lemma new_location_two52 (r : Z) :
  new_location 4503599627370496 r =
  if r =? 0 then loc_Exact else loc_Inexact (2 * r ?= 4503599627370496).
Proof. reflexivity. Qed.

(** Dividing a float by two: exact, or off by half a unit in the last
    place of the smallest exponent. *)
Lemma div_two_scaled (x : Float64.t) :
  Float64.valid x = true -> Float64.is_finite x = true ->
  Float64.valid (Float64.div x Float64.two) = true /\
  Float64.is_finite (Float64.div x Float64.two) = true /\
  Float64.scaled x - 1 <= 2 * Float64.scaled (Float64.div x Float64.two)
    <= Float64.scaled x + 1.
Proof.
  intros Vx Fx. destruct x as [s|s| |s m e]; try discriminate.
  { simpl. repeat split; reflexivity || lia. }
  apply valid_finite_inv in Vx as [Cx Ex].
  pose proof (canon_emin _ _ Cx) as Mx. pose proof (canon_lt _ _ Cx) as Lx.
  destruct Cx as [[H _]|[_ Cx]]; [discriminate|]. rewrite fexp_eq in Cx.
  unfold Float64.div, Float64.two, Float64.prec, Float64.emax, SFdiv.
  rewrite xorb_false_r.
  assert (0 <= 2 ^ (e + 1074)) as Hpe by (apply Z.pow_nonneg; lia).
  destruct (Z.eq_dec e (-1074)) as [->|Hne].
  - (* the smallest exponent: the last bit may be lost *)
    rewrite (div_core_unfold (Zpos m) (-1074) 4503599627370496 (-51) (-1074) 51);
      [| change (Zdigits2 4503599627370496) with 53; rewrite fexp_eq; lia | reflexivity].
    rewrite Z.shiftl_mul_pow2 by lia.
    assert (0 < 2 ^ 51) as Hp51 by reflexivity.
    assert ((Zpos m * 2 ^ 51) / 4503599627370496 = Zpos m / 2) as Hdiv.
    { change 4503599627370496 with (2 * 2 ^ 51). apply Z.div_mul_cancel_r; lia. }
    assert ((Zpos m * 2 ^ 51) mod 4503599627370496 = Zpos m mod 2 * 2 ^ 51) as Hmod.
    { change 4503599627370496 with (2 * 2 ^ 51). apply Z.mul_mod_distr_r; lia. }
    rewrite Hdiv, Hmod, new_location_two52.
    assert (0 <= Zpos m / 2) as Hq by (apply Z.div_pos; lia).
    assert (Zdigits2 (Zpos m / 2) <= 53) as Hdq.
    { apply Zdigits2_lt_pow2; [lia|lia|]. change (2 ^ 53) with 9007199254740992.
      apply Z.div_lt_upper_bound; lia. }
    pose proof (Zdigits2_nonneg _ Hq) as Hdq0.
    assert (fexp 53 1024 (Zdigits2 (Zpos m / 2) + -1074) = -1074) as Hf.
    { rewrite fexp_eq. lia. }
    destruct (round_spec s (Zpos m / 2) (-1074)
                (if Z.pos m mod 2 * 2 ^ 51 =? 0 then loc_Exact
                 else loc_Inexact (2 * (Z.pos m mod 2 * 2 ^ 51) ?= 4503599627370496))
                Hq ltac:(lia) ltac:(rewrite Hf; lia) ltac:(right; exact Hf))
      as (d & Hd01 & Hd0 & Hr & Hb & Hc).
    rewrite Hf, Z.sub_diag, Z.div_1_r in *. change (2 ^ 0) with 1 in *.
    rewrite Hr.
    destruct (pack_spec s (Zpos m / 2 + d) (-1074) Hb ltac:(lia) Hc)
      as [[Hinf|(Hv & Hfin & Hs)] Hni]; [exfalso; apply Hni; [lia|exact Hinf]|].
    split; [exact Hv|]. split; [exact Hfin|]. rewrite Hs.
    unfold Float64.scaled. change (2 ^ (-1074 + 1074)) with 1.
    pose proof (Z.div_mod (Zpos m) 2 ltac:(lia)) as Hdm.
    pose proof (Z.mod_pos_bound (Zpos m) 2 ltac:(lia)) as Hmb.
    assert (Z.pos m mod 2 = 0 -> d = 0) as Hex.
    { intros H0. apply Hd0; [|apply Z.mod_1_r]. rewrite H0. reflexivity. }
    destruct Hd01 as [-> | ->]; destruct s; simpl cond_Zopp; lia.
  - (* a normal number: halving is exact *)
    assert (Zdigits2 (Zpos m) = 53) as Hd53 by lia.
    set (e' := Z.max (e - 2) (-1074)).
    assert (e - -51 - e' = 53 \/ e - -51 - e' = 52) as Hsh by lia.
    assert (Z.min (fexp 53 1024 (Zdigits2 (Zpos m) + e - (Zdigits2 4503599627370496 + -51)))
                  (e - -51) = e') as He'.
    { change (Zdigits2 4503599627370496) with 53. rewrite Hd53, fexp_eq. lia. }
    assert (exists sh, e - -51 - e' = Zpos sh /\ (Zpos sh = 53 \/ Zpos sh = 52)) as (sh & Hsh1 & Hsh2).
    { destruct Hsh as [H|H]; rewrite H; eauto. }
    rewrite (div_core_unfold (Zpos m) e 4503599627370496 (-51) e' sh He' Hsh1).
    rewrite Z.shiftl_mul_pow2 by lia.
    assert (Zpos m * 2 ^ Zpos sh = (Zpos m * 2 ^ (Zpos sh - 52)) * 4503599627370496) as Hmul.
    { change 4503599627370496 with (2 ^ 52). rewrite <- Z.mul_assoc, <- Z.pow_add_r by lia.
      f_equal. f_equal. lia. }
    rewrite Hmul, Z.div_mul, Z.mod_mul by lia.
    rewrite new_location_two52. change (0 =? 0) with true. cbv iota.
    set (M := Zpos m * 2 ^ (Zpos sh - 52)).
    assert (0 < 2 ^ (Zpos sh - 52)) as Hp2 by (apply Z.pow_pos_nonneg; lia).
    assert (Zdigits2 M = 53 + (Zpos sh - 52)) as HdM.
    { unfold M. rewrite Zdigits2_mul_pow2 by lia. lia. }
    assert (fexp 53 1024 (Zdigits2 M + e') = e - 1) as Hf.
    { rewrite HdM, fexp_eq. lia. }
    assert (e - 1 - e' = Zpos sh - 52) as Hn by lia.
    destruct (round_spec s M e' loc_Exact ltac:(lia) ltac:(lia)
                ltac:(rewrite Hf; lia) ltac:(now left))
      as (d & Hd01 & Hd0 & Hr & Hb & Hc).
    rewrite Hf, Hn in *.
    assert (M / 2 ^ (Zpos sh - 52) = Zpos m) as Hq by (unfold M; apply Z.div_mul; lia).
    assert (M mod 2 ^ (Zpos sh - 52) = 0) as Hmod by (unfold M; apply Z.mod_mul; lia).
    rewrite (Hd0 eq_refl Hmod), Hq, Z.add_0_r in *.
    rewrite Hr.
    destruct (pack_spec s (Zpos m) (e - 1) Hb ltac:(lia) Hc)
      as [[Hinf|(Hv & Hfin & Hs)] Hni]; [exfalso; apply Hni; [lia|exact Hinf]|].
    split; [exact Hv|]. split; [exact Hfin|]. rewrite Hs.
    unfold Float64.scaled.
    replace (e + 1074) with (Z.succ (e - 1 + 1074)) by lia.
    rewrite Z.pow_succ_r by lia.
    destruct s; simpl cond_Zopp; lia.
Qed.

End Halving.

Section Order.

Lemma scaled_lt_exp (m1 m2 : positive) (e1 e2 : Z) :
  Rounding.canon (Zpos m1) e1 -> Rounding.canon (Zpos m2) e2 -> e1 < e2 ->
  Zpos m1 * 2 ^ (e1 + 1074) < Zpos m2 * 2 ^ (e2 + 1074).
Proof.
  intros C1 C2 Hlt.
  pose proof (canon_lt _ _ C1) as L1. pose proof (canon_emin _ _ C1) as M1.
  destruct C2 as [[H _]|[_ C2]]; [discriminate|]. rewrite fexp_eq in C2.
  assert (Zdigits2 (Zpos m2) = 53) as Hd by lia.
  pose proof (Zdigits2_bounds (Zpos m2) ltac:(lia)) as [Lo _]. rewrite Hd in Lo.
  change (2 ^ (53 - 1)) with 4503599627370496 in Lo.
  assert (0 < 2 ^ (e1 + 1074)) as Hp by (apply Z.pow_pos_nonneg; lia).
  assert (2 * 2 ^ (e1 + 1074) <= 2 ^ (e2 + 1074)) as Hpow.
  { rewrite <- Z.pow_succ_r by lia. apply Z.pow_le_mono_r; lia. }
  nia.
Qed.

Lemma compare_scaled_pos (m1 m2 : positive) (e1 e2 : Z) :
  Rounding.canon (Zpos m1) e1 -> Rounding.canon (Zpos m2) e2 ->
  match e1 ?= e2 with
  | Lt => Lt
  | Gt => Gt
  | Eq => Pos.compare_cont Eq m1 m2
  end = (Zpos m1 * 2 ^ (e1 + 1074) ?= Zpos m2 * 2 ^ (e2 + 1074)).
Proof.
  intros C1 C2. destruct (Z.compare_spec e1 e2) as [->|H|H].
  - pose proof (canon_emin _ _ C2) as M2.
    assert (0 < 2 ^ (e2 + 1074)) as Hp by (apply Z.pow_pos_nonneg; lia).
    change (Pos.compare_cont Eq m1 m2) with (Zpos m1 ?= Zpos m2).
    apply Zmult_compare_compat_r. lia.
  - symmetry. apply Z.compare_lt_iff. now apply scaled_lt_exp.
  - symmetry. apply Z.compare_gt_iff. now apply scaled_lt_exp.
Qed.

Lemma SFcompare_scaled (x y : Float64.t) :
  Float64.valid x = true -> Float64.valid y = true ->
  Float64.is_finite x = true -> Float64.is_finite y = true ->
  SFcompare x y = Some (Float64.scaled x ?= Float64.scaled y).
Proof.
  intros Vx Vy Fx Fy.
  destruct x as [sx|sx| |sx mx ex]; try discriminate;
    destruct y as [sy|sy| |sy my ey]; try discriminate.
  - reflexivity.
  - apply valid_finite_inv in Vy as [Cy _]. pose proof (canon_emin _ _ Cy).
    assert (0 < 2 ^ (ey + 1074)) by (apply Z.pow_pos_nonneg; lia).
    unfold Float64.scaled. simpl SFcompare. f_equal. symmetry.
    destruct sy; simpl cond_Zopp; [apply Z.compare_gt_iff|apply Z.compare_lt_iff]; lia.
  - apply valid_finite_inv in Vx as [Cx _]. pose proof (canon_emin _ _ Cx).
    assert (0 < 2 ^ (ex + 1074)) by (apply Z.pow_pos_nonneg; lia).
    unfold Float64.scaled. simpl SFcompare. f_equal. symmetry.
    destruct sx; simpl cond_Zopp; [apply Z.compare_lt_iff|apply Z.compare_gt_iff]; lia.
  - apply valid_finite_inv in Vx as [Cx _], Vy as [Cy _].
    pose proof (canon_emin _ _ Cx). pose proof (canon_emin _ _ Cy).
    assert (0 < 2 ^ (ex + 1074)) by (apply Z.pow_pos_nonneg; lia).
    assert (0 < 2 ^ (ey + 1074)) by (apply Z.pow_pos_nonneg; lia).
    unfold Float64.scaled. simpl SFcompare. f_equal.
    destruct sx, sy; simpl cond_Zopp.
    + rewrite Z.compare_opp.
      rewrite <- (compare_scaled_pos my mx ey ex Cy Cx).
      rewrite (Z.compare_antisym ey ex).
      destruct (ey ?= ex); simpl; try reflexivity.
      rewrite (Pos.compare_cont_antisym mx my Eq). reflexivity.
    + symmetry. apply Z.compare_lt_iff. lia.
    + symmetry. apply Z.compare_gt_iff. lia.
    + apply compare_scaled_pos; assumption.
Qed.

Lemma leb_scaled (x y : Float64.t) :
  Float64.valid x = true -> Float64.valid y = true ->
  Float64.is_finite x = true -> Float64.is_finite y = true ->
  Float64.leb x y = true <-> Float64.scaled x <= Float64.scaled y.
Proof.
  intros Vx Vy Fx Fy. unfold Float64.leb, SFleb.
  rewrite (SFcompare_scaled x y Vx Vy Fx Fy).
  destruct (Z.compare_spec (Float64.scaled x) (Float64.scaled y)); split; intros; try lia;
    try reflexivity; discriminate.
Qed.

Lemma eqb_scaled (x y : Float64.t) :
  Float64.valid x = true -> Float64.valid y = true ->
  Float64.is_finite x = true -> Float64.is_finite y = true ->
  Float64.eqb x y = true <-> Float64.scaled x = Float64.scaled y.
Proof.
  intros Vx Vy Fx Fy. unfold Float64.eqb, SFeqb.
  rewrite (SFcompare_scaled x y Vx Vy Fx Fy).
  destruct (Z.compare_spec (Float64.scaled x) (Float64.scaled y)); split; intros; try lia;
    try reflexivity; discriminate.
Qed.

End Order.


Section Average.

Lemma avg_scaled (x y : Float64.t) :
  Float64.valid x = true -> Float64.valid y = true ->
  Float64.is_finite x = true -> Float64.is_finite y = true ->
  Float64.is_finite (Float64.add x y) = true ->
  Float64.scaled x <= Float64.scaled y ->
  Float64.valid (Dark.avg x y) = true /\ Float64.is_finite (Dark.avg x y) = true /\
  Float64.scaled x <= Float64.scaled (Dark.avg x y) <= Float64.scaled y.
Proof.
  intros Vx Vy Fx Fy Fs Hxy.
  destruct (add_scaled x y Vx Vy Fx Fy) as [[Hinf|Hinf]|(Vs & _ & Hr)];
    try (rewrite Hinf in Fs; discriminate).
  pose proof (rounded_lower _ _ (2 * Float64.scaled x) Hr
                (repr_double _ (repr_scaled x Vx)) ltac:(lia)) as Hlo.
  pose proof (rounded_upper _ _ (2 * Float64.scaled y) Hr
                (repr_double _ (repr_scaled y Vy)) ltac:(lia)) as Hhi.
  destruct (div_two_scaled (Float64.add x y) Vs Fs) as (Va & Fa & Ha).
  unfold Dark.avg. split; [exact Va|]. split; [exact Fa|]. lia.
Qed.

Lemma avg_between (t1 t2 : Float64.t) :
  Float64.valid t1 = true -> Float64.valid t2 = true ->
  Float64.is_finite t1 = true -> Float64.is_finite t2 = true ->
  Float64.is_finite (Float64.add t1 t2) = true ->
  (Float64.leb t1 t2 = true ->
   Float64.leb t1 (Dark.avg t1 t2) = true /\ Float64.leb (Dark.avg t1 t2) t2 = true) /\
  (Float64.leb t2 t1 = true ->
   Float64.leb t2 (Dark.avg t1 t2) = true /\ Float64.leb (Dark.avg t1 t2) t1 = true) /\
  (Float64.eqb t1 t2 = true ->
   Float64.eqb (Dark.avg t1 t2) t1 = true /\ Float64.eqb (Dark.avg t1 t2) t2 = true).
Proof.
  intros V1 V2 F1 F2 Fs.
  assert (Float64.scaled t1 <= Float64.scaled t2 ->
          Float64.valid (Dark.avg t1 t2) = true /\ Float64.is_finite (Dark.avg t1 t2) = true /\
          Float64.scaled t1 <= Float64.scaled (Dark.avg t1 t2) <= Float64.scaled t2) as H12.
  { now apply avg_scaled. }
  assert (Float64.scaled t2 <= Float64.scaled t1 ->
          Float64.valid (Dark.avg t1 t2) = true /\ Float64.is_finite (Dark.avg t1 t2) = true /\
          Float64.scaled t2 <= Float64.scaled (Dark.avg t1 t2) <= Float64.scaled t1) as H21.
  { intros Hle.
    destruct (add_scaled t1 t2 V1 V2 F1 F2) as [[Hinf|Hinf]|(Vs & _ & Hr)];
      try (rewrite Hinf in Fs; discriminate).
    pose proof (rounded_lower _ _ (2 * Float64.scaled t2) Hr
                  (repr_double _ (repr_scaled t2 V2)) ltac:(lia)) as Hlo.
    pose proof (rounded_upper _ _ (2 * Float64.scaled t1) Hr
                  (repr_double _ (repr_scaled t1 V1)) ltac:(lia)) as Hhi.
    destruct (div_two_scaled (Float64.add t1 t2) Vs Fs) as (Va & Fa & Ha).
    unfold Dark.avg. split; [exact Va|]. split; [exact Fa|]. lia. }
  split; [|split].
  - intros Hle. apply leb_scaled in Hle; try assumption.
    destruct (H12 Hle) as (Va & Fa & Hb).
    split; apply leb_scaled; try assumption; lia.
  - intros Hle. apply leb_scaled in Hle; try assumption.
    destruct (H21 Hle) as (Va & Fa & Hb).
    split; apply leb_scaled; try assumption; lia.
  - intros Heq. apply eqb_scaled in Heq; try assumption.
    destruct (H12 ltac:(lia)) as (Va & Fa & Hb).
    split; apply eqb_scaled; try assumption; lia.
Qed.

End Average.

End FloatFacts.

(** ** The average temperature *)

(** C9 (as the spec has it) fails: for two readings equal to the largest
    float, the sum overflows and the average is infinite, which is not
    between the readings and not equal to them. *)
Lemma avg_overflows_at_max_float :
  Float64.valid Float64.max_float = true /\
  Dark.avgtemp_of (HFloat Float64.max_float) (HFloat Float64.max_float)
    = Ok (HFloat Float64.infinity) /\
  Float64.leb (Dark.avg Float64.max_float Float64.max_float) Float64.max_float = false /\
  Dark.avg Float64.max_float Float64.max_float <> Float64.max_float.
Proof.
  split; [reflexivity|]. split; [reflexivity|]. split; [reflexivity|].
  vm_compute. discriminate.
Qed.

(** C9 (as the code has it).  The average of a row is the binary64
    value of [(t1 + t2) / 2] for its two readings.  When the readings are
    binary64 numbers whose sum does not overflow, it lies between the
    smaller and the larger reading, and it is equal to both when they
    are equal. *)
Theorem avgtemp_between_readings_when_sum_finite
    {pix : Type} (to_S : nat -> hval -> string) (disk : Fs.t pix) (file : string)
    (r : Dark.row) :
  Dark.row_of to_S disk file r ->
  Float64.valid (Dark.mdecodt1 r) = true ->
  Float64.valid (Dark.mdecodt2 r) = true ->
  Float64.is_finite (Dark.mdecodt1 r) = true ->
  Float64.is_finite (Dark.mdecodt2 r) = true ->
  Float64.is_finite (Float64.add (Dark.mdecodt1 r) (Dark.mdecodt2 r)) = true ->
  Dark.avgtemp r = Dark.avg (Dark.mdecodt1 r) (Dark.mdecodt2 r) /\
  (Float64.leb (Dark.mdecodt1 r) (Dark.mdecodt2 r) = true ->
   Float64.leb (Dark.mdecodt1 r) (Dark.avgtemp r) = true /\
   Float64.leb (Dark.avgtemp r) (Dark.mdecodt2 r) = true) /\
  (Float64.leb (Dark.mdecodt2 r) (Dark.mdecodt1 r) = true ->
   Float64.leb (Dark.mdecodt2 r) (Dark.avgtemp r) = true /\
   Float64.leb (Dark.avgtemp r) (Dark.mdecodt1 r) = true) /\
  (Float64.eqb (Dark.mdecodt1 r) (Dark.mdecodt2 r) = true ->
   Float64.eqb (Dark.avgtemp r) (Dark.mdecodt1 r) = true /\
   Float64.eqb (Dark.avgtemp r) (Dark.mdecodt2 r) = true).
Proof.
  intros (filt & date & time & t1 & t2 & _ & _ & _ & _ & _ & ->).
  cbn [Dark.mdecodt1 Dark.mdecodt2 Dark.avgtemp].
  intros V1 V2 F1 F2 Fs. split; [reflexivity|].
  now apply avg_between.
Qed.

Lemma avgtemp_on_sample :
  Dark.row_of Sample.to_S Sample.working "jcmc11ctq_flt.fits" Sample.flt_row /\
  Float64.valid Sample.temp1 = true /\ Float64.valid Sample.temp2 = true /\
  Float64.leb Sample.temp1 Sample.temp2 = true /\
  Float64.leb Sample.temp1 (Dark.avgtemp Sample.flt_row) = true /\
  Float64.leb (Dark.avgtemp Sample.flt_row) Sample.temp2 = true.
Proof.
  assert (Dark.row_of Sample.to_S Sample.working "jcmc11ctq_flt.fits" Sample.flt_row)
    as Hrow.
  { exists "F165LP", "2015-05-07", "11:43:07", Sample.temp1, Sample.temp2.
    repeat split; vm_compute; reflexivity. }
  split; [exact Hrow|].
  split; [reflexivity|]. split; [reflexivity|]. split; [reflexivity|].
  apply (avgtemp_between_readings_when_sum_finite Sample.to_S Sample.working
           "jcmc11ctq_flt.fits" Sample.flt_row Hrow); reflexivity.
Defined.

(** ** The cells on the sample disk *)

Lemma triple_plot_pam_on_sample :
  Fs.getdata Sample.working "jcmc11ctq_flt.fits" (Some 1) = Ok [[1; 2]; [3; 4]]%Z /\
  Fs.getdata Sample.working "wfc2_pam.fits" None = Ok [[10; 20]; [30; 40]]%Z /\
  exists c,
    Pam.triple_plot_pam Z.mul Sample.working "jcmc11ctq_flt.fits" "wfc2_pam.fits"
      "WFC2 PAM Correction Results" (Pam.State [] []) =
      (Ok tt,
       Pam.State ([] ++ [[[1; 2]; [3; 4]]; [[10; 20]; [30; 40]]; c]%Z)
         ([] ++
          [Pam.Figure "WFC2 PAM Correction Results"
             [Pam.Panel "Raw" (Some 0); Pam.Panel "Pixel Area Map" (Some 1);
              Pam.Panel "Raw x Pixel Area Map" (Some 2)]])) /\
    nrows c = 2 /\
    (forall i j x y,
       pixel [[1; 2]; [3; 4]]%Z i j = Some x ->
       pixel [[10; 20]; [30; 40]]%Z i j = Some y ->
       pixel c i j = Some (x * y)%Z) /\
    (forall i j, pixel c i j = None <-> pixel [[1; 2]; [3; 4]]%Z i j = None).
Proof.
  split; [reflexivity|]. split; [reflexivity|].
  apply (triple_plot_pam_multiplies_elementwise Z.mul Sample.working
           "jcmc11ctq_flt.fits" "wfc2_pam.fits" "WFC2 PAM Correction Results"
           [[1; 2]; [3; 4]]%Z [[10; 20]; [30; 40]]%Z (Pam.State [] []));
    reflexivity.
Defined.

Lemma dark1_cell_on_sample :
  Str.resolve "dark1.fits" <> Str.resolve "jcmc11ctq_flt.fits" /\
  Str.resolve "dark1.fits" <> Str.resolve "jcrx01iiq_raw.fits" /\
  Fs.files Sample.working !! Str.resolve "jcmc11ctq_flt.fits" = Some Sample.flt_file /\
  Dark.dark1_cell (fun x => x) Sample.working =
    (Ok tt, snd (Dark.dark1_cell (fun x => x) Sample.working)) /\
  Dark.dark_cell_post (fun x => x) Sample.working
    (snd (Dark.dark1_cell (fun x => x) Sample.working))
    "jcmc11ctq_flt.fits" "jcrx01iiq_raw.fits" "dark1.fits" Sample.flt_file.
Proof.
  split; [vm_compute; discriminate|].
  split; [vm_compute; discriminate|].
  split; [vm_compute; reflexivity|].
  split; [vm_compute; reflexivity|].
  apply dark_cell_changes_only_sci_data_and_exptime.
  - vm_compute; discriminate.
  - vm_compute; discriminate.
  - vm_compute; reflexivity.
  - vm_compute; reflexivity.
Defined.


Example build_table_on_sample :
  Dark.flt_list Sample.working = ["jcmc11ctq_flt.fits"] /\
  Dark.build_table Sample.to_S Sample.working = (Ok tt, [Sample.flt_row]).
Proof. split; vm_compute; reflexivity. Qed.

Example build_table_on_downloaded :
  Dark.flt_list Sample.downloaded = [] /\
  Dark.table_loop Sample.to_S Sample.downloaded
    ["jcmc11ctq_flt.fits"] [Sample.flt_row] =
    (Raise (FileNotFoundError "jcmc11ctq_flt.fits"), [Sample.flt_row]).
Proof. split; vm_compute; reflexivity. Qed.

Example sort_three_rows :
  List.map Dark.file (Dark.sort_avgtemp Sample.three_rows) = ["a"; "b"; "c"].
Proof. vm_compute. reflexivity. Qed.

Example housekeeping_overwrites_on_clash :
  exists disk',
    Housekeeping.pam_notebook_cell Sample.clash_table Sample.clash_disk = (Ok tt, disk') /\
    Fs.files disk' !! ["x_flt.fits"] = Some Sample.raw_file /\
    size (Fs.files disk') = 1.
Proof. eexists. split; [vm_compute; reflexivity|]. split; vm_compute; reflexivity. Qed.

Example housekeeping_stops_at_missing_file :
  exists disk',
    Housekeeping.pam_notebook_cell Sample.missing_table Sample.downloaded =
      (Raise (FileNotFoundError "./mastDownload/HST/jcmc11e6q/jcmc11e6q_flt.fits"), disk') /\
    Fs.files disk' !! ["jcmc11ctq_flt.fits"] = Some Sample.flt_file /\
    Fs.files disk' !! ["mastDownload"; "HST"; "jcrx01iiq"; "jcrx01iiq_raw.fits"]
      = Some Sample.raw_file /\
    ["mastDownload"] ∈ Fs.dirs disk'.
Proof.
  eexists. split; [vm_compute; reflexivity|].
  split; [vm_compute; reflexivity|]. split; [vm_compute; reflexivity|].
  vm_compute. set_solver.
Qed.

Example box_sums_on_sample :
  Dark.box_sums Sample.np_sum Sample.working ["./jcrx01iiq_raw.fits"] [] =
  (Ok tt, [("jcrx01iiq_raw.fits", 0%Z)]) /\
  Dark.cut [[1; 2]; [3; 4]]%Z = [].
Proof. split; vm_compute; reflexivity. Qed.

(** ** Paths *)

Example basename_ex :
  Str.basename "./mastDownload/HST/jcmc11010/jcmc11010_asn.fits" = "jcmc11010_asn.fits"
  /\ Str.basename "a/b/" = "" /\ Str.basename "x.fits" = "x.fits"
  /\ Str.resolve "./mastDownload/HST/jcmc11010/jcmc11010_asn.fits" = ["mastDownload"; "HST"; "jcmc11010"; "jcmc11010_asn.fits"]
  /\ Str.resolve "mastDownload/" = ["mastDownload"]
  /\ Str.upper "exptime" = "EXPTIME"
  /\ Str.ends_with "_flt.fits" "jcmc11ctq_flt.fits" = true
  /\ Str.ends_with "_flt.fits" "jcmc11ctq_flt.fits.gz" = false.
Proof. repeat split; vm_compute; reflexivity. Qed.

(** * Further properties *)

(** ** More on paths *)

Lemma basename_of_no_slash (p : string) :
  Str.no_slash p = true -> Str.basename p = p.
Proof.
  intros H. unfold Str.basename. now rewrite split_slash_of_no_slash.
Qed.

Lemma resolve_proper_name (n : string) :
  Fs.proper_name n -> Str.resolve n = [n].
Proof.
  intros (Hs & He & Hd). rewrite (resolve_no_slash n Hs).
  destruct (String.eqb_spec n ""); [contradiction|].
  destruct (String.eqb_spec n "."); [contradiction|]. reflexivity.
Qed.

Lemma ends_with_length (suf s : string) :
  Str.ends_with suf s = true -> String.length suf <= String.length s.
Proof.
  induction s as [|c r IH]; simpl.
  - rewrite orb_false_r. intros H. apply String.eqb_eq in H. now subst.
  - intros H. apply orb_true_iff in H as [H|H].
    + apply String.eqb_eq in H. now subst.
    + specialize (IH H). lia.
Qed.

Lemma ends_with_same_length (a b s : string) :
  Str.ends_with a s = true -> Str.ends_with b s = true ->
  String.length a = String.length b -> a = b.
Proof.
  induction s as [|c r IH]; simpl.
  - rewrite !orb_false_r. intros Ha Hb _.
    apply String.eqb_eq in Ha, Hb. congruence.
  - intros Ha Hb Hl.
    apply orb_true_iff in Ha as [Ha|Ha]; apply orb_true_iff in Hb as [Hb|Hb].
    + apply String.eqb_eq in Ha, Hb. congruence.
    + apply String.eqb_eq in Ha. apply ends_with_length in Hb. subst a. simpl in Hl. lia.
    + apply String.eqb_eq in Hb. apply ends_with_length in Ha. subst b. simpl in Hl. lia.
    + now apply IH.
Qed.

Lemma last_with_basename (tbl : list string) (b : string) :
  (exists q, q ∈ tbl /\ Str.basename q = b) ->
  exists pre p post,
    tbl = pre ++ p :: post /\ Str.basename p = b /\
    (forall q, q ∈ post -> Str.basename q <> Str.basename p).
Proof.
  induction tbl as [|x t IH]; intros (q & Hq & Hb).
  - inversion Hq.
  - destruct (decide (Exists (fun q => Str.basename q = b) t)) as [Hex|Hno].
    + apply Exists_exists in Hex. destruct (IH Hex) as (pre & p & post & -> & Hp & Hlast).
      exists (x :: pre), p, post. auto.
    + exists [], x, t. apply elem_of_cons in Hq as [->|Hq].
      * split; [reflexivity|]. split; [exact Hb|].
        intros q' Hq' Heq. apply Hno, Exists_exists. exists q'. split; [exact Hq'|congruence].
      * exfalso. apply Hno, Exists_exists. eauto.
Qed.

Section HousekeepingMore.
Context {pix : Type}.





Lemma cell_rerun (root_name : string) (tbl : list string) (disk disk' : Fs.t pix) :
  Str.resolve root_name = Housekeeping.download_root ->
  Forall Housekeeping.downloaded tbl ->
  St.bind (Housekeeping.move_all tbl) (fun _ => St.update (Fs.rmtree root_name)) disk
    = (Ok tt, disk') ->
  St.bind (Housekeeping.move_all tbl) (fun _ => St.update (Fs.rmtree root_name)) disk'
    = (Raise (FileNotFoundError (List.hd root_name tbl)), disk').
Proof.
  intros Hroot Hdl H.
  destruct (cell_ok root_name tbl disk disk' Hroot Hdl H) as (_ & Hgone & _).
  destruct tbl as [|p tbl].
  - unfold St.bind, Housekeeping.move_all. simpl. unfold St.ret, St.update, Fs.rmtree.
    assert (Fs.under Housekeeping.download_root Housekeeping.download_root = true) as Hu.
    { unfold Fs.under. now apply bool_decide_eq_true. }
    destruct (Hgone _ Hu) as [Hnone Hnot].
    rewrite Hroot, bool_decide_eq_false_2 by exact Hnot. now rewrite Hnone.
  - inversion Hdl as [|? ? Hp _]; subst.
    unfold St.bind, Housekeeping.move_all. rewrite for_each_cons.
    unfold Housekeeping.move_row, St.update, Fs.rename.
    destruct (Hgone _ Hp) as [-> _]. reflexivity.
Qed.

(** X2.  Housekeeping cannot be run twice: after a run that succeeded, a
    second run of the same cell raises FileNotFoundError, for the first
    listed file or, when the table is empty, for the download directory,
    and leaves the disk as the first run left it. *)
Theorem housekeeping_rerun_raises
    (tbl sci drk : list string) (disk disk' : Fs.t pix) :
  Forall Housekeeping.downloaded tbl ->
  (Housekeeping.pam_notebook_cell tbl disk = (Ok tt, disk') ->
   Housekeeping.pam_notebook_cell tbl disk' =
     (Raise (FileNotFoundError (List.hd "mastDownload" tbl)), disk')) /\
  (tbl = sci ++ drk ->
   Housekeeping.dark_notebook_cell sci drk disk = (Ok tt, disk') ->
   Housekeeping.dark_notebook_cell sci drk disk' =
     (Raise (FileNotFoundError (List.hd "mastDownload/" tbl)), disk')).
Proof.
  intros Hdl. split.
  - now apply (cell_rerun "mastDownload").
  - intros -> H. rewrite dark_cell_flat in H. rewrite dark_cell_flat.
    now apply (cell_rerun "mastDownload/" _ disk).
Qed.

(** X3.  A row whose path is already a bare name of the working directory
    stays where it is: renaming a file to itself changes nothing, and
    the loop goes on. *)
Theorem move_row_of_bare_name_is_noop (p : string) (f : hdulist pix) (disk : Fs.t pix) :
  Fs.proper_name p ->
  Fs.files disk !! [p] = Some f ->
  [p] ∉ Fs.dirs disk ->
  Housekeeping.move_row p disk = (Ok tt, disk).
Proof.
  intros Hp Hf Hd.
  unfold Housekeeping.move_row, St.update, Fs.rename.
  rewrite (basename_of_no_slash p) by apply Hp.
  rewrite (resolve_proper_name p Hp), Hf.
  unfold Fs.is_dir. rewrite bool_decide_eq_false_2 by discriminate.
  rewrite bool_decide_eq_false_2 by exact Hd. simpl.
  rewrite insert_delete_eq, insert_id by exact Hf.
  now destruct disk.
Qed.

Lemma cell_moved_basename (tbl : list string) (disk disk' : Fs.t pix) (p : string) :
  Housekeeping.moved tbl disk disk' -> p ∈ tbl ->
  is_Some (Fs.files disk' !! [Str.basename p]).
Proof.
  intros (Hmoved & _) Hp.
  destruct (last_with_basename tbl (Str.basename p)) as (pre & p' & post & Heq & Hb & Hlast);
    [eauto|].
  destruct (Hmoved pre p' post Heq Hlast) as [Hsome Hfile].
  rewrite <- Hb, Hfile. exact Hsome.
Qed.

(** X4.  What housekeeping moved is what the next cell finds: after a run
    that succeeded, the name of every downloaded product that is not
    hidden is in the list of the pattern it matches. *)
Theorem moved_files_are_found_by_glob
    (tbl sci drk : list string) (disk disk' : Fs.t pix) (p : string) :
  Forall Housekeeping.downloaded tbl ->
  Housekeeping.pam_notebook_cell tbl disk = (Ok tt, disk') \/
  (tbl = sci ++ drk /\ Housekeeping.dark_notebook_cell sci drk disk = (Ok tt, disk')) ->
  p ∈ tbl ->
  Str.starts_with "." (Str.basename p) = false ->
  (Str.ends_with "_asn.fits" (Str.basename p) = true -> Str.basename p ∈ Dark.asn_list disk') /\
  (Str.ends_with "_flt.fits" (Str.basename p) = true -> Str.basename p ∈ Dark.flt_list disk') /\
  (Str.ends_with "_raw.fits" (Str.basename p) = true -> Str.basename p ∈ Dark.drk_list disk').
Proof.
  intros Hdl Hrun Hp Hvis.
  assert (Housekeeping.moved tbl disk disk') as Hm.
  { destruct Hrun as [H|[-> H]].
    - now apply (cell_ok "mastDownload").
    - rewrite dark_cell_flat in H. now apply (cell_ok "mastDownload/"). }
  pose proof (listdir_file _ _ (cell_moved_basename _ _ _ _ Hm Hp)) as Hl.
  unfold Dark.asn_list, Dark.flt_list, Dark.drk_list.
  repeat split; intros He; apply glob_suffix_spec; auto.
Qed.

(** X5.  The three lists of the dark-analysis notebook name each entry once,
    and no entry is in two of them: a file is an association, a
    calibrated exposure or a raw exposure. *)
Theorem glob_lists_are_disjoint (disk : Fs.t pix) :
  NoDup (Dark.asn_list disk) /\ NoDup (Dark.flt_list disk) /\ NoDup (Dark.drk_list disk) /\
  (forall n, n ∈ Dark.asn_list disk -> (n ∉ Dark.flt_list disk) /\ (n ∉ Dark.drk_list disk)) /\
  (forall n, n ∈ Dark.flt_list disk -> (n ∉ Dark.drk_list disk)).
Proof.
  unfold Dark.asn_list, Dark.flt_list, Dark.drk_list.
  split; [apply glob_suffix_NoDup|]. split; [apply glob_suffix_NoDup|].
  split; [apply glob_suffix_NoDup|].
  split; [intros n Hn; split|intros n Hn]; intros Hn';
    apply glob_suffix_spec in Hn as (_ & _ & H1);
    apply glob_suffix_spec in Hn' as (_ & _ & H2);
    pose proof (ends_with_same_length _ _ _ H1 H2 eq_refl); discriminate.
Qed.

End HousekeepingMore.

Section TableMore.
Context {pix : Type}.
Variable to_S : nat -> hval -> string.

Lemma row_of_file (disk : Fs.t pix) (files : list string) (rows : Dark.table) :
  Forall2 (Dark.row_of to_S disk) files rows ->
  Dark.file <$> rows = (fun f => to_S 64 (HStr f)) <$> files.
Proof.
  induction 1 as [|f r files rows Hr _ IH]; [reflexivity|].
  rewrite !fmap_cons, IH. f_equal.
  destruct Hr as (? & ? & ? & ? & ? & _ & _ & _ & _ & _ & ->). reflexivity.
Qed.

Lemma row_of_avgtemp (disk : Fs.t pix) (files : list string) (rows : Dark.table) :
  Forall2 (Dark.row_of to_S disk) files rows ->
  Forall (fun r => Dark.avgtemp r = Dark.avg (Dark.mdecodt1 r) (Dark.mdecodt2 r)) rows.
Proof.
  induction 1 as [|f r files rows Hr _ IH]; constructor; [|exact IH].
  destruct Hr as (? & ? & ? & ? & ? & _ & _ & _ & _ & _ & ->). reflexivity.
Qed.

(** X6.  The cell with the loop does not start from an empty table: the table
    is made by the cell before it.  Run a second time on the same disk,
    the loop adds every row once more. *)
Theorem table_loop_run_twice_doubles_rows (disk : Fs.t pix) (t : Dark.table) :
  Dark.build_table to_S disk = (Ok tt, t) ->
  Dark.table_loop to_S disk (Dark.flt_list disk) t = (Ok tt, t ++ t) /\
  length (t ++ t) = 2 * length (Dark.flt_list disk).
Proof.
  unfold Dark.build_table. intros H.
  apply table_loop_ok in H as (rows & Hrows & ->). simpl. split.
  - apply table_loop_ok. eauto.
  - rewrite length_app, <- (Forall2_length _ _ _ Hrows). lia.
Qed.

Lemma getval_raise (disk : Fs.t pix) (file key : string) (n : nat) (e : exn) :
  Fs.getval disk file key n = Raise e ->
  Fs.open disk file = Raise e \/ e = IndexError \/ e = KeyError key.
Proof.
  unfold Fs.getval. destruct (Fs.open disk file) as [f|e0]; simpl;
    [|intros H; injection H as <-; auto].
  unfold getval_of, ext. destruct (f !! n) as [h|]; simpl.
  - unfold header_get. destruct (hlookup _ _); [discriminate|].
    intros H. injection H as <-. auto.
  - intros H. injection H as <-. auto.
Qed.

Lemma table_row_raise_keys (disk : Fs.t pix) (file : string) (tbl tbl' : Dark.table)
    (e : exn) :
  Dark.table_row to_S disk file tbl = (Raise e, tbl') ->
  Fs.open disk file = Raise e \/ e = IndexError \/ e = TypeError \/ e = ValueError \/
  exists key, key ∈ ["FILTER1"; "DATE-OBS"; "TIME-OBS"; "MDECODT1"; "MDECODT2"] /\
              e = KeyError key.
Proof.
  unfold Dark.table_row, Dark.add_row, Dark.to_str, St.bind, St.lift,
    Dark.starttime_of, Dark.avgtemp_of.
  destruct (Fs.getval disk file "FILTER1" 0) as [filt|] eqn:E1.
  2:{ intros H; injection H as <- <-.
      destruct (getval_raise _ _ _ _ _ E1) as [?|[?|?]]; auto.
      do 4 right. eexists. split; [|eassumption]. set_solver. }
  destruct (Fs.getval disk file "DATE-OBS" 0) as [date|] eqn:E2.
  2:{ intros H; injection H as <- <-.
      destruct (getval_raise _ _ _ _ _ E2) as [?|[?|?]]; auto.
      do 4 right. eexists. split; [|eassumption]. set_solver. }
  destruct (Fs.getval disk file "TIME-OBS" 0) as [time|] eqn:E3.
  2:{ intros H; injection H as <- <-.
      destruct (getval_raise _ _ _ _ _ E3) as [?|[?|?]]; auto.
      do 4 right. eexists. split; [|eassumption]. set_solver. }
  destruct (Fs.getval disk file "MDECODT1" 1) as [t1|] eqn:E4.
  2:{ intros H; injection H as <- <-.
      destruct (getval_raise _ _ _ _ _ E4) as [?|[?|?]]; auto.
      do 4 right. eexists. split; [|eassumption]. set_solver. }
  destruct (Fs.getval disk file "MDECODT2" 1) as [t2|] eqn:E5.
  2:{ intros H; injection H as <- <-.
      destruct (getval_raise _ _ _ _ _ E5) as [?|[?|?]]; auto.
      do 4 right. eexists. split; [|eassumption]. set_solver. }
  destruct date, time, t1, t2, filt; simpl; intros H;
    try discriminate; injection H as <- <-; auto.
Qed.

End TableMore.

Section GlobMore.
Context {pix : Type}.
Variable to_S : nat -> hval -> string.

Lemma open_listed (n : string) (d : Fs.t pix) :
  Fs.wf d -> n ∈ Fs.listdir d ->
  (exists f, Fs.open d n = Ok f) \/ Fs.open d n = Raise (IsADirectoryError n).
Proof.
  intros Hwf Hn. apply listdir_inv in Hn.
  pose proof (Hwf _ Hn) as Hp. inversion Hp as [|? ? Hp' _]; subst.
  unfold Fs.open. rewrite (resolve_proper_name n Hp').
  destruct (Fs.is_dir d [n]) eqn:Ed; [now right|left].
  unfold Fs.is_dir in Ed. apply orb_false_iff in Ed as [_ Ed].
  apply bool_decide_eq_false in Ed.
  apply elem_of_union in Hn as [Hn|Hn]; [|contradiction].
  apply elem_of_dom in Hn as [f Hf]. rewrite Hf. eauto.
Qed.

(** X7.  On a disk that does not change between the two cells, the loop
    cannot fail for a missing file: every name it is given was listed by
    [glob].  It stops at the first file that is a directory, has no
    extension 1, lacks one of the five keywords, holds a date, a time
    or a temperature of the wrong type, or has a filter that is not a
    string, which [add_row] refuses with ValueError; the rows of the
    files before it are in the table. *)
Theorem table_cell_raises_only_for_bad_files (disk : Fs.t pix) (e : exn) (t : Dark.table) :
  Fs.wf disk ->
  Dark.build_table to_S disk = (Raise e, t) ->
  exists pre file post,
    Dark.flt_list disk = pre ++ file :: post /\
    Forall2 (Dark.row_of to_S disk) pre t /\
    (e = IsADirectoryError file \/ e = IndexError \/ e = TypeError \/ e = ValueError \/
     exists key, key ∈ ["FILTER1"; "DATE-OBS"; "TIME-OBS"; "MDECODT1"; "MDECODT2"] /\
                 e = KeyError key).
Proof.
  intros Hwf. unfold Dark.build_table, Dark.table_loop. intros H.
  apply for_each_raise in H as (pre & file & post & t0 & Heq & Hpre & Hf).
  exists pre, file, post. split; [exact Heq|].
  apply (table_loop_ok to_S) in Hpre as (rows & Hrows & ->).
  destruct (proj1 (table_row_raise _ _ _ _ _ _) Hf) as [-> _]. simpl.
  split; [exact Hrows|].
  destruct (table_row_raise_keys _ _ _ _ _ _ Hf) as [Ho|H]; [|now right].
  left.
  assert (file ∈ Fs.listdir disk) as Hl.
  { assert (file ∈ Dark.flt_list disk) as Hin.
    { rewrite Heq. apply elem_of_app. right. left. }
    now apply glob_suffix_spec in Hin as [Hin _]. }
  destruct (open_listed file disk Hwf Hl) as [[f Hok]|Hdir]; congruence.
Qed.

End GlobMore.

(** X8.  The average is the same whichever of the two readings comes first. *)
Theorem avg_comm (t1 t2 : Float64.t) : Dark.avg t1 t2 = Dark.avg t2 t1.
Proof.
  unfold Dark.avg. f_equal. unfold Float64.add, SFadd.
  destruct t1 as [s1|s1| |s1 m1 e1], t2 as [s2|s2| |s2 m2 e2]; try reflexivity.
  - destruct s1, s2; reflexivity.
  - destruct s1, s2; reflexivity.
  - cbv zeta. rewrite (Z.min_comm e2 e1). f_equal. apply Z.add_comm.
Qed.

Lemma div_infinity_two (s : bool) :
  Float64.div (S754_infinity s) Float64.two = S754_infinity s.
Proof. destruct s; reflexivity. Qed.

Lemma finite_not_nan (x : Float64.t) : Float64.is_finite x = true -> Float64.is_nan x = false.
Proof. now destruct x. Qed.

Lemma avg_not_nan (t1 t2 : Float64.t) :
  Float64.valid t1 = true -> Float64.valid t2 = true ->
  Float64.is_finite t1 = true -> Float64.is_finite t2 = true ->
  Float64.is_nan (Dark.avg t1 t2) = false.
Proof.
  intros V1 V2 F1 F2. unfold Dark.avg.
  destruct (add_scaled t1 t2 V1 V2 F1 F2) as [[Hinf|Hinf]|(Vs & Fs & _)];
    try (rewrite Hinf, div_infinity_two; reflexivity).
  now apply finite_not_nan, div_two_scaled.
Qed.

(** X9.  Two finite readings never give a NaN: their average is a number, or
    an infinity when the sum overflows. *)
Theorem avg_of_finite_readings_is_not_nan (t1 t2 : Float64.t) :
  Float64.valid t1 = true -> Float64.valid t2 = true ->
  Float64.is_finite t1 = true -> Float64.is_finite t2 = true ->
  Float64.is_nan (Dark.avg t1 t2) = false /\
  (Float64.is_finite (Float64.add t1 t2) = true ->
   Float64.valid (Dark.avg t1 t2) = true /\ Float64.is_finite (Dark.avg t1 t2) = true) /\
  (Float64.is_finite (Float64.add t1 t2) = false ->
   Dark.avg t1 t2 = Float64.add t1 t2 /\
   (Dark.avg t1 t2 = S754_infinity false \/ Dark.avg t1 t2 = S754_infinity true)).
Proof.
  intros V1 V2 F1 F2. unfold Dark.avg.
  destruct (add_scaled t1 t2 V1 V2 F1 F2) as [[Hinf|Hinf]|(Vs & Fs & _)].
  - rewrite Hinf, div_infinity_two. repeat split; try discriminate; auto.
  - rewrite Hinf, div_infinity_two. repeat split; try discriminate; auto.
  - destruct (div_two_scaled _ Vs Fs) as (Va & Fa & _).
    split; [now apply finite_not_nan|]. split; [auto|].
    intros H. congruence.
Qed.

Lemma avg_of_finite_readings_on_max_float :
  Float64.is_nan (Dark.avg Float64.max_float Float64.max_float) = false /\
  (Float64.is_finite (Float64.add Float64.max_float Float64.max_float) = false ->
   Dark.avg Float64.max_float Float64.max_float
     = Float64.add Float64.max_float Float64.max_float /\
   (Dark.avg Float64.max_float Float64.max_float = S754_infinity false \/
    Dark.avg Float64.max_float Float64.max_float = S754_infinity true)).
Proof.
  destruct (avg_of_finite_readings_is_not_nan Float64.max_float Float64.max_float)
    as (H1 & _ & H3); try reflexivity.
  split; assumption.
Defined.

(** ** The sorted table, row against row *)

Lemma StronglySorted_lookup {A} (R : A -> A -> Prop) (l : list A) (i j : nat) (x y : A) :
  StronglySorted R l -> i < j -> l !! i = Some x -> l !! j = Some y -> R x y.
Proof.
  intros Hs. revert i j. induction Hs as [|a l Hs IH Hall]; intros i j Hij Hi Hj.
  - discriminate.
  - destruct j as [|j]; [lia|]. destruct i as [|i].
    + simpl in Hi, Hj. injection Hi as <-.
      rewrite List.Forall_forall in Hall. apply Hall.
      apply list_elem_of_In. eapply list_elem_of_lookup_2, Hj.
    + simpl in Hi, Hj. apply (IH i j); [lia|assumption|assumption].
Qed.

(** X10.  In a sorted table of finite averages every row is at most as warm
    as every row below it: the first row is the coolest exposure and the
    last one the warmest. *)
Theorem sorted_rows_are_ordered_pairwise (t : Dark.table) (i j : nat) (ri rj : Dark.row) :
  Forall Dark.finite_avgtemp t ->
  i <= j ->
  Dark.sort_avgtemp t !! i = Some ri ->
  Dark.sort_avgtemp t !! j = Some rj ->
  Float64.leb (Dark.avgtemp ri) (Dark.avgtemp rj) = true.
Proof.
  intros Hfin Hij Hi Hj.
  assert (Forall Dark.finite_avgtemp (Dark.sort_avgtemp t)) as Hfin'.
  { rewrite List.Forall_forall in *. intros r Hr. apply Hfin.
    eapply Permutation_in; [apply sort_avgtemp_perm | exact Hr]. }
  assert (Dark.finite_avgtemp ri) as [Vi Fi].
  { rewrite List.Forall_forall in Hfin'. apply Hfin', list_elem_of_In.
    eapply list_elem_of_lookup_2, Hi. }
  assert (Dark.finite_avgtemp rj) as [Vj Fj].
  { rewrite List.Forall_forall in Hfin'. apply Hfin', list_elem_of_In.
    eapply list_elem_of_lookup_2, Hj. }
  apply leb_scaled; try assumption.
  destruct (decide (i = j)) as [->|Hne].
  { assert (ri = rj) as -> by congruence. lia. }
  set (R := fun r1 r2 : Dark.row =>
              (Float64.scaled (Dark.avgtemp r1) <= Float64.scaled (Dark.avgtemp r2))%Z).
  assert (Sorted R (Dark.sort_avgtemp t)) as Hs.
  { apply (Sorted_weaken Dark.in_order R Dark.finite_avgtemp); [|exact Hfin'|apply sort_avgtemp_sorted].
    intros x y [Vx Fx] [Vy Fy] Hxy. unfold R.
    apply leb_scaled; try assumption.
    apply not_key_lt_leb; [now apply finite_not_nan|now apply finite_not_nan|exact Hxy]. }
  apply Sorted_StronglySorted in Hs; [|intros x y z; unfold R; lia].
  apply (StronglySorted_lookup R _ i j ri rj Hs); [lia|assumption|assumption].
Qed.

Lemma sorted_rows_on_sample :
  Forall Dark.finite_avgtemp Sample.three_rows /\
  Float64.leb (Dark.avg Sample.temp1 Sample.temp1)
              (Dark.avg (Float64.of_dyadic 51 (-1)) (Float64.of_dyadic 53 (-1))) = true.
Proof.
  assert (Forall Dark.finite_avgtemp Sample.three_rows) as Hfin.
  { repeat (constructor; [split; vm_compute; reflexivity|]). constructor. }
  split; [exact Hfin|].
  apply (sorted_rows_are_ordered_pairwise Sample.three_rows 0 2
           (Sample.row_at "a" Sample.temp1 Sample.temp1)
           (Sample.row_at "c" (Float64.of_dyadic 51 (-1)) (Float64.of_dyadic 53 (-1)))
           Hfin).
  - lia.
  - vm_compute; reflexivity.
  - vm_compute; reflexivity.
Defined.

Section SortMore.
Context {pix : Type}.
Variable to_S : nat -> hval -> string.

(** X11.  From the disk to the sorted table: when the loop succeeds and the
    temperatures it read are finite numbers, no average is a NaN, the
    sorted table is in non-decreasing order of [avgtemp], and its file
    column holds the listed files, each once per listing. *)
Theorem built_table_sorts_by_temperature (disk : Fs.t pix) (t : Dark.table) :
  Dark.build_table to_S disk = (Ok tt, t) ->
  Forall (fun r => Float64.valid (Dark.mdecodt1 r) = true /\
                   Float64.valid (Dark.mdecodt2 r) = true /\
                   Float64.is_finite (Dark.mdecodt1 r) = true /\
                   Float64.is_finite (Dark.mdecodt2 r) = true) t ->
  Forall (fun r => Float64.is_nan (Dark.avgtemp r) = false) t /\
  Sorted (fun r1 r2 => Float64.leb (Dark.avgtemp r1) (Dark.avgtemp r2) = true)
         (Dark.sort_avgtemp t) /\
  Permutation (Dark.file <$> Dark.sort_avgtemp t)
              ((fun f => to_S 64 (HStr f)) <$> Dark.flt_list disk).
Proof.
  unfold Dark.build_table. intros H Hfin.
  apply table_loop_ok in H as (rows & Hrows & ->). simpl in *.
  assert (Forall (fun r => Float64.is_nan (Dark.avgtemp r) = false) rows) as Hnan.
  { pose proof (row_of_avgtemp to_S _ _ _ Hrows) as Havg.
    rewrite List.Forall_forall in *. intros r Hr.
    rewrite (Havg r Hr). destruct (Hfin r Hr) as (V1 & V2 & F1 & F2).
    now apply avg_not_nan. }
  split; [exact Hnan|]. split.
  - apply (Sorted_weaken Dark.in_order _ (fun r => Float64.is_nan (Dark.avgtemp r) = false)).
    + intros x y Hx Hy Hxy. now apply not_key_lt_leb.
    + rewrite List.Forall_forall in *. intros r Hr. apply Hnan.
      eapply Permutation_in; [apply sort_avgtemp_perm | exact Hr].
    + apply sort_avgtemp_sorted.
  - rewrite <- (row_of_file to_S _ _ _ Hrows).
    apply fmap_Permutation, sort_avgtemp_perm.
Qed.

End SortMore.

(** ** The box *)

Section BoxMore.
Context {pix : Type}.
Variable np_sum : image pix -> pix.

Lemma list_map_lookup {A B} (f : A -> B) (l : list A) (i : nat) :
  List.map f l !! i = f <$> l !! i.
Proof. revert i. induction l as [|x l IH]; intros [|i]; simpl; auto. Qed.

Lemma slice_lookup {A} (lo hi : nat) (l : list A) (i : nat) :
  Dark.slice lo hi l !! i = if i <? hi - lo then l !! (lo + i) else None.
Proof.
  unfold Dark.slice. rewrite lookup_take, lookup_drop.
  case_decide; destruct (Nat.ltb_spec i (hi - lo)); try lia; reflexivity.
Qed.

(** X12.  The box of the cutter is rows 650 to 849 and columns 580 to 779 of
    the image: pixel (i, j) of the cut is pixel (650+i, 580+j) of the
    image for i, j below 200, and there is no other.  Where the image
    is smaller the cut is clipped, and empty for an image of at most
    650 rows; no index error is raised. *)
Theorem cut_is_the_box_of_the_cutter (a : image pix) (i j : nat) :
  pixel (Dark.cut a) i j =
    (if (i <? 200) && (j <? 200) then pixel a (650 + i) (580 + j) else None) /\
  nrows (Dark.cut a) = Nat.min 200 (nrows a - 650) /\
  (nrows a <= 650 -> Dark.cut a = []).
Proof.
  split; [|split].
  - unfold pixel, Dark.cut. rewrite list_map_lookup, slice_lookup.
    change (850 - 650) with 200.
    destruct (i <? 200); [|reflexivity].
    rewrite andb_true_l.
    destruct (a !! (650 + i)) as [row|]; cbn [fmap option_fmap option_map].
    + rewrite slice_lookup. change (780 - 580) with 200. reflexivity.
    + now destruct (j <? 200).
  - unfold nrows, Dark.cut, Dark.slice.
    rewrite length_map, length_take, length_drop. reflexivity.
  - unfold nrows, Dark.cut, Dark.slice. intros H.
    rewrite drop_ge by exact H. reflexivity.
Qed.

Lemma box_sums_ok (disk : Fs.t pix) (files : list string) (out out' : list (string * pix)) :
  Dark.box_sums np_sum disk files out = (Ok tt, out') <->
  exists imgs, Forall2 (Dark.readable disk) files imgs /\ out' = out ++ zip_with (Dark.line np_sum) files imgs.
Proof.
  unfold Dark.box_sums. revert out.
  induction files as [|f files IH]; intros out.
  - simpl. unfold St.ret. split.
    + intros H. injection H as <-. exists []. split; [constructor|now rewrite app_nil_r].
    + intros (imgs & HF & ->). inversion HF. now rewrite app_nil_r.
  - rewrite for_each_cons. unfold St.bind at 1, St.lift.
    destruct (Fs.getdata disk f None) as [img|e] eqn:E.
    + rewrite IH. split.
      * intros (imgs & HF & ->). exists (img :: imgs).
        split; [now constructor|]. now rewrite <- app_assoc.
      * intros (imgs & HF & ->). inversion HF as [|? img' ? imgs' Hr HF']; subst.
        unfold Dark.readable in Hr. assert (img' = img) as -> by congruence.
        exists imgs'. split; [exact HF'|]. now rewrite <- app_assoc.
    + split; [discriminate|].
      intros (imgs & HF & _). inversion HF as [|? img' ? imgs' Hr HF']; subst.
      unfold Dark.readable in Hr. congruence.
Qed.

Lemma box_sums_raise (disk : Fs.t pix) (files : list string) (out out' : list (string * pix))
    (e : exn) :
  Dark.box_sums np_sum disk files out = (Raise e, out') <->
  exists pre file post imgs,
    files = pre ++ file :: post /\
    Forall2 (Dark.readable disk) pre imgs /\
    out' = out ++ zip_with (Dark.line np_sum) pre imgs /\
    Fs.getdata disk file None = Raise e.
Proof.
  unfold Dark.box_sums at 1. rewrite for_each_raise. split.
  - intros (pre & file & post & out0 & -> & Hpre & Hf).
    apply box_sums_ok in Hpre as (imgs & Himgs & ->).
    unfold St.bind, St.lift in Hf.
    destruct (Fs.getdata disk file None) as [img|e0] eqn:E; [discriminate|].
    injection Hf as -> <-. exists pre, file, post, imgs. auto.
  - intros (pre & file & post & imgs & -> & Himgs & -> & Hf).
    exists pre, file, post, (out ++ zip_with (Dark.line np_sum) pre imgs).
    split; [reflexivity|]. split.
    + apply box_sums_ok. eauto.
    + unfold St.bind, St.lift. now rewrite Hf.
Qed.

Lemma box_sums_cell_flat (disk : Fs.t pix) (out : list (string * pix)) :
  Dark.box_sums_cell np_sum disk out =
  Dark.box_sums np_sum disk (Dark.sci_list ++ Dark.drk_list disk) out.
Proof.
  unfold Dark.box_sums_cell, Dark.box_sums. now rewrite for_each_app.
Qed.

(** X13.  The cell of the box sums prints one line per file, the two science
    exposures first and then the raw darks in the order of [drk_list],
    each with the base name of the file and the sum over the box of its
    image.  It stops at the first file whose image cannot be read, with
    the exception of that read; the lines of the files before it have
    been printed, and no line follows. *)
Theorem box_sums_cell_prints_a_line_per_file
    (disk : Fs.t pix) (out out' : list (string * pix)) (e : exn) :
  (Dark.box_sums_cell np_sum disk out = (Ok tt, out') <->
   exists imgs,
     Forall2 (Dark.readable disk) (Dark.sci_list ++ Dark.drk_list disk) imgs /\
     out' = out ++ zip_with (Dark.line np_sum) (Dark.sci_list ++ Dark.drk_list disk) imgs) /\
  (Dark.box_sums_cell np_sum disk out = (Raise e, out') <->
   exists pre file post imgs,
     Dark.sci_list ++ Dark.drk_list disk = pre ++ file :: post /\
     Forall2 (Dark.readable disk) pre imgs /\
     out' = out ++ zip_with (Dark.line np_sum) pre imgs /\
     Fs.getdata disk file None = Raise e).
Proof.
  rewrite !box_sums_cell_flat. split; [apply box_sums_ok | apply box_sums_raise].
Qed.

End BoxMore.

(** ** The dark cells, when something is missing *)

Section DarkCellMore.
Context {pix : Type}.
Variable cast : pix -> pix.



Lemma dark_cell_unfold (flt_file drk_file new_file : string) (disk : Fs.t pix) :
  Dark.dark_cell cast flt_file drk_file new_file disk =
  St.bind (fun d => (Fs.getdata d drk_file None, d))
    (fun darkdat =>
       St.bind (fun d => (Fs.getval d drk_file "exptime" 0, d))
         (fun exptime => Fs.with_update new_file (Dark.put_dark cast darkdat exptime)))
    (Fs.cp flt_file new_file disk).
Proof. reflexivity. Qed.


(** X15.  A dark cell can be run again: on the disk it left when it succeeded
    it succeeds again and leaves the same disk, because the copy is made
    afresh from the science file each time. *)
Theorem dark_cell_run_twice_is_run_once
    (disk disk' : Fs.t pix) (flt_file drk_file new_file : string) (sci : hdulist pix) :
  Str.resolve new_file <> Str.resolve flt_file ->
  Fs.files disk !! Str.resolve flt_file = Some sci ->
  Dark.dark_cell cast flt_file drk_file new_file disk = (Ok tt, disk') ->
  Dark.dark_cell cast flt_file drk_file new_file disk' = (Ok tt, disk').
Proof.
  intros Hnf Hsci H.
  assert (Fs.cp flt_file new_file disk' = Fs.cp flt_file new_file disk) as Hcp;
    [|rewrite dark_cell_unfold, Hcp, <- dark_cell_unfold; exact H].
  rewrite dark_cell_unfold in H. set (disk1 := Fs.cp flt_file new_file disk) in *.
  assert (Fs.dirs disk1 = Fs.dirs disk) as Hdirs.
  { unfold disk1, Fs.cp. rewrite Hsci. repeat case_match; reflexivity. }
  unfold St.bind at 1 in H.
  destruct (Fs.getdata disk1 drk_file None) as [darkdat|]; [|discriminate].
  unfold St.bind at 1 in H.
  destruct (Fs.getval disk1 drk_file "exptime" 0) as [exptime|]; [|discriminate].
  unfold Fs.with_update, Fs.open in H.
  destruct (Fs.is_dir disk1 (Str.resolve new_file)) eqn:Edir1; [discriminate|].
  assert (Fs.is_dir disk (Str.resolve new_file) = false) as Edir.
  { unfold Fs.is_dir in *. now rewrite <- Hdirs. }
  assert (disk1 = Fs.Disk (<[Str.resolve new_file := sci]> (Fs.files disk)) (Fs.dirs disk))
    as Hdisk1.
  { unfold disk1, Fs.cp. rewrite Hsci. cbv zeta. rewrite Edir, Edir. reflexivity. }
  rewrite Hdisk1 in H. cbn [Fs.files Fs.dirs] in H. rewrite lookup_insert_eq in H.
  destruct (Dark.put_dark cast darkdat exptime sci) as [r upd].
  injection H as -> <-.
  rewrite Hdisk1. unfold Fs.cp. cbn [Fs.files Fs.dirs].
  rewrite !lookup_insert_ne by exact Hnf. rewrite Hsci. cbv zeta.
  assert (forall fs : gmap (list string) (hdulist pix),
             Fs.is_dir (Fs.Disk fs (Fs.dirs disk)) (Str.resolve new_file) = false) as Hid
    by (intros fs; exact Edir).
  rewrite Hid. cbv iota. rewrite Hid, !insert_insert_eq. reflexivity.
Qed.

(** X16.  The copy command reports nothing: without the science file a
    dark cell goes on.  If there is no file of the new name either, the
    cell fails at the [with] block, for the new file and not for the
    science file, and the disk is untouched.  If an older file of that
    name is there, the cell succeeds, and it is that older file that
    now carries the dark data in unit 1 and the exposure time of the
    dark, and is otherwise what it was. *)
Theorem dark_cell_without_science_file
    (disk : Fs.t pix) (flt_file drk_file new_file : string) :
  Fs.files disk !! Str.resolve flt_file = None ->
  (forall darkdat exptime,
     Fs.getdata disk drk_file None = Ok darkdat ->
     Fs.getval disk drk_file "exptime" 0 = Ok exptime ->
     Fs.is_dir disk (Str.resolve new_file) = false ->
     Fs.files disk !! Str.resolve new_file = None ->
     Dark.dark_cell cast flt_file drk_file new_file disk =
       (Raise (FileNotFoundError new_file), disk)) /\
  (forall old disk',
     Fs.files disk !! Str.resolve new_file = Some old ->
     Dark.dark_cell cast flt_file drk_file new_file disk = (Ok tt, disk') ->
     exists upd darkdat exptime d1 d1',
       Fs.getdata disk drk_file None = Ok darkdat /\
       Fs.getval disk drk_file "exptime" 0 = Ok exptime /\
       Fs.files disk' !! Str.resolve new_file = Some upd /\
       Dark.only_dark_changed old upd /\
       getdata_of old (Some 1) = Ok d1 /\
       assign_all cast d1 darkdat = Ok d1' /\
       Fs.getdata disk' new_file (Some 1) = Ok d1' /\
       Fs.getval disk' new_file "exptime" 0 = Ok exptime /\
       (forall q, q <> Str.resolve new_file -> Fs.files disk' !! q = Fs.files disk !! q) /\
       Fs.dirs disk' = Fs.dirs disk).
Proof.
  intros Hnone.
  assert (Fs.cp flt_file new_file disk = disk) as Hcp.
  { unfold Fs.cp. now rewrite Hnone. }
  split.
  - intros darkdat exptime Hdat Hexp Hdir Hnew.
    rewrite dark_cell_unfold, Hcp. unfold St.bind. rewrite Hdat, Hexp.
    unfold Fs.with_update, Fs.open. now rewrite Hdir, Hnew.
  - intros old disk' Hold. rewrite dark_cell_unfold, Hcp. unfold St.bind.
    destruct (Fs.getdata disk drk_file None) as [darkdat|]; [|discriminate].
    destruct (Fs.getval disk drk_file "exptime" 0) as [exptime|]; [|discriminate].
    unfold Fs.with_update, Fs.open.
    destruct (Fs.is_dir disk (Str.resolve new_file)) eqn:Edir; [discriminate|].
    rewrite Hold.
    destruct (Dark.put_dark cast darkdat exptime old) as [r upd] eqn:Eput.
    intros H. injection H as -> <-. cbn [Fs.files Fs.dirs].
    destruct (put_dark_ok _ _ _ _ _ Eput) as (h0 & h1 & d1 & d1' & E0 & E1 & Ed & Ea & ->).
    assert (0 < length old) as L0 by (eapply lookup_lt_Some; eauto).
    assert (1 < length old) as L1 by (eapply lookup_lt_Some; eauto).
    eexists _, darkdat, exptime, d1, d1'.
    split; [reflexivity|]. split; [reflexivity|].
    split; [apply lookup_insert_eq|].
    split; [now apply put_dark_frame|].
    split. { unfold getdata_of, ext, hdu_data. rewrite E1. simpl. now rewrite Ed. }
    split; [exact Ea|].
    split.
    { unfold Fs.getdata, Fs.open. cbn [Fs.files Fs.dirs].
      change (Fs.is_dir _ (Str.resolve new_file)) with (Fs.is_dir disk (Str.resolve new_file)).
      rewrite Edir, lookup_insert_eq. simpl.
      unfold ext. rewrite list_lookup_insert_ne by discriminate.
      rewrite list_lookup_insert_eq by lia. reflexivity. }
    split.
    { unfold Fs.getval, Fs.open. cbn [Fs.files Fs.dirs].
      change (Fs.is_dir _ (Str.resolve new_file)) with (Fs.is_dir disk (Str.resolve new_file)).
      rewrite Edir, lookup_insert_eq. simpl.
      unfold getval_of, ext.
      rewrite list_lookup_insert_eq by (rewrite length_insert; lia). simpl.
      apply header_get_set_eq. }
    split; [|reflexivity].
    intros q Hq. now rewrite lookup_insert_ne by congruence.
Qed.

End DarkCellMore.

(** ** The figure, when something is missing *)

Section PamMore.
Context {pix : Type}.
Variable pmul : pix -> pix -> pix.

Lemma elementwise_no_broadcast (a b : image pix) :
  bdim (nrows a) (nrows b) = None \/ bdim (ncols a) (ncols b) = None ->
  elementwise pmul a b = Raise ValueError.
Proof.
  unfold elementwise. intros [H|H]; rewrite H; [reflexivity|].
  now destruct (bdim (nrows a) (nrows b)).
Qed.

Lemma multiply_raise (x y : nat) (a b : image pix) (e : exn) (s : Pam.state) :
  Pam.arrays s !! x = Some a -> Pam.arrays s !! y = Some b ->
  elementwise pmul a b = Raise e ->
  Pam.multiply pmul x y s = (Raise e, s).
Proof.
  intros Hx Hy He. unfold Pam.multiply.
  rewrite (bind_ok _ _ _ _ _ (deref_ok _ _ _ Hx)).
  rewrite (bind_ok _ _ _ _ _ (deref_ok _ _ _ Hy)).
  rewrite He. reflexivity.
Qed.

(** X17.  How [triple_plot_pam] fails.  When the science array cannot be
    read, nothing has been done.  When the pixel area map cannot be
    read, the science array has been loaded and no figure has been
    made.  When both are read but their shapes cannot be broadcast
    against each other, the product raises ValueError after the first
    two panels have been drawn: the figure is left with the panels of
    the science array and of the map, and without the third. *)
Theorem triple_plot_pam_failures
    (disk : Fs.t pix) (flt_file pam_file figtitle : string) (s : Pam.state) :
  (forall e, Fs.getdata disk flt_file (Some 1) = Raise e ->
     Pam.triple_plot_pam pmul disk flt_file pam_file figtitle s = (Raise e, s)) /\
  (forall a e,
     Fs.getdata disk flt_file (Some 1) = Ok a ->
     Fs.getdata disk pam_file None = Raise e ->
     Pam.triple_plot_pam pmul disk flt_file pam_file figtitle s =
       (Raise e, Pam.State (Pam.arrays s ++ [a]) (Pam.figures s))) /\
  (forall a b,
     Fs.getdata disk flt_file (Some 1) = Ok a ->
     Fs.getdata disk pam_file None = Ok b ->
     bdim (nrows a) (nrows b) = None \/ bdim (ncols a) (ncols b) = None ->
     Pam.triple_plot_pam pmul disk flt_file pam_file figtitle s =
       (Raise ValueError,
        Pam.State (Pam.arrays s ++ [a; b])
          (Pam.figures s ++
           [Pam.Figure figtitle
              [Pam.Panel "Raw" (Some (length (Pam.arrays s)));
               Pam.Panel "Pixel Area Map" (Some (S (length (Pam.arrays s))))]]))).
Proof.
  destruct s as [arrs figs]. cbn [Pam.arrays Pam.figures].
  split; [|split].
  - intros e Ha. unfold Pam.triple_plot_pam. rewrite Ha. reflexivity.
  - intros a e Ha Hb. unfold Pam.triple_plot_pam.
    rewrite Ha. rewrite (bind_ok _ _ _ _ _ (alloc_ok _ _)).
    rewrite Hb. reflexivity.
  - intros a b Ha Hb Hshape.
    unfold Pam.triple_plot_pam, Pam.ds9_imitate, Pam.set_title.
    rewrite Ha. rewrite (bind_ok _ _ _ _ _ (alloc_ok _ _)).
    rewrite Hb. rewrite (bind_ok _ _ _ _ _ (alloc_ok _ _)).
    cbn [Pam.arrays Pam.figures].
    erewrite bind_ok by reflexivity. cbn [Pam.arrays Pam.figures].
    rewrite (bind_ok _ _ _ _ _ (fig_suptitle_ok _ _ _ _ _)).
    rewrite (bind_ok _ _ _ _ _ (add_subplot_ok _ _ _ _)).
    rewrite (bind_ok _ _ _ _ _ (on_panel_ok _ _ _ _ [] _)).
    rewrite (bind_ok _ _ _ _ _ (on_panel_ok _ _ _ _ [] _)).
    cbn [Pam.title Pam.shown app].
    rewrite (bind_ok _ _ _ _ _ (add_subplot_ok _ _ _ [_])).
    rewrite (bind_ok _ _ _ _ _ (on_panel_ok _ _ _ _ [_] _)).
    rewrite (bind_ok _ _ _ _ _ (on_panel_ok _ _ _ _ [_] _)).
    cbn [Pam.title Pam.shown app].
    erewrite bind_raise;
      [|apply (multiply_raise _ _ a b);
        [apply snoc_lookup2 | apply snoc_lookup
        | apply elementwise_no_broadcast; assumption]].
    rewrite <- !app_assoc, !length_app. cbn [app length].
    replace (length arrs + 1) with (S (length arrs)) by lia.
    reflexivity.
Qed.

End PamMore.

(** ** The first raw dark *)

Section InfoMore.
Context {pix : Type}.

(** X18.  The cell that shows the structure of the first raw dark raises
    IndexError when the working directory has no raw dark.  When it has
    one, and the disk has not changed since the list was made, the cell
    shows one entry per unit of that file, unless the entry of that name
    is a directory. *)
Theorem info_cell_needs_a_raw_dark (disk : Fs.t pix) :
  (Dark.drk_list disk = [] -> Dark.info_cell disk = Raise IndexError) /\
  (forall name rest,
     Dark.drk_list disk = name :: rest -> Fs.wf disk ->
     (exists f, Fs.files disk !! [name] = Some f /\
                Dark.info_cell disk = Ok (Dark.info f) /\
                length (Dark.info f) = length f) \/
     Dark.info_cell disk = Raise (IsADirectoryError name)).
Proof.
  unfold Dark.info_cell. split; [now intros ->|].
  intros name rest Hl Hwf. rewrite Hl. simpl.
  assert (name ∈ Fs.listdir disk) as Hn.
  { assert (name ∈ Dark.drk_list disk) as Hin by (rewrite Hl; left).
    now apply glob_suffix_spec in Hin as [Hin _]. }
  pose proof (Hwf _ (listdir_inv _ _ Hn)) as Hp.
  inversion Hp as [|? ? Hp' _]; subst.
  destruct (open_listed name disk Hwf Hn) as [[f Hok]|Hdir].
  - left. exists f. rewrite Hok. simpl.
    unfold Fs.open in Hok. rewrite (resolve_proper_name name Hp') in Hok.
    destruct (Fs.is_dir disk [name]); [discriminate|].
    destruct (Fs.files disk !! [name]) as [f0|]; [|discriminate].
    injection Hok as ->. split; [reflexivity|]. split; [reflexivity|].
    unfold Dark.info. apply length_fmap.
  - right. now rewrite Hdir.
Qed.

End InfoMore.

(** ** Assigning into the science array *)

Section AssignMore.
Context {pix : Type}.
Variable cast : pix -> pix.

Lemma stretch_length {A} (n : nat) (l l' : list A) :
  stretch n l = Some l' -> length l' = n /\ (length l = n -> l' = l).
Proof.
  unfold stretch. destruct (Nat.eqb_spec (length l) n) as [He|Hne].
  - intros H. injection H as <-. auto.
  - destruct l as [|x [|? ?]]; try discriminate.
    intros H. injection H as <-. split; [apply length_replicate|]. intros. contradiction.
Qed.

Lemma mapM_stretch_length (c : nat) (a a' : image pix) :
  mapM (stretch c) a = Some a' ->
  length a' = length a /\ Forall (fun row => length row = c) a' /\
  (Forall (fun row => length row = c) a -> a' = a).
Proof.
  revert a'. induction a as [|row a IH]; intros a'; simpl.
  - intros H. injection H as <-. auto.
  - destruct (stretch c row) as [row'|] eqn:Er; [|discriminate]. simpl.
    destruct (mapM (stretch c) a) as [a1|] eqn:Ea; [|discriminate]. simpl.
    intros H. injection H as <-.
    destruct (stretch_length _ _ _ Er) as [Hl Hsame].
    destruct (IH a1 eq_refl) as (Hlen & Hall & Hsame').
    split; [simpl; now rewrite Hlen|]. split; [now constructor|].
    intros Hrows. inversion Hrows; subst. rewrite Hsame, Hsame'; auto.
Qed.

(** X19.  [hdu[1].data[:,:] = darkdat] never changes the shape of the science
    array: when the assignment succeeds the array has as many rows as
    before and every row has the width of the first row before; and
    when the dark array has that shape already, each pixel is the dark
    pixel, cast. *)
Theorem assign_all_keeps_the_shape (dest src r : image pix) :
  assign_all cast dest src = Ok r ->
  nrows r = nrows dest /\
  Forall (fun row => length row = ncols dest) r /\
  (nrows src = nrows dest -> Forall (fun row => length row = ncols dest) src ->
   forall i j, pixel r i j = cast <$> pixel src i j).
Proof.
  unfold assign_all, broadcast_to.
  destruct (stretch (nrows dest) src) as [rows|] eqn:Es; [|discriminate].
  destruct (mapM (stretch (ncols dest)) rows) as [a'|] eqn:Em; [|discriminate].
  simpl. intros H. injection H as <-.
  destruct (stretch_length _ _ _ Es) as [Hl Hsame].
  destruct (mapM_stretch_length _ _ _ Em) as (Hlen & Hall & Hsame').
  split; [unfold nrows in *; rewrite length_map; lia|]. split.
  - rewrite List.Forall_forall in *. intros row Hrow.
    apply in_map_iff in Hrow as (row0 & <- & Hin). rewrite length_map. now apply Hall.
  - intros Hr Hc i j. unfold nrows in Hr. rewrite Hsame in Hsame' by exact Hr.
    rewrite Hsame' by exact Hc.
    unfold pixel. rewrite list_map_lookup.
    destruct (src !! i) as [row|]; simpl; [|reflexivity].
    apply list_map_lookup.
Qed.

End AssignMore.

Lemma housekeeping_rerun_on_sample :
  Forall Housekeeping.downloaded Sample.dl_table /\
  Housekeeping.pam_notebook_cell Sample.dl_table Sample.downloaded =
    (Ok tt, snd (Housekeeping.pam_notebook_cell Sample.dl_table Sample.downloaded)) /\
  Housekeeping.pam_notebook_cell Sample.dl_table
    (snd (Housekeeping.pam_notebook_cell Sample.dl_table Sample.downloaded)) =
    (Raise (FileNotFoundError "./mastDownload/HST/jcmc11ctq/jcmc11ctq_flt.fits"),
     snd (Housekeeping.pam_notebook_cell Sample.dl_table Sample.downloaded)).
Proof.
  assert (Forall Housekeeping.downloaded Sample.dl_table) as Hdl.
  { repeat constructor. }
  split; [exact Hdl|].
  split; [vm_compute; reflexivity|].
  apply (proj1 (housekeeping_rerun_raises Sample.dl_table [] [] Sample.downloaded
                  (snd (Housekeeping.pam_notebook_cell Sample.dl_table Sample.downloaded))
                  Hdl)).
  vm_compute; reflexivity.
Defined.


Lemma move_row_of_bare_name_on_sample :
  Housekeeping.move_row "jcmc11ctq_flt.fits" Sample.working = (Ok tt, Sample.working).
Proof.
  apply (move_row_of_bare_name_is_noop "jcmc11ctq_flt.fits" Sample.flt_file).
  - split; [reflexivity|]. split; discriminate.
  - vm_compute; reflexivity.
  - apply not_elem_of_empty.
Defined.

Lemma moved_files_on_sample :
  Forall Housekeeping.downloaded Sample.dl_table /\
  Str.basename "./mastDownload/HST/jcmc11ctq/jcmc11ctq_flt.fits" ∈
    Dark.flt_list (snd (Housekeeping.pam_notebook_cell Sample.dl_table Sample.downloaded)).
Proof.
  assert (Forall Housekeeping.downloaded Sample.dl_table) as Hdl.
  { repeat constructor. }
  split; [exact Hdl|].
  assert (Housekeeping.pam_notebook_cell Sample.dl_table Sample.downloaded =
          (Ok tt, snd (Housekeeping.pam_notebook_cell Sample.dl_table Sample.downloaded)))
    as Hrun.
  { vm_compute; reflexivity. }
  refine (proj1 (proj2 (moved_files_are_found_by_glob Sample.dl_table [] []
            Sample.downloaded _ "./mastDownload/HST/jcmc11ctq/jcmc11ctq_flt.fits"
            Hdl (or_introl Hrun) _ _)) _).
  - apply list_elem_of_here.
  - vm_compute; reflexivity.
  - vm_compute; reflexivity.
Defined.

Lemma triple_plot_pam_on_mismatched :
  Fs.getdata Sample.mismatched "jcmc11ctq_flt.fits" (Some 1) = Ok [[1; 2]; [3; 4]]%Z /\
  Fs.getdata Sample.mismatched "wfc2_pam.fits" None = Ok [[10; 20]; [30; 40]; [50; 60]]%Z /\
  Pam.triple_plot_pam Z.mul Sample.mismatched "jcmc11ctq_flt.fits" "wfc2_pam.fits"
    "WFC2 PAM Correction Results" (Pam.State [] []) =
    (Raise ValueError,
     Pam.State ([] ++ [[[1; 2]; [3; 4]]; [[10; 20]; [30; 40]; [50; 60]]]%Z)
       ([] ++ [Pam.Figure "WFC2 PAM Correction Results"
                 [Pam.Panel "Raw" (Some 0); Pam.Panel "Pixel Area Map" (Some 1)]])).
Proof.
  split; [vm_compute; reflexivity|]. split; [vm_compute; reflexivity|].
  apply (proj2 (proj2 (triple_plot_pam_failures Z.mul Sample.mismatched
                         "jcmc11ctq_flt.fits" "wfc2_pam.fits"
                         "WFC2 PAM Correction Results" (Pam.State [] [])))).
  - vm_compute; reflexivity.
  - vm_compute; reflexivity.
  - left. vm_compute; reflexivity.
Defined.

Lemma table_loop_twice_on_sample :
  Dark.build_table Sample.to_S Sample.working = (Ok tt, [Sample.flt_row]) /\
  Dark.table_loop Sample.to_S Sample.working (Dark.flt_list Sample.working) [Sample.flt_row]
    = (Ok tt, [Sample.flt_row] ++ [Sample.flt_row]).
Proof.
  assert (Dark.build_table Sample.to_S Sample.working = (Ok tt, [Sample.flt_row])) as H.
  { vm_compute; reflexivity. }
  split; [exact H|].
  apply (table_loop_run_twice_doubles_rows Sample.to_S Sample.working [Sample.flt_row] H).
Defined.

Lemma truncated_wf : Fs.wf Sample.truncated.
Proof.
  intros p Hp. unfold Sample.truncated in Hp. cbn [Fs.files Fs.dirs] in Hp.
  rewrite dom_insert_L, dom_empty_L in Hp.
  apply elem_of_union in Hp as [Hp|Hp]; [|now apply elem_of_empty in Hp].
  apply elem_of_union in Hp as [Hp|Hp]; [|now apply elem_of_empty in Hp].
  apply elem_of_singleton in Hp as ->.
  constructor; [|constructor]. split; [reflexivity|]. split; discriminate.
Qed.

Lemma table_cell_on_truncated :
  Fs.wf Sample.truncated /\
  Dark.build_table Sample.to_S Sample.truncated = (Raise IndexError, []) /\
  exists pre file post,
    Dark.flt_list Sample.truncated = pre ++ file :: post /\
    Forall2 (Dark.row_of Sample.to_S Sample.truncated) pre [] /\
    (IndexError = IsADirectoryError file \/ IndexError = IndexError \/
     IndexError = TypeError \/ IndexError = ValueError \/
     exists key, key ∈ ["FILTER1"; "DATE-OBS"; "TIME-OBS"; "MDECODT1"; "MDECODT2"] /\
                 IndexError = KeyError key).
Proof.
  assert (Dark.build_table Sample.to_S Sample.truncated = (Raise IndexError, [])) as H.
  { vm_compute; reflexivity. }
  split; [exact truncated_wf|]. split; [exact H|].
  exact (table_cell_raises_only_for_bad_files Sample.to_S Sample.truncated IndexError []
           truncated_wf H).
Defined.

Lemma built_table_on_exposures :
  Dark.build_table Sample.to_S Sample.exposures =
    (Ok tt, snd (Dark.build_table Sample.to_S Sample.exposures)) /\
  List.map Dark.file (snd (Dark.build_table Sample.to_S Sample.exposures)) =
    ["jcmc11ctq_flt.fits"; "jcmc11ejq_flt.fits"; "jcmc11e6q_flt.fits"] /\
  List.map Dark.file
    (Dark.sort_avgtemp (snd (Dark.build_table Sample.to_S Sample.exposures))) =
    ["jcmc11e6q_flt.fits"; "jcmc11ejq_flt.fits"; "jcmc11ctq_flt.fits"] /\
  Sorted (fun r1 r2 => Float64.leb (Dark.avgtemp r1) (Dark.avgtemp r2) = true)
         (Dark.sort_avgtemp (snd (Dark.build_table Sample.to_S Sample.exposures))) /\
  Permutation
    (Dark.file <$> Dark.sort_avgtemp (snd (Dark.build_table Sample.to_S Sample.exposures)))
    ((fun f => Sample.to_S 64 (HStr f)) <$> Dark.flt_list Sample.exposures).
Proof.
  assert (Dark.build_table Sample.to_S Sample.exposures =
          (Ok tt, snd (Dark.build_table Sample.to_S Sample.exposures))) as H.
  { vm_compute; reflexivity. }
  split; [exact H|]. split; [vm_compute; reflexivity|]. split; [vm_compute; reflexivity|].
  apply (built_table_sorts_by_temperature Sample.to_S Sample.exposures _ H).
  vm_compute. repeat (constructor; [repeat split|]). constructor.
Defined.


Lemma dark1_cell_twice_on_sample :
  Dark.dark1_cell (fun x => x) Sample.working =
    (Ok tt, snd (Dark.dark1_cell (fun x => x) Sample.working)) /\
  Dark.dark1_cell (fun x => x) (snd (Dark.dark1_cell (fun x => x) Sample.working)) =
    (Ok tt, snd (Dark.dark1_cell (fun x => x) Sample.working)).
Proof.
  assert (Dark.dark1_cell (fun x => x) Sample.working =
          (Ok tt, snd (Dark.dark1_cell (fun x => x) Sample.working))) as H.
  { vm_compute; reflexivity. }
  split; [exact H|].
  apply (dark_cell_run_twice_is_run_once (fun x => x) Sample.working _
           "jcmc11ctq_flt.fits" "jcrx01iiq_raw.fits" "dark1.fits" Sample.flt_file).
  - vm_compute; discriminate.
  - vm_compute; reflexivity.
  - exact H.
Defined.

Lemma dark_cell_without_science_file_on_sample :
  Fs.files Sample.working !! Str.resolve "jcmc11e6q_flt.fits" = None /\
  Dark.dark_cell (fun x => x) "jcmc11e6q_flt.fits" "jcrx01iiq_raw.fits" "dark2.fits"
    Sample.working = (Raise (FileNotFoundError "dark2.fits"), Sample.working) /\
  Fs.files Sample.stale !! Str.resolve "jcmc11e6q_flt.fits" = None /\
  Fs.files Sample.stale !! Str.resolve "dark2.fits" = Some Sample.flt_file /\
  Dark.dark2_cell (fun x => x) Sample.stale =
    (Ok tt, snd (Dark.dark2_cell (fun x => x) Sample.stale)) /\
  exists upd darkdat exptime d1 d1',
    Fs.getdata Sample.stale "jcrx01iyq_raw.fits" None = Ok darkdat /\
    Fs.getval Sample.stale "jcrx01iyq_raw.fits" "exptime" 0 = Ok exptime /\
    Fs.files (snd (Dark.dark2_cell (fun x => x) Sample.stale)) !! Str.resolve "dark2.fits"
      = Some upd /\
    Dark.only_dark_changed Sample.flt_file upd /\
    getdata_of Sample.flt_file (Some 1) = Ok d1 /\
    assign_all (fun x => x) d1 darkdat = Ok d1' /\
    Fs.getdata (snd (Dark.dark2_cell (fun x => x) Sample.stale)) "dark2.fits" (Some 1)
      = Ok d1' /\
    Fs.getval (snd (Dark.dark2_cell (fun x => x) Sample.stale)) "dark2.fits" "exptime" 0
      = Ok exptime /\
    (forall q, q <> Str.resolve "dark2.fits" ->
       Fs.files (snd (Dark.dark2_cell (fun x => x) Sample.stale)) !! q
         = Fs.files Sample.stale !! q) /\
    Fs.dirs (snd (Dark.dark2_cell (fun x => x) Sample.stale)) = Fs.dirs Sample.stale.
Proof.
  assert (Fs.files Sample.working !! Str.resolve "jcmc11e6q_flt.fits" = None) as H.
  { vm_compute; reflexivity. }
  assert (Fs.files Sample.stale !! Str.resolve "jcmc11e6q_flt.fits" = None) as H'.
  { vm_compute; reflexivity. }
  split; [exact H|]. split.
  { apply (proj1 (dark_cell_without_science_file (fun x => x) Sample.working
                    "jcmc11e6q_flt.fits" "jcrx01iiq_raw.fits" "dark2.fits" H)
             [[5; 6]; [7; 8]]%Z (HFloat (Float64.of_dyadic 1000 0))).
    - vm_compute; reflexivity.
    - vm_compute; reflexivity.
    - vm_compute; reflexivity.
    - vm_compute; reflexivity. }
  split; [exact H'|]. split; [vm_compute; reflexivity|].
  split; [vm_compute; reflexivity|].
  apply (proj2 (dark_cell_without_science_file (fun x => x) Sample.stale
                  "jcmc11e6q_flt.fits" "jcrx01iyq_raw.fits" "dark2.fits" H')
           Sample.flt_file).
  - vm_compute; reflexivity.
  - vm_compute; reflexivity.
Defined.

Lemma working_wf : Fs.wf Sample.working.
Proof.
  intros p Hp. unfold Sample.working in Hp. cbn [Fs.files Fs.dirs] in Hp.
  rewrite !dom_insert_L, dom_empty_L in Hp.
  repeat (apply elem_of_union in Hp as [Hp|Hp]);
    try (now apply elem_of_empty in Hp);
    apply elem_of_singleton in Hp as ->;
    (constructor; [|constructor]); (split; [reflexivity|]); split; discriminate.
Qed.

Lemma info_cell_on_sample :
  Dark.drk_list Sample.working = ["jcrx01iiq_raw.fits"] /\
  Fs.wf Sample.working /\
  ((exists f, Fs.files Sample.working !! ["jcrx01iiq_raw.fits"] = Some f /\
              Dark.info_cell Sample.working = Ok (Dark.info f) /\
              length (Dark.info f) = length f) \/
   Dark.info_cell Sample.working = Raise (IsADirectoryError "jcrx01iiq_raw.fits")).
Proof.
  assert (Dark.drk_list Sample.working = ["jcrx01iiq_raw.fits"]) as H.
  { vm_compute; reflexivity. }
  split; [exact H|]. split; [exact working_wf|].
  exact (proj2 (info_cell_needs_a_raw_dark Sample.working) _ _ H working_wf).
Defined.

Lemma assign_all_on_sample :
  assign_all (fun x => x) [[1; 2]; [3; 4]]%Z [[5; 6]; [7; 8]]%Z = Ok [[5; 6]; [7; 8]]%Z /\
  nrows [[5; 6]; [7; 8]]%Z = nrows [[1; 2]; [3; 4]]%Z /\
  Forall (fun row => length row = ncols [[1; 2]; [3; 4]]%Z) [[5; 6]; [7; 8]]%Z.
Proof.
  split; [vm_compute; reflexivity|].
  destruct (assign_all_keeps_the_shape (fun x => x) [[1; 2]; [3; 4]]%Z [[5; 6]; [7; 8]]%Z
              [[5; 6]; [7; 8]]%Z) as (H1 & H2 & _); [vm_compute; reflexivity|].
  split; assumption.
Defined.

(** ** The models against some runs *)

Example sort_keeps_ties_in_order :
  List.map Dark.file (Dark.sort_avgtemp Sample.tied_rows) = ["b"; "d"; "a"; "c"].
Proof. vm_compute. reflexivity. Qed.

Example add_row_refuses_a_filter_that_is_no_string :
  Dark.build_table Sample.to_S
    (Fs.Disk
       (<[["a_flt.fits"] :=
            [ Hdu [("FILTER1", HFloat Float64.two); ("DATE-OBS", HStr "2015-05-07");
                   ("TIME-OBS", HStr "11:43:07")] None;
              Hdu [("MDECODT1", HFloat Sample.temp1); ("MDECODT2", HFloat Sample.temp2)]
                  (Some [[1]]%Z) ]]> ∅) ∅)
  = (Raise ValueError, []).
Proof. vm_compute. reflexivity. Qed.

Example rmtree_refuses_a_regular_file :
  Fs.rmtree "mastDownload" (Fs.Disk (<[["mastDownload"] := Sample.raw_file]> ∅) ∅)
  = Raise (NotADirectoryError "mastDownload").
Proof. vm_compute. reflexivity. Qed.

Example info_of_the_raw_dark :
  Dark.info_cell Sample.working = Ok [None; Some (2, 2)].
Proof. vm_compute. reflexivity. Qed.

Example resolve_follows_dots :
  Str.resolve "mastDownload/../x.fits" = ["x.fits"] /\
  Str.resolve "./mastDownload/HST/../HST/x.fits" = ["mastDownload"; "HST"; "x.fits"] /\
  Str.resolve "../x.fits" = [".."; "x.fits"] /\
  Str.resolve "/tmp/mastDownload/x.fits" = ["/"; "tmp"; "mastDownload"; "x.fits"] /\
  Fs.under Housekeeping.download_root (Str.resolve "mastDownload/../x.fits") = false /\
  Fs.under Housekeeping.download_root (Str.resolve "/mastDownload/x.fits") = false.
Proof. repeat split; vm_compute; reflexivity. Qed.
